(** * Dependency version uplift: extraction, classification and reconciliation

    A shallow embedding of the dependency extraction and change
    classification engine ([src/version.ts], [src/main.ts],
    [src/parsers/*.ts]) together with the properties stated for it.

    Conventions of the embedding.
    - A JavaScript string is a [string]; a character is read as a Latin-1
      code unit, so that the white space of [String.prototype.trim] and the
      case mapping of [String.prototype.toLowerCase] are the ones
      JavaScript has on that range.
    - A [Map<string, V>] is an insertion-ordered association list whose
      keys are pairwise distinct ([JSMap]).
    - [null] and [undefined] of a [string | null] field are [None].
    - Code that can throw runs in the result monad [res]; [try]/[catch]
      is [try_catch]. *)

From Stdlib Require Import Bool Arith Lia List Ascii String ZArith.
Import ListNotations.

Set Implicit Arguments.
Local Open Scope string_scope.
Local Open Scope bool_scope.

(** ** Characters and strings *)

Module Js.

(** White space and line terminators removed by [trim] and matched by
    the class [\s], on the Latin-1 range: TAB, LF, VT, FF, CR, SP, NBSP. *)
Definition is_space (c : ascii) : bool :=
  match nat_of_ascii c with
  | 9 | 10 | 11 | 12 | 13 | 32 | 160 => true
  | _ => false
  end.

Fixpoint trimStart (s : string) : string :=
  match s with
  | EmptyString => EmptyString
  | String c s' => if is_space c then trimStart s' else s
  end.

Fixpoint trimEnd (s : string) : string :=
  match s with
  | EmptyString => EmptyString
  | String c s' =>
      match trimEnd s' with
      | EmptyString => if is_space c then EmptyString else String c EmptyString
      | t => String c t
      end
  end.

Definition trim (s : string) : string := trimEnd (trimStart s).

(** [s.startsWith(p)] *)
Definition startsWith (s p : string) : bool := String.prefix p s.

(** [s.includes(p)] *)
Fixpoint includes (s p : string) : bool :=
  String.prefix p s
  || match s with
     | EmptyString => false
     | String _ s' => includes s' p
     end.

(** [s.toLowerCase()] on Latin-1: A-Z and the capital letters
    U+00C0..U+00DE, the multiplication sign U+00D7 apart. *)
Definition lower_char (c : ascii) : ascii :=
  let n := nat_of_ascii c in
  if ((65 <=? n)%nat && (n <=? 90)%nat)
     || ((192 <=? n)%nat && (n <=? 222)%nat && negb (n =? 215)%nat)
  then ascii_of_nat (n + 32) else c.

Fixpoint toLowerCase (s : string) : string :=
  match s with
  | EmptyString => EmptyString
  | String c s' => String (lower_char c) (toLowerCase s')
  end.

(** [s.split(sep)] for a non-empty separator: [skip] counts the
    characters of a separator still to be passed over. *)
Fixpoint split_aux (sep : string) (skip : nat) (s : string) : string * list string :=
  match s with
  | EmptyString => (EmptyString, [])
  | String c s' =>
      match skip with
      | S k => split_aux sep k s'
      | O =>
          if String.prefix sep s then
            let (p, ps) := split_aux sep (String.length sep - 1) s' in
            (EmptyString, p :: ps)
          else
            let (p, ps) := split_aux sep 0 s' in (String c p, ps)
      end
  end.

Definition split (s sep : string) : list string :=
  let (p, ps) := split_aux sep 0 s in p :: ps.

(** The line feed, and [content.split('\n')]. *)
Definition LF : string := String "010" EmptyString.
Definition lines (content : string) : list string := split content LF.

(** [s.indexOf(p, from)] and [s.lastIndexOf(p)], [-1] when there is none. *)
Definition indexOf (s p : string) (from : nat) : Z :=
  match String.index from p s with
  | Some i => Z.of_nat i
  | None => (-1)%Z
  end.

Fixpoint lastIndexOf_from (p : string) (i : nat) (last : Z) (s : string) : Z :=
  let last' := if String.prefix p s then Z.of_nat i else last in
  match s with
  | EmptyString => last'
  | String _ s' => lastIndexOf_from p (S i) last' s'
  end.

Definition lastIndexOf (s p : string) : Z := lastIndexOf_from p 0 (-1)%Z s.

(** [s.substring(0, n)] and [s.slice(n)] *)
Definition substring0 (s : string) (n : Z) : string :=
  String.substring 0 (Z.to_nat n) s.

Fixpoint slice (n : nat) (s : string) : string :=
  match n, s with
  | S k, String _ s' => slice k s'
  | _, _ => s
  end.

(** The last element of a list ([pop]); [None] is [undefined]. *)
Definition pop {A : Type} (l : list A) : option A := List.last (map Some l) None.

(** A string in a boolean position: the empty string is falsy. *)
Definition truthy (s : string) : bool :=
  match s with EmptyString => false | _ => true end.

End Js.

(** ** Insertion-ordered maps ([Map<string, V>]) *)

Section JSMap.
Variable V : Type.

Definition JSMap := list (string * V).

Definition keys (m : JSMap) : list string := map fst m.

Fixpoint map_get (m : JSMap) (k : string) : option V :=
  match m with
  | [] => None
  | (k', v) :: m' => if String.eqb k' k then Some v else map_get m' k
  end.

Definition map_has (m : JSMap) (k : string) : bool :=
  match map_get m k with Some _ => true | None => false end.

(** [m.set(k, v)]: an existing key keeps its place, a new one goes last. *)
Fixpoint map_set (m : JSMap) (k : string) (v : V) : JSMap :=
  match m with
  | [] => [(k, v)]
  | (k', v') :: m' =>
      if String.eqb k' k then (k', v) :: m' else (k', v') :: map_set m' k v
  end.

Definition map_size (m : JSMap) : nat := List.length m.

(** The invariant of a [Map]: no key twice. *)
Definition wf_map (m : JSMap) : Prop := NoDup (keys m).
End JSMap.

Arguments map_get {V} m k.
Arguments map_has {V} m k.
Arguments map_set {V} m k v.
Arguments map_size {V} m.
Arguments keys {V} m.
Arguments wf_map {V} m.

(** ** Data model ([src/types.ts]) *)

Inductive ChangeType :=
  added | removed | major | minor | patch | prerelease | other.

Inductive Ecosystem := node | python | go | ruby | java | rust | dotnet.

Inductive DependencyType :=
  production | development | optional | peer | build | test.

Record DependencyChange := mkChange {
  name : string;
  ecosystem : Ecosystem;
  file : string;
  oldVersion : option string;
  newVersion : option string;
  changeType : ChangeType;
  dependencyType : DependencyType
}.

(** ** Regular expressions

    The parsers are written with JavaScript regular expressions.  They
    are embedded as syntax trees, run by a backtracking matcher that
    follows the matching order of the language: alternatives left to
    right, quantifiers greedy, the leftmost start position first. *)

Module Regex.

Inductive re :=
| Eps
| Chr (p : ascii -> bool)                  (* one character of a class *)
| Seq (r1 r2 : re)
| Alt (r1 r2 : re)                         (* [r1|r2] *)
| Rep (lo : nat) (hi : option nat) (r : re) (* greedy [r{lo,hi}] *)
| Grp (i : nat) (r : re)                   (* capture group number [i] *)
| Bol                                      (* [^] *)
| Eol.                                     (* [$] *)

Definition Star := Rep 0 None.
Definition Plus := Rep 1 None.
Definition Opt := Rep 0 (Some 1).

Fixpoint Lit (s : string) : re :=
  match s with
  | EmptyString => Eps
  | String c EmptyString => Chr (Ascii.eqb c)
  | String c s' => Seq (Chr (Ascii.eqb c)) (Lit s')
  end.

Fixpoint Seqs (rs : list re) : re :=
  match rs with
  | [] => Eps
  | [r] => r
  | r :: rs' => Seq r (Seqs rs')
  end.

Fixpoint Alts (rs : list re) : re :=
  match rs with
  | [] => Eps
  | [r] => r
  | r :: rs' => Alt r (Alts rs')
  end.

(** Character classes. *)
Definition in_range (lo hi : ascii) (c : ascii) : bool :=
  (nat_of_ascii lo <=? nat_of_ascii c)%nat && (nat_of_ascii c <=? nat_of_ascii hi)%nat.

Fixpoint one_of (cs : string) (c : ascii) : bool :=
  match cs with
  | EmptyString => false
  | String a cs' => Ascii.eqb a c || one_of cs' c
  end.

Definition digit (c : ascii) : bool := in_range "0" "9" c.                (* [\d] *)
Definition lower (c : ascii) : bool := in_range "a" "z" c.
Definition upper (c : ascii) : bool := in_range "A" "Z" c.
Definition word (c : ascii) : bool :=                                     (* [\w] *)
  lower c || upper c || digit c || Ascii.eqb c "_".
Definition space (c : ascii) : bool := Js.is_space c.                     (* [\s] *)
Definition line_end (c : ascii) : bool :=
  Ascii.eqb c "010" || Ascii.eqb c "013".
Definition dot (c : ascii) : bool := negb (line_end c).                   (* [.] *)
Definition notc (p : ascii -> bool) (c : ascii) : bool := negb (p c).
Definition orc (p q : ascii -> bool) (c : ascii) : bool := p c || q c.

(** The least number of characters a match of [r] consumes. *)
Fixpoint min_len (r : re) : nat :=
  match r with
  | Eps | Bol | Eol => 0
  | Chr _ => 1
  | Seq r1 r2 => min_len r1 + min_len r2
  | Alt r1 r2 => Nat.min (min_len r1) (min_len r2)
  | Rep lo _ r1 => lo * min_len r1
  | Grp _ r1 => min_len r1
  end.

(** Captures: group number and captured text, the last write first. *)
Definition caps := list (nat * string).

Fixpoint cap (c : caps) (i : nat) : option string :=
  match c with
  | [] => None
  | (j, s) :: c' => if (i =? j)%nat then Some s else cap c' i
  end.

Section Matcher.
Variable R : Type.

(** A continuation: the offset reached, what is left of the subject
    and the captures made. *)
Definition cont : Type := nat -> string -> caps -> option R.

(** The loop of the greedy quantifier [{lo,hi}] over [body]: [n] rounds
    are done.  Once [lo] rounds are done a round that consumes nothing
    is refused, so the loop ends before its [fuel] does ([run_fuel]
    below). *)
Fixpoint rep_loop (body : cont -> cont) (lo : nat) (hi : option nat) (k : cont)
         (fuel n pos : nat) (s : string) (c : caps) {struct fuel} : option R :=
  let stop := if (lo <=? n)%nat then k pos s c else None in
  let more := match hi with Some h => (n <? h)%nat | None => true end in
  match fuel with
  | O => stop
  | S fuel' =>
      if more then
        match body (fun pos' s' c' =>
                      if (lo <=? n)%nat && (pos' =? pos)%nat then None
                      else rep_loop body lo hi k fuel' (S n) pos' s' c')
                   pos s c with
        | Some x => Some x
        | None => stop
        end
      else stop
  end.

(** [run extra r k pos s c]: match [r] at offset [pos], where [s] is
    what is left of the subject, and go on with [k]; [None] backtracks.
    A quantifier loop gets [lo] rounds, one for each character left and
    one to stop in; [extra] fuel changes nothing. *)
Fixpoint run (extra : nat) (r : re) (k : cont) (pos : nat) (s : string) (c : caps)
         {struct r} : option R :=
  match r with
  | Eps => k pos s c
  | Chr p =>
      match s with
      | String a s' => if p a then k (S pos) s' c else None
      | EmptyString => None
      end
  | Seq r1 r2 => run extra r1 (run extra r2 k) pos s c
  | Alt r1 r2 =>
      match run extra r1 k pos s c with
      | Some x => Some x
      | None => run extra r2 k pos s c
      end
  | Grp i r1 =>
      run extra r1
          (fun pos' s' c' =>
             k pos' s' ((i, String.substring 0 (pos' - pos) s) :: c'))
          pos s c
  | Bol => if (pos =? 0)%nat then k pos s c else None
  | Eol => match s with EmptyString => k pos s c | _ => None end
  | Rep lo hi r1 =>
      rep_loop (run extra r1) lo hi k (extra + S (lo + String.length s)) 0 pos s c
  end.
End Matcher.

(** A match: where it starts, the matched text, the captures and what
    follows the match in the subject. *)
Record result := mkResult {
  index : nat;
  matched : string;
  groups : caps;
  rest : string
}.

Definition match_at (r : re) (pos : nat) (s : string) : option result :=
  run 0 r
      (fun pos' s' c =>
         Some (mkResult pos (String.substring 0 (pos' - pos) s) c s'))
      pos s [].

(** The leftmost match at or after offset [pos]. *)
Fixpoint search_from (r : re) (pos : nat) (s : string) : option result :=
  match match_at r pos s with
  | Some x => Some x
  | None =>
      match s with
      | EmptyString => None
      | String _ s' => search_from r (S pos) s'
      end
  end.

(** [s.match(r)] and [r.exec(s)] for a pattern without the [g] flag. *)
Definition exec (r : re) (s : string) : option result := search_from r 0 s.

(** [r.test(s)], and [s.match(r)] in a boolean position *)
Definition is_match (r : re) (s : string) : bool :=
  match exec r s with Some _ => true | None => false end.

(** Group [i] of a match; [None] is [undefined]. *)
Definition group (m : result) (i : nat) : option string := cap (groups m) i.

(** [s.replace(r, by)], without the [g] flag: the first match only. *)
Definition replace (r : re) (by_ : string) (s : string) : string :=
  match exec r s with
  | Some m => String.substring 0 (index m) s ++ by_ ++ rest m
  | None => s
  end.

(** The successive matches of a pattern with the [g] flag, as the loop
    [while ((m = r.exec(s)) !== null)] sees them.  [pre] is what was
    skipped since the last match; the loop ends for want of fuel only on
    a pattern that matches the empty string. *)
Fixpoint exec_all_from (fuel : nat) (r : re) (pos : nat) (s : string)
  : list result :=
  match fuel with
  | O => []
  | S fuel' =>
      match search_from r pos s with
      | None => []
      | Some m =>
          let stop := index m + String.length (matched m) in
          m :: exec_all_from fuel' r stop (rest m)
      end
  end.

Definition exec_all (r : re) (s : string) : list result :=
  exec_all_from (S (String.length s)) r 0 s.

(** [s.replace(r, by)] with the [g] flag, for a one-character class. *)
Fixpoint replace_all_chr (p : ascii -> bool) (by_ : string) (s : string) : string :=
  match s with
  | EmptyString => EmptyString
  | String c s' =>
      if p c then by_ ++ replace_all_chr p by_ s'
      else String c (replace_all_chr p by_ s')
  end.

End Regex.

(** ** Version classifier ([src/version.ts]) *)

(** The character class [[\^~=<>!]]. *)
Definition is_range_op (c : ascii) : bool :=
  match c with
  | "^" | "~" | "=" | "<" | ">" | "!" => true
  | _ => false
  end%char.

(** [/^[\^~=<>!]+/] *)
Definition re_range_prefix : Regex.re :=
  Regex.Seq Regex.Bol (Regex.Plus (Regex.Chr is_range_op)).

Definition cleanVersion (version : string) : string :=
  Js.trim (Regex.replace re_range_prefix "" version).

(** The three entry points of the [semver] package that the classifier
    calls.  The package is not part of the repository: the classifier is
    embedded over any implementation of them, and [Semver] below gives
    the one used to run it. *)
Section Classifier.
Variable SemVer : Type.
(** [semver.coerce(s)]: a version, or [null]. *)
Variable semver_coerce : string -> option SemVer.
(** [semver.prerelease(s)]: the prerelease identifiers, or [null]. *)
Variable semver_prerelease : string -> option (list string).
(** [semver.diff(a, b)]: the name of the difference, or [null]. *)
Variable semver_diff : SemVer -> SemVer -> option string.

Definition determineChangeType (oldVersion newVersion : string) : ChangeType :=
  let cleanOld := cleanVersion oldVersion in
  let cleanNew := cleanVersion newVersion in
  match semver_coerce cleanOld, semver_coerce cleanNew with
  | Some semverOld, Some semverNew =>
      match semver_prerelease cleanNew with
      | Some _ => prerelease
      | None =>
          match semver_diff semverOld semverNew with
          | None => other
          | Some diff =>
              if Js.includes diff "major" then major
              else if Js.includes diff "minor" then minor
              else if Js.includes diff "patch" then patch
              else if Js.includes diff "prerelease" || Js.includes diff "pre"
              then prerelease
              else other
          end
      end
  | _, _ =>
      if negb (String.eqb cleanOld cleanNew) then other else other
  end.

Section Compare.
Variables (oldDeps newDeps : JSMap string).
Variables (eco : Ecosystem) (path : string) (depType : DependencyType).

(** The body of the first loop, for one entry of [oldDeps]. *)
Definition compare_old (changes : list DependencyChange)
           (entry : string * string) : list DependencyChange :=
  let '(name, oldVersion) := entry in
  match map_get newDeps name with
  | None =>
      changes ++ [mkChange name eco path (Some oldVersion) None removed depType]
  | Some newVersion =>
      if negb (Js.truthy newVersion) then
        changes ++ [mkChange name eco path (Some oldVersion) None removed depType]
      else if negb (String.eqb (cleanVersion oldVersion) (cleanVersion newVersion)) then
        changes ++ [mkChange name eco path (Some oldVersion) (Some newVersion)
                             (determineChangeType oldVersion newVersion) depType]
      else changes
  end.

(** The body of the second loop, for one entry of [newDeps]. *)
Definition compare_new (changes : list DependencyChange)
           (entry : string * string) : list DependencyChange :=
  let '(name, newVersion) := entry in
  if negb (map_has oldDeps name) then
    changes ++ [mkChange name eco path None (Some newVersion) added depType]
  else changes.

Definition compareVersions : list DependencyChange :=
  let changes := fold_left compare_old oldDeps [] in
  fold_left compare_new newDeps changes.
End Compare.
End Classifier.

(** ** The [semver] package, as far as the classifier uses it

    [coerce] is called without options, so it keeps the three numeric
    components only, and [diff] is only ever handed two such versions;
    [prerelease] parses its argument strictly. *)

Module Semver.
Import Regex.

Record SemVer := mkSemVer { sv_major : N; sv_minor : N; sv_patch : N }.

Definition MAX_LENGTH : nat := 256.
Definition MAX_SAFE_COMPONENT_LENGTH : nat := 16.
Definition MAX_SAFE_INTEGER : N := 9007199254740991.

(** [+s] for a string of decimal digits. *)
Definition number (s : string) : N :=
  let fix go (acc : N) (s : string) : N :=
    match s with
    | EmptyString => acc
    | String c s' => go (acc * 10 + (N_of_ascii c - 48))%N s'
    end in
  go 0%N s.

(** [0|[1-9]\d*] *)
Definition NUMERICIDENTIFIER : re :=
  Alt (Lit "0") (Seq (Chr (in_range "1" "9")) (Star (Chr digit))).

Definition LETTERDASHNUMBER : ascii -> bool :=
  orc lower (orc upper (orc digit (one_of "-"))).

(** [\d*[a-zA-Z-][a-zA-Z0-9-]*] *)
Definition NONNUMERICIDENTIFIER : re :=
  Seqs [Star (Chr digit); Chr (orc lower (orc upper (one_of "-")));
        Star (Chr LETTERDASHNUMBER)].

Definition PRERELEASEIDENTIFIER : re :=
  Alt NUMERICIDENTIFIER NONNUMERICIDENTIFIER.

Definition BUILDIDENTIFIER : re := Plus (Chr LETTERDASHNUMBER).

(** The pattern [FULL]: an optional [v], three numeric identifiers
    separated by dots (groups 1 to 3), an optional [-] and dot-separated
    prerelease identifiers (group 4), an optional [+] and dot-separated
    build identifiers (group 5), anchored at both ends. *)
Definition FULL : re :=
  Seqs [Bol; Opt (Lit "v");
        Grp 1 NUMERICIDENTIFIER; Lit "."; Grp 2 NUMERICIDENTIFIER; Lit ".";
        Grp 3 NUMERICIDENTIFIER;
        Opt (Seq (Lit "-")
                 (Grp 4 (Seq PRERELEASEIDENTIFIER
                             (Star (Seq (Lit ".") PRERELEASEIDENTIFIER)))));
        Opt (Seq (Lit "+")
                 (Grp 5 (Seq BUILDIDENTIFIER
                             (Star (Seq (Lit ".") BUILDIDENTIFIER)))));
        Eol].

(** [(^|[^\d])(\d{1,16})(?:\.(\d{1,16}))?(?:\.(\d{1,16}))?(?:$|[^\d])] *)
Definition COERCE : re :=
  let component := Rep 1 (Some MAX_SAFE_COMPONENT_LENGTH) (Chr digit) in
  Seqs [Grp 1 (Alt Bol (Chr (notc digit)));
        Grp 2 component;
        Opt (Seq (Lit ".") (Grp 3 component));
        Opt (Seq (Lit ".") (Grp 4 component));
        Alt Eol (Chr (notc digit))].

(** [new SemVer(version)] inside [parse]: the three numbers and the
    prerelease identifiers, or [None] where the constructor throws. *)
Definition parse (version : string) : option (SemVer * list string) :=
  if (MAX_LENGTH <? String.length version)%nat then None
  else
    match exec FULL (Js.trim version) with
    | None => None
    | Some m =>
        match group m 1, group m 2, group m 3 with
        | Some a, Some b, Some c =>
            let (x, y) := (number a, number b) in
            let z := number c in
            if ((MAX_SAFE_INTEGER <? x) || (MAX_SAFE_INTEGER <? y)
                || (MAX_SAFE_INTEGER <? z))%N
            then None
            else Some (mkSemVer x y z,
                       match group m 4 with
                       | Some pre => if Js.truthy pre then Js.split pre "." else []
                       | None => []
                       end)
        | _, _, _ => None
        end
    end.

(** [semver.coerce(version)] *)
Definition coerce (version : string) : option SemVer :=
  match exec COERCE version with
  | None => None
  | Some m =>
      let or0 (g : option string) :=
        match g with
        | Some s => if Js.truthy s then s else "0"
        | None => "0"
        end in
      match group m 2 with
      | None => None
      | Some digits =>
          match parse (digits ++ "." ++ or0 (group m 3) ++ "." ++ or0 (group m 4)) with
          | Some (v, _) => Some v
          | None => None
          end
      end
  end.

(** [semver.prerelease(version)] *)
Definition prerelease (version : string) : option (list string) :=
  match parse version with
  | Some (_, (_ :: _) as ids) => Some ids
  | _ => None
  end.

(** [semver.diff(v1, v2)] on versions without prerelease identifiers. *)
Definition diff (v1 v2 : SemVer) : option string :=
  if negb (sv_major v1 =? sv_major v2)%N then Some "major"
  else if negb (sv_minor v1 =? sv_minor v2)%N then Some "minor"
  else if negb (sv_patch v1 =? sv_patch v2)%N then Some "patch"
  else None.

End Semver.

(** ** Cross-file reconciliation ([deduplicateChanges], [src/main.ts]) *)

Definition ecosystem_id (e : Ecosystem) : string :=
  match e with
  | node => "node" | python => "python" | go => "go" | ruby => "ruby"
  | java => "java" | rust => "rust" | dotnet => "dotnet"
  end.

(** [`${change.ecosystem}:${change.name}`] *)
Definition change_key (change : DependencyChange) : string :=
  ecosystem_id (ecosystem change) ++ ":" ++ name change.

Definition isLockFile (change : DependencyChange) : bool :=
  Js.includes (file change) "lock" || Js.includes (file change) ".lock".

(** The body of the loop, for one change. *)
Definition dedup_step (seen : JSMap DependencyChange) (change : DependencyChange)
  : JSMap DependencyChange :=
  let key := change_key change in
  match map_get seen key with
  | None => map_set seen key change
  | Some existing =>
      if isLockFile existing && negb (isLockFile change)
      then map_set seen key change
      else seen
  end.

Definition deduplicateChanges (changes : list DependencyChange)
  : list DependencyChange :=
  map snd (fold_left dedup_step changes []).

(** ** Run-time values and exceptions

    What [JSON.parse], [toml.parse], [yaml.load] and [xml2js] hand to
    the parsers is untyped: the interfaces the parsers declare are not
    checked when the program runs.  [JObj] lists the own properties of an
    object in enumeration order. *)

#[local] Set Warnings "-register-all".

Inductive jsval :=
| JUndefined
| JNull
| JBool (b : bool)
| JNum (n : Z)
| JStr (s : string)
| JArr (items : list jsval)
| JObj (fields : list (string * jsval)).

Inductive exn := TypeError | SyntaxError | Error.

Inductive res (A : Type) :=
| Ok (a : A)
| Throw (e : exn).

Arguments Ok {A} a.
Arguments Throw {A} e.

Definition bind {A B : Type} (m : res A) (f : A -> res B) : res B :=
  match m with
  | Ok a => f a
  | Throw e => Throw e
  end.

(** [try { body } catch { return handler }] *)
Definition try_catch {A : Type} (body : res A) (handler : A) : res A :=
  match body with
  | Ok a => Ok a
  | Throw _ => Ok handler
  end.

Declare Scope res_scope.
Delimit Scope res_scope with res.
Notation "x <- m ;; k" := (bind m (fun x => k))
  (at level 61, m at next level, right associativity) : res_scope.
Notation "' p <- m ;; k" := (bind m (fun p => k))
  (at level 61, p pattern, m at next level, right associativity) : res_scope.
Local Open Scope res_scope.

(** A loop body run over a list, stopping at the first exception. *)
Fixpoint foldM {A S : Type} (f : S -> A -> res S) (l : list A) (s : S) : res S :=
  match l with
  | [] => Ok s
  | a :: l' => s' <- f s a ;; foldM f l' s'
  end.

Module Val.

(** A value in a boolean position. *)
Definition truthy (v : jsval) : bool :=
  match v with
  | JUndefined | JNull => false
  | JBool b => b
  | JNum n => negb (n =? 0)%Z
  | JStr s => Js.truthy s
  | JArr _ | JObj _ => true
  end.

Fixpoint lookup (fields : list (string * jsval)) (p : string) : jsval :=
  match fields with
  | [] => JUndefined
  | (k, v) :: fields' => if String.eqb k p then v else lookup fields' p
  end.

(** [v.p] for a property name [p] that no prototype defines: a
    [TypeError] on [undefined] and [null], [undefined] on a missing
    property and on a primitive. *)
Definition get (v : jsval) (p : string) : res jsval :=
  match v with
  | JUndefined | JNull => Throw TypeError
  | JObj fields => Ok (lookup fields p)
  | _ => Ok JUndefined
  end.

(** [v?.p] *)
Definition get_opt (v : jsval) (p : string) : jsval :=
  match v with
  | JObj fields => lookup fields p
  | _ => JUndefined
  end.

Definition char_items (s : string) : list jsval :=
  map (fun c => JStr (String c EmptyString)) (list_ascii_of_string s).

(** [v?.[0]]: the first element of an array, the first character of a
    string. *)
Definition first_opt (v : jsval) : jsval :=
  match v with
  | JArr (x :: _) => x
  | JStr (String c _) => JStr (String c EmptyString)
  | JObj fields => lookup fields "0"
  | _ => JUndefined
  end.

(** Decimal numerals, for array indices and numbers in strings. *)
Fixpoint digits_of (fuel n : nat) (acc : string) : string :=
  match fuel with
  | O => acc
  | S fuel' =>
      let acc' := String (ascii_of_nat (48 + n mod 10)) acc in
      if (n <? 10)%nat then acc' else digits_of fuel' (n / 10) acc'
  end.

Definition string_of_nat (n : nat) : string := digits_of (S n) n EmptyString.

Definition string_of_Z (z : Z) : string :=
  if (z <? 0)%Z then "-" ++ string_of_nat (Z.abs_nat z)
  else string_of_nat (Z.abs_nat z).

Fixpoint indexed {A : Type} (i : nat) (l : list A) : list (string * A) :=
  match l with
  | [] => []
  | x :: l' => (string_of_nat i, x) :: indexed (S i) l'
  end.

(** [Object.entries(v)] *)
Definition entries (v : jsval) : res (list (string * jsval)) :=
  match v with
  | JUndefined | JNull => Throw TypeError
  | JObj fields => Ok fields
  | JArr items => Ok (indexed 0 items)
  | JStr s => Ok (indexed 0 (char_items s))
  | JBool _ | JNum _ => Ok []
  end.

(** [Object.keys(v)] and [Object.values(v)] *)
Definition keys (v : jsval) : res (list string) :=
  es <- entries v ;; Ok (map fst es).

Definition values (v : jsval) : res (list jsval) :=
  es <- entries v ;; Ok (map snd es).

(** What [for (const x of v)] iterates over. *)
Definition iterate (v : jsval) : res (list jsval) :=
  match v with
  | JArr items => Ok items
  | JStr s => Ok (char_items s)
  | _ => Throw TypeError
  end.

(** The receiver of a string method ([v.match], [v.startsWith],
    [v.toLowerCase], [v.replace]): anything but a string has no such
    method and the call throws. *)
Definition as_string (v : jsval) : res string :=
  match v with
  | JStr s => Ok s
  | _ => Throw TypeError
  end.

(** [`${v}`] *)
Fixpoint to_string (v : jsval) : string :=
  match v with
  | JUndefined => "undefined"
  | JNull => "null"
  | JBool b => if b then "true" else "false"
  | JNum n => string_of_Z n
  | JStr s => s
  | JArr items =>
      let piece (x : jsval) :=
        match x with JUndefined | JNull => EmptyString | _ => to_string x end in
      String.concat "," (map piece items)
  | JObj _ => "[object Object]"
  end.

(** [a || b] *)
Definition or_else (a b : jsval) : jsval := if truthy a then a else b.

End Val.

(** ** Parse results ([ParsedDependencies], [src/types.ts])

    The field [parsedType] is the source's [dependencyType]; that name
    is the projection of [DependencyChange] above.  The map holds
    untyped values: the parsers store what the loaders hand them. *)

Record ParsedDependencies := mkParsed {
  dependencies : JSMap jsval;
  parsedType : DependencyType
}.

(** [if (deps.size > 0) results.push({ dependencies: deps, dependencyType })] *)
Definition push_group (results : list ParsedDependencies)
           (deps : JSMap jsval) (t : DependencyType) : list ParsedDependencies :=
  if (0 <? map_size deps)%nat then results ++ [mkParsed deps t] else results.

(** The number of entries of a parse result, over all its groups. *)
Definition total_entries (results : list ParsedDependencies) : nat :=
  fold_right (fun g n => map_size (dependencies g) + n) 0 results.

(** [new Map(entries)] *)
Definition Map_of {V : Type} (es : list (string * V)) : JSMap V :=
  fold_left (fun m e => map_set m (fst e) (snd e)) es [].

Definition dquote : ascii := "034".
Definition squote : ascii := "039".
Definition is_quote (c : ascii) : bool := Ascii.eqb c dquote || Ascii.eqb c squote.

(** ** Node.js parsers ([src/parsers/node.ts]) *)

Module Node.
Import Regex.

Definition MAX_JSON_DEPTH : Z := 20.

(** The loop of [checkJsonDepth] over what is left of [content]. *)
Fixpoint checkJsonDepth_from (maxDepth depth : Z) (inString escape : bool)
         (content : string) : bool :=
  match content with
  | EmptyString => true
  | String char content' =>
      if escape then checkJsonDepth_from maxDepth depth inString false content'
      else if Ascii.eqb char "\" && inString then
        checkJsonDepth_from maxDepth depth inString true content'
      else if Ascii.eqb char dquote then
        checkJsonDepth_from maxDepth depth (negb inString) escape content'
      else if inString then
        checkJsonDepth_from maxDepth depth inString escape content'
      else if Ascii.eqb char "{" || Ascii.eqb char "[" then
        let depth := (depth + 1)%Z in
        if (maxDepth <? depth)%Z then false
        else checkJsonDepth_from maxDepth depth inString escape content'
      else if Ascii.eqb char "}" || Ascii.eqb char "]" then
        let depth := (depth - 1)%Z in
        if (depth <? 0)%Z then false
        else checkJsonDepth_from maxDepth depth inString escape content'
      else checkJsonDepth_from maxDepth depth inString escape content'
  end.

Definition checkJsonDepth (content : string) (maxDepth : Z) : bool :=
  checkJsonDepth_from maxDepth 0 false false content.

(** [/version\s+(dq)?([^(dq)\s]+)(dq)?/], [(dq)] the double quote *)
Definition re_version : re :=
  Seqs [Lit "version"; Plus (Chr space); Opt (Chr (Ascii.eqb dquote));
        Grp 1 (Plus (Chr (notc (orc (Ascii.eqb dquote) space))));
        Opt (Chr (Ascii.eqb dquote))].

(** [/^node_modules\//] *)
Definition re_node_modules : re := Seq Bol (Lit "node_modules/").

(** [/\(.+\)$/] *)
Definition re_peer_suffix : re := Seqs [Lit "("; Plus (Chr dot); Lit ")"; Eol].

(** [/\/?(@?[^@]+)@(.+)/] *)
Definition re_pnpm_path : re :=
  Seqs [Opt (Lit "/");
        Grp 1 (Seq (Opt (Lit "@")) (Plus (Chr (notc (Ascii.eqb "@")))));
        Lit "@"; Grp 2 (Plus (Chr dot))].

Section Parsers.
Variable JSON_parse : string -> res jsval.
Variable yaml_load : string -> res jsval.

(** One of the four sections of [parsePackageJson]. *)
Definition package_section (pkg : jsval) (results : list ParsedDependencies)
           (field : string) (t : DependencyType) : res (list ParsedDependencies) :=
  deps <- Val.get pkg field ;;
  if Val.truthy deps then
    ks <- Val.keys deps ;;
    if (0 <? List.length ks)%nat then
      es <- Val.entries deps ;;
      Ok (results ++ [mkParsed (Map_of es) t])%list
    else Ok results
  else Ok results.

Definition parsePackageJson (content : string) : res (list ParsedDependencies) :=
  try_catch
    (if negb (checkJsonDepth content MAX_JSON_DEPTH) then Ok []
     else
       pkg <- JSON_parse content ;;
       results <- package_section pkg [] "dependencies" production ;;
       results <- package_section pkg results "devDependencies" development ;;
       results <- package_section pkg results "optionalDependencies" optional ;;
       results <- package_section pkg results "peerDependencies" peer ;;
       Ok results)
    [].

(** The two maps a lock-file parser fills. *)
Definition two_maps : Type := JSMap jsval * JSMap jsval.

Definition set_by_dev (st : two_maps) (dev : jsval) (k : string) (v : jsval)
  : two_maps :=
  let (prodDeps, devDeps) := st in
  if Val.truthy dev then (prodDeps, map_set devDeps k v)
  else (map_set prodDeps k v, devDeps).

Definition results_of (st : two_maps) : list ParsedDependencies :=
  let (prodDeps, devDeps) := st in
  push_group (push_group [] prodDeps production) devDeps development.

(** The body of the loop over [lock.packages] (lock file version 3). *)
Definition lock_v3_entry (st : two_maps) (entry : string * jsval) : res two_maps :=
  let (path, info) := entry in
  if String.eqb path "" || String.eqb path "node_modules" then Ok st
  else if negb (Js.startsWith path "node_modules/") then Ok st
  else
    match Js.pop (Js.split (replace re_node_modules "" path) "node_modules/") with
    | None => Ok st
    | Some name =>
        if negb (Js.truthy name) then Ok st
        else
          version <- Val.get info "version" ;;
          if negb (Val.truthy version) then Ok st
          else dev <- Val.get info "dev" ;; Ok (set_by_dev st dev name version)
    end.

(** The body of the loop over [lock.dependencies] (lock file version 2). *)
Definition lock_v2_entry (st : two_maps) (entry : string * jsval) : res two_maps :=
  let (name, info) := entry in
  version <- Val.get info "version" ;;
  if negb (Val.truthy version) then Ok st
  else dev <- Val.get info "dev" ;; Ok (set_by_dev st dev name version).

Definition parsePackageLockJson (content : string) : res (list ParsedDependencies) :=
  try_catch
    (lock <- JSON_parse content ;;
     packages <- Val.get lock "packages" ;;
     st <- (if Val.truthy packages then
              es <- Val.entries packages ;; foldM lock_v3_entry es ([], [])
            else
              deps <- Val.get lock "dependencies" ;;
              if Val.truthy deps then
                es <- Val.entries deps ;; foldM lock_v2_entry es ([], [])
              else Ok ([], [])) ;;
     Ok (results_of st))
    [].

(** The package name of a header line of [yarn.lock]. *)
Definition yarn_header (currentPackage : option string) (line : string)
  : option string :=
  if Js.truthy line && negb (Js.startsWith line " ")
     && negb (Js.startsWith line "#") && Js.includes line "@" then
    let cleanLine :=
      Js.trim (replace_all_chr (orc is_quote (Ascii.eqb ":")) "" line) in
    let lastAtIndex := Js.lastIndexOf cleanLine "@" in
    if (0 <? lastAtIndex)%Z then
      if Js.startsWith cleanLine "@" then
        let secondAtIndex := Js.indexOf cleanLine "@" 1 in
        if (0 <? secondAtIndex)%Z then Some (Js.substring0 cleanLine secondAtIndex)
        else Some (Js.substring0 cleanLine lastAtIndex)
      else Some (Js.substring0 cleanLine lastAtIndex)
    else currentPackage
  else currentPackage.

(** The body of the loop of [parseYarnLock]: the map and [currentPackage]. *)
Definition yarn_line (st : JSMap jsval * option string) (line : string)
  : JSMap jsval * option string :=
  let (deps, currentPackage) := st in
  let currentPackage := yarn_header currentPackage line in
  match currentPackage with
  | Some pkg =>
      if Js.truthy pkg && Js.startsWith (Js.trim line) "version" then
        match exec re_version line with
        | Some versionMatch =>
            match group versionMatch 1 with
            | Some version =>
                (if negb (map_has deps pkg) then map_set deps pkg (JStr version)
                 else deps, None)
            | None => (deps, None)
            end
        | None => (deps, currentPackage)
        end
      else (deps, currentPackage)
  | None => (deps, currentPackage)
  end.

Definition parseYarnLock (content : string) : res (list ParsedDependencies) :=
  try_catch
    (let deps := fst (fold_left yarn_line (Js.lines content) ([], None)) in
     if (map_size deps =? 0)%nat then Ok []
     else Ok [mkParsed deps production])
    [].

(** The body of the loops over [importer.dependencies] and
    [importer.devDependencies]. *)
Definition pnpm_importer_entry (deps : JSMap jsval) (entry : string * jsval)
  : res (JSMap jsval) :=
  let (name, info) := entry in
  version <- (match info with
              | JStr _ => Ok info
              | _ => Val.get info "version"
              end) ;;
  if Val.truthy version then
    v <- Val.as_string version ;;
    if negb (Js.startsWith v "link:")
    then Ok (map_set deps name (JStr (replace re_peer_suffix "" v)))
    else Ok deps
  else Ok deps.

Definition pnpm_importer (st : two_maps) (importer : jsval) : res two_maps :=
  let (prodDeps, devDeps) := st in
  d <- Val.get importer "dependencies" ;;
  prodDeps <- (if Val.truthy d then
                 es <- Val.entries d ;; foldM pnpm_importer_entry es prodDeps
               else Ok prodDeps) ;;
  d <- Val.get importer "devDependencies" ;;
  devDeps <- (if Val.truthy d then
                es <- Val.entries d ;; foldM pnpm_importer_entry es devDeps
              else Ok devDeps) ;;
  Ok (prodDeps, devDeps).

(** The body of the loop over [lock.packages] (older format). *)
Definition pnpm_package (st : two_maps) (entry : string * jsval) : res two_maps :=
  let (path, info) := entry in
  match exec re_pnpm_path path with
  | Some m =>
      match group m 1, group m 2 with
      | Some g1, Some version =>
          if Js.truthy g1 && Js.truthy version then
            let name := if Js.startsWith g1 "/" then Js.slice 1 g1 else g1 in
            if Js.startsWith version "link:" then Ok st
            else dev <- Val.get info "dev" ;;
                 Ok (set_by_dev st dev name (JStr version))
          else Ok st
      | _, _ => Ok st
      end
  | None => Ok st
  end.

Definition parsePnpmLock (content : string) : res (list ParsedDependencies) :=
  try_catch
    (lock <- yaml_load content ;;
     importers <- Val.get lock "importers" ;;
     st <- (if Val.truthy importers then
              vs <- Val.values importers ;; foldM pnpm_importer vs ([], [])
            else Ok ([], [])) ;;
     st <- (if (map_size (fst st) =? 0)%nat && (map_size (snd st) =? 0)%nat then
              packages <- Val.get lock "packages" ;;
              if Val.truthy packages then
                es <- Val.entries packages ;; foldM pnpm_package es st
              else Ok st
            else Ok st) ;;
     Ok (results_of st))
    [].
End Parsers.

End Node.

(** A loop with [break]: the body says whether the loop goes on. *)
Inductive step (S : Type) :=
| Next (s : S)
| Break (s : S).

Arguments Next {S} s.
Arguments Break {S} s.

Fixpoint foldM_break {A S : Type} (f : S -> A -> res (step S)) (l : list A) (s : S)
  : res S :=
  match l with
  | [] => Ok s
  | a :: l' =>
      r <- f s a ;;
      match r with
      | Next s' => foldM_break f l' s'
      | Break s' => Ok s'
      end
  end.

(** [typeof value === 'string' ? value : value.version || '*'] *)
Definition version_of (value : jsval) : res jsval :=
  match value with
  | JStr _ => Ok value
  | _ => v <- Val.get value "version" ;; Ok (Val.or_else v (JStr "*"))
  end.

(** ** Python parsers ([src/parsers/python.ts]) *)

Module Python.
Import Regex.

Definition MAX_NESTING_DEPTH : Z := 20.
Definition MAX_DEPENDENCIES : nat := 5000.

(** The loop of [checkNestingDepth] over what is left of [content]. *)
Fixpoint checkNestingDepth_from (maxDepth depth : Z) (content : string) : bool :=
  match content with
  | EmptyString => true
  | String char content' =>
      if Ascii.eqb char "{" || Ascii.eqb char "[" then
        let depth := (depth + 1)%Z in
        if (maxDepth <? depth)%Z then false
        else checkNestingDepth_from maxDepth depth content'
      else if Ascii.eqb char "}" || Ascii.eqb char "]" then
        checkNestingDepth_from maxDepth (depth - 1)%Z content'
      else checkNestingDepth_from maxDepth depth content'
  end.

Definition checkNestingDepth (content : string) (maxDepth : Z) : bool :=
  checkNestingDepth_from maxDepth 0 content.

Definition name_char : ascii -> bool := orc word (one_of "-").
Definition spec_char : ascii -> bool := one_of "=<>!~".

(** [/^([a-zA-Z0-9_-]+(?:\[[^\]]+\])?)\s*([=<>!~]+)\s*([^\s;#]+)/] *)
Definition re_requirement : re :=
  Seqs [Bol;
        Grp 1 (Seq (Plus (Chr name_char))
                   (Opt (Seqs [Lit "["; Plus (Chr (notc (one_of "]"))); Lit "]"])));
        Star (Chr space); Grp 2 (Plus (Chr spec_char)); Star (Chr space);
        Grp 3 (Plus (Chr (notc (orc space (one_of ";#")))))].

(** [/\[.*\]/] *)
Definition re_extras : re := Seqs [Lit "["; Star (Chr dot); Lit "]"].

(** [/^([a-zA-Z0-9_-]+)/] *)
Definition re_name : re := Seq Bol (Grp 1 (Plus (Chr name_char))).

(** [/^([a-zA-Z0-9_-]+)(?:\[.*\])?\s*([=<>!~]+)?\s*(.+)?$/] *)
Definition re_pep621 : re :=
  Seqs [Bol; Grp 1 (Plus (Chr name_char)); Opt re_extras;
        Star (Chr space); Opt (Grp 2 (Plus (Chr spec_char))); Star (Chr space);
        Opt (Grp 3 (Plus (Chr dot))); Eol].

(** The body of the loop of [parseRequirementsTxt]. *)
Definition requirement_line (deps : JSMap jsval) (line : string) : JSMap jsval :=
  let trimmed := Js.trim line in
  if negb (Js.truthy trimmed) || Js.startsWith trimmed "#" || Js.startsWith trimmed "-"
  then deps
  else if Js.includes trimmed "://" || Js.startsWith trimmed "."
          || Js.startsWith trimmed "/"
  then deps
  else
    match exec re_requirement trimmed with
    | Some m =>
        match group m 1, group m 3 with
        | Some g1, Some version =>
            let name := Js.toLowerCase (replace re_extras "" g1) in
            map_set deps name (JStr version)
        | _, _ => deps
        end
    | None =>
        match exec re_name trimmed with
        | Some nameMatch =>
            match group nameMatch 1 with
            | Some g1 => map_set deps (Js.toLowerCase g1) (JStr "*")
            | None => deps
            end
        | None => deps
        end
    end.

Definition parseRequirementsTxt (content : string) : res (list ParsedDependencies) :=
  try_catch
    (let deps := fold_left requirement_line (Js.lines content) [] in
     if (map_size deps =? 0)%nat then Ok []
     else Ok [mkParsed deps production])
    [].

Section Parsers.
Variable toml_parse : string -> res jsval.

Definition safeTomlParse (content : string) : res jsval :=
  if negb (checkNestingDepth content MAX_NESTING_DEPTH) then Ok JNull
  else toml_parse content.

(** The body of the two loops over PEP 621 requirement strings: the
    map and [totalDeps]. *)
Definition pep621_dep (st : JSMap jsval * nat) (dep : jsval)
  : res (step (JSMap jsval * nat)) :=
  let (deps, totalDeps) := st in
  if (MAX_DEPENDENCIES <=? totalDeps)%nat then Ok (Break st)
  else
    d <- Val.as_string dep ;;
    match exec re_pep621 d with
    | Some m =>
        match group m 1 with
        | Some g1 =>
            let name := Js.toLowerCase g1 in
            let version :=
              match group m 3 with
              | Some v => if Js.truthy v then v else "*"
              | None => "*"
              end in
            Ok (Next (map_set deps name (JStr version), S totalDeps))
        | None => Ok (Next st)
        end
    | None => Ok (Next st)
    end.

(** The body of the loop over the groups of [optional-dependencies]. *)
Definition pep621_group (st : JSMap jsval * nat) (group : jsval)
  : res (JSMap jsval * nat) :=
  deps <- Val.iterate group ;; foldM_break pep621_dep deps st.

(** The body of the loops over Poetry and Pipfile tables;
    [skip_python] is set for [tool.poetry.dependencies]. *)
Definition table_entry (skip_python : bool) (deps : JSMap jsval)
           (entry : string * jsval) : res (JSMap jsval) :=
  let (name, value) := entry in
  if skip_python && String.eqb (Js.toLowerCase name) "python" then Ok deps
  else version <- version_of value ;; Ok (map_set deps (Js.toLowerCase name) version).

(** [if (table) { fill a map from it; push it when it is not empty }] *)
Definition table_group (skip_python : bool) (table : jsval) (t : DependencyType)
           (results : list ParsedDependencies) : res (list ParsedDependencies) :=
  if Val.truthy table then
    es <- Val.entries table ;;
    deps <- foldM (table_entry skip_python) es [] ;;
    Ok (push_group results deps t)
  else Ok results.

(** The body of the loop over [poetry.group]. *)
Definition poetry_group (results : list ParsedDependencies)
           (entry : string * jsval) : res (list ParsedDependencies) :=
  let (groupName, group) := entry in
  table <- Val.get group "dependencies" ;;
  let isDevGroup :=
    existsb (String.eqb groupName) ["dev"; "test"; "lint"; "typing"] in
  table_group false table (if isDevGroup then development else production) results.

Definition parsePyprojectToml (content : string) : res (list ParsedDependencies) :=
  try_catch
    (pyproject <- safeTomlParse content ;;
     if negb (Val.truthy pyproject) then Ok []
     else
       let results : list ParsedDependencies := [] in
       let totalDeps := 0 in
       project <- Val.get pyproject "project" ;;
       let dependencies := Val.get_opt project "dependencies" in
       '(results, totalDeps) <-
          (if Val.truthy dependencies then
             deps <- Val.iterate dependencies ;;
             '(deps, totalDeps) <- foldM_break pep621_dep deps ([], totalDeps) ;;
             Ok (push_group results deps production, totalDeps)
           else Ok (results, totalDeps)) ;;
       let optional_dependencies := Val.get_opt project "optional-dependencies" in
       results <-
          (if Val.truthy optional_dependencies then
             groups <- Val.values optional_dependencies ;;
             '(devDeps, _) <- foldM pep621_group groups ([], totalDeps) ;;
             Ok (push_group results devDeps development)
           else Ok results) ;;
       tool <- Val.get pyproject "tool" ;;
       let poetry := Val.get_opt tool "poetry" in
       if Val.truthy poetry then
         table <- Val.get poetry "dependencies" ;;
         results <- table_group true table production results ;;
         table <- Val.get poetry "dev-dependencies" ;;
         results <- table_group false table development results ;;
         groups <- Val.get poetry "group" ;;
         if Val.truthy groups then
           es <- Val.entries groups ;; foldM poetry_group es results
         else Ok results
       else Ok results)
    [].

Definition parsePipfile (content : string) : res (list ParsedDependencies) :=
  try_catch
    (pipfile <- safeTomlParse content ;;
     if negb (Val.truthy pipfile) then Ok []
     else
       table <- Val.get pipfile "packages" ;;
       results <- table_group false table production [] ;;
       table <- Val.get pipfile "dev-packages" ;;
       table_group false table development results)
    [].

(** The body of the loop over [lock.package]: [prodDeps] and [devDeps]. *)
Definition poetry_lock_package (st : JSMap jsval * JSMap jsval) (pkg : jsval)
  : res (JSMap jsval * JSMap jsval) :=
  let (prodDeps, devDeps) := st in
  category <- Val.get pkg "category" ;;
  n <- Val.get pkg "name" ;;
  n <- Val.as_string n ;;
  version <- Val.get pkg "version" ;;
  match category with
  | JStr "dev" => Ok (prodDeps, map_set devDeps (Js.toLowerCase n) version)
  | _ => Ok (map_set prodDeps (Js.toLowerCase n) version, devDeps)
  end.

Definition parsePoetryLock (content : string) : res (list ParsedDependencies) :=
  try_catch
    (lock <- safeTomlParse content ;;
     if negb (Val.truthy lock) then Ok []
     else
       packages <- Val.get lock "package" ;;
       '(prodDeps, devDeps) <-
          (if Val.truthy packages then
             pkgs <- Val.iterate packages ;;
             foldM poetry_lock_package pkgs ([], [])
           else Ok ([], [])) ;;
       Ok (push_group (push_group [] prodDeps production) devDeps development))
    [].
End Parsers.

End Python.

(** ** Go parsers ([src/parsers/go.ts]) *)

Module Go.
Import Regex.

(** [(\S+)\s+(V)], the module and its version, where [V] is
    [v[\d.]+[\w.-]*] *)
Definition module_version : re :=
  Seqs [Grp 1 (Plus (Chr (notc space))); Plus (Chr space);
        Grp 2 (Seqs [Lit "v"; Plus (Chr (orc digit (one_of ".")));
                     Star (Chr (orc word (one_of ".-")))])].

(** [/^(\S+)\s+(V)/] *)
Definition re_block_line : re := Seq Bol module_version.

(** [/^require\s+(\S+)\s+(V)/] *)
Definition re_require : re :=
  Seqs [Bol; Lit "require"; Plus (Chr space); module_version].

(** [/^(\S+)\s+(V)(?:\/go\.mod)?\s+/] *)
Definition re_sum_line : re :=
  Seqs [Bol; module_version; Opt (Lit "/go.mod"); Plus (Chr space)].

(** The body of the loop of [parseGoMod]: the map and [inRequireBlock]. *)
Definition go_mod_line (st : JSMap jsval * bool) (line : string)
  : JSMap jsval * bool :=
  let (deps, inRequireBlock) := st in
  let trimmed := Js.trim line in
  if negb (Js.truthy trimmed) || Js.startsWith trimmed "//" then st
  else if String.eqb trimmed "require (" then (deps, true)
  else if String.eqb trimmed ")" then (deps, false)
  else
    let requireMatch :=
      if inRequireBlock then exec re_block_line trimmed
      else exec re_require trimmed in
    match requireMatch with
    | Some m =>
        match group m 1, group m 2 with
        | Some mod_, Some version =>
            if negb (Js.includes line "// indirect")
            then (map_set deps mod_ (JStr version), inRequireBlock)
            else st
        | _, _ => st
        end
    | None => st
    end.

Definition parseGoMod (content : string) : res (list ParsedDependencies) :=
  try_catch
    (let deps := fst (fold_left go_mod_line (Js.lines content) ([], false)) in
     if (map_size deps =? 0)%nat then Ok []
     else Ok [mkParsed deps production])
    [].

(** The body of the loop of [parseGoSum]. *)
Definition go_sum_line (deps : JSMap jsval) (line : string) : JSMap jsval :=
  let trimmed := Js.trim line in
  if negb (Js.truthy trimmed) then deps
  else
    match exec re_sum_line trimmed with
    | Some m =>
        match group m 1, group m 2 with
        | Some mod_, Some version =>
            if negb (map_has deps mod_) then map_set deps mod_ (JStr version)
            else deps
        | _, _ => deps
        end
    | None => deps
    end.

Definition parseGoSum (content : string) : res (list ParsedDependencies) :=
  try_catch
    (let deps := fold_left go_sum_line (Js.lines content) [] in
     if (map_size deps =? 0)%nat then Ok []
     else Ok [mkParsed deps production])
    [].

End Go.

(** ** Ruby parsers ([src/parsers/ruby.ts]) *)

Module Ruby.
Import Regex.

(** [/^group\s+:(?:development|test)/] *)
Definition re_group : re :=
  Seqs [Bol; Lit "group"; Plus (Chr space); Lit ":";
        Alt (Lit "development") (Lit "test")].

(** [/^gem\s+[q]([^q]+)[q]\s*(?:,\s*[q]([^q]+)[q])?/], [q] either quote *)
Definition re_gem : re :=
  Seqs [Bol; Lit "gem"; Plus (Chr space);
        Chr is_quote; Grp 1 (Plus (Chr (notc is_quote))); Chr is_quote;
        Star (Chr space);
        Opt (Seqs [Lit ","; Star (Chr space);
                   Chr is_quote; Grp 2 (Plus (Chr (notc is_quote))); Chr is_quote])].

(** [/^[A-Z]/] *)
Definition re_section : re := Seq Bol (Chr upper).

(** [/^\s{4}([a-zA-Z0-9_-]+)\s+\(([^)]+)\)/] *)
Definition re_spec : re :=
  Seqs [Bol; Rep 4 (Some 4) (Chr space);
        Grp 1 (Plus (Chr (orc word (one_of "-")))); Plus (Chr space);
        Lit "("; Grp 2 (Plus (Chr (notc (one_of ")")))); Lit ")"].

(** The state of the loop of [parseGemfile]. *)
Record gemfile_state := mkGemfile {
  deps : JSMap jsval;
  devDeps : JSMap jsval;
  inDevGroup : bool
}.

Definition gemfile_line (st : gemfile_state) (line : string) : gemfile_state :=
  let trimmed := Js.trim line in
  if negb (Js.truthy trimmed) || Js.startsWith trimmed "#" then st
  else if is_match re_group trimmed then mkGemfile (deps st) (devDeps st) true
  else if String.eqb trimmed "end" then mkGemfile (deps st) (devDeps st) false
  else
    match exec re_gem trimmed with
    | Some gemMatch =>
        match group gemMatch 1 with
        | Some name =>
            let version :=
              match group gemMatch 2 with
              | Some v => if Js.truthy v then v else "*"
              | None => "*"
              end in
            if inDevGroup st
            then mkGemfile (deps st) (map_set (devDeps st) name (JStr version)) (inDevGroup st)
            else mkGemfile (map_set (deps st) name (JStr version)) (devDeps st) (inDevGroup st)
        | None => st
        end
    | None => st
    end.

Definition parseGemfile (content : string) : res (list ParsedDependencies) :=
  try_catch
    (let st := fold_left gemfile_line (Js.lines content) (mkGemfile [] [] false) in
     Ok (push_group (push_group [] (deps st) production) (devDeps st) development))
    [].

(** The body of the loop of [parseGemfileLock]: the map and [inSpecs]. *)
Definition gemfile_lock_line (st : JSMap jsval * bool) (line : string)
  : JSMap jsval * bool :=
  let (deps, inSpecs) := st in
  if String.eqb (Js.trim line) "specs:" then (deps, true)
  else if inSpecs && is_match re_section line then (deps, false)
  else if inSpecs then
    match exec re_spec line with
    | Some m =>
        match group m 1, group m 2 with
        | Some name, Some version => (map_set deps name (JStr version), inSpecs)
        | _, _ => st
        end
    | None => st
    end
  else st.

Definition parseGemfileLock (content : string) : res (list ParsedDependencies) :=
  try_catch
    (let deps := fst (fold_left gemfile_lock_line (Js.lines content) ([], false)) in
     if (map_size deps =? 0)%nat then Ok []
     else Ok [mkParsed deps production])
    [].

End Ruby.

(** ** XML documents ([xml2js])

    [parseString(content, options, callback)], called with
    [async: false], runs the callback before it returns, if it runs it
    at all. *)

Inductive xml_call :=
| Callback (err : option exn) (result : jsval)
| NoCallback.

(** [let parsed = null; parseString(..., (err, result) => { if (!err) parsed = result })] *)
Definition parsed_of (call : xml_call) : jsval :=
  match call with
  | Callback None result => result
  | _ => JNull
  end.

(** A value used as the key of a [Map<string, string>].  Where the
    value is not a string, as the declared type requires, the key is
    represented by its string form. *)
Definition as_key (v : jsval) : string := Val.to_string v.

(** ** Java parsers ([src/parsers/java.ts]) *)

Module Java.
Import Regex.

Definition coord_char : ascii -> bool := orc word (one_of ".-").

(** [[q]([\w.-]+):([\w.-]+):([\w.-]+)[q]], [q] either quote *)
Definition coordinates : re :=
  Seqs [Chr is_quote; Grp 1 (Plus (Chr coord_char)); Lit ":";
        Grp 2 (Plus (Chr coord_char)); Lit ":";
        Grp 3 (Plus (Chr coord_char)); Chr is_quote].

(** [(?:implementation|api|compile|runtimeOnly|compileOnly)] *)
Definition prod_keyword : re :=
  Alts [Lit "implementation"; Lit "api"; Lit "compile"; Lit "runtimeOnly";
        Lit "compileOnly"].

(** [(?:testImplementation|testCompile|testRuntimeOnly|androidTestImplementation)] *)
Definition test_keyword : re :=
  Alts [Lit "testImplementation"; Lit "testCompile"; Lit "testRuntimeOnly";
        Lit "androidTestImplementation"].

(** [/keyword\s*(?:\()?coordinates/g] *)
Definition prodPattern : re :=
  Seqs [prod_keyword; Star (Chr space); Opt (Lit "("); coordinates].
Definition testPattern : re :=
  Seqs [test_keyword; Star (Chr space); Opt (Lit "("); coordinates].

(** [/keyword\s*\(\s*coordinates\s*\)/g] *)
Definition kotlinPattern : re :=
  Seqs [prod_keyword; Star (Chr space); Lit "("; Star (Chr space); coordinates;
        Star (Chr space); Lit ")"].
Definition kotlinTestPattern : re :=
  Seqs [test_keyword; Star (Chr space); Lit "("; Star (Chr space); coordinates;
        Star (Chr space); Lit ")"].

(** The body of the four loops [while ((match = pattern.exec(content)) !== null)]. *)
Definition gradle_match (deps : JSMap jsval) (m : result) : JSMap jsval :=
  match group m 1, group m 2, group m 3 with
  | Some g, Some a, Some version => map_set deps (g ++ ":" ++ a) (JStr version)
  | _, _, _ => deps
  end.

Definition parseBuildGradle (content : string) : res (list ParsedDependencies) :=
  try_catch
    (let prodDeps := fold_left gradle_match (exec_all prodPattern content) [] in
     let testDeps := fold_left gradle_match (exec_all testPattern content) [] in
     let prodDeps := fold_left gradle_match (exec_all kotlinPattern content) prodDeps in
     let testDeps := fold_left gradle_match (exec_all kotlinTestPattern content) testDeps in
     Ok (push_group (push_group [] prodDeps production) testDeps test))
    [].

Section Parsers.
Variable parseString : string -> res xml_call.

(** [dep.field?.[0]] *)
Definition field0 (dep : jsval) (field : string) : res jsval :=
  v <- Val.get dep field ;; Ok (Val.first_opt v).

(** The body of the loop over the direct dependencies: [prodDeps]
    and [testDeps]. *)
Definition pom_dependency (st : JSMap jsval * JSMap jsval) (dep : jsval)
  : res (JSMap jsval * JSMap jsval) :=
  let (prodDeps, testDeps) := st in
  groupId <- field0 dep "groupId" ;;
  artifactId <- field0 dep "artifactId" ;;
  version <- field0 dep "version" ;;
  scope <- field0 dep "scope" ;;
  if Val.truthy groupId && Val.truthy artifactId && Val.truthy version then
    v <- Val.as_string version ;;
    if Js.startsWith v "${" then Ok st
    else
      let name := Val.to_string groupId ++ ":" ++ Val.to_string artifactId in
      match scope with
      | JStr "test" => Ok (prodDeps, map_set testDeps name version)
      | _ => Ok (map_set prodDeps name version, testDeps)
      end
  else Ok st.

(** The body of the loop over the managed dependencies. *)
Definition pom_managed (st : JSMap jsval * JSMap jsval) (dep : jsval)
  : res (JSMap jsval * JSMap jsval) :=
  let (prodDeps, testDeps) := st in
  groupId <- field0 dep "groupId" ;;
  artifactId <- field0 dep "artifactId" ;;
  version <- field0 dep "version" ;;
  if Val.truthy groupId && Val.truthy artifactId && Val.truthy version then
    v <- Val.as_string version ;;
    if Js.startsWith v "${" then Ok st
    else
      let name := Val.to_string groupId ++ ":" ++ Val.to_string artifactId in
      if negb (map_has prodDeps name) && negb (map_has testDeps name)
      then Ok (map_set prodDeps name version, testDeps)
      else Ok st
  else Ok st.

Definition parsePomXml (content : string) : res (list ParsedDependencies) :=
  try_catch
    (call <- parseString content ;;
     let parsed := parsed_of call in
     if negb (Val.truthy parsed) then Ok []
     else
       project <- Val.get parsed "project" ;;
       if negb (Val.truthy project) then Ok []
       else
         d <- Val.get project "dependencies" ;;
         let dependencies :=
           Val.or_else (Val.get_opt (Val.first_opt d) "dependency") (JArr []) in
         deps <- Val.iterate dependencies ;;
         st <- foldM pom_dependency deps ([], []) ;;
         m <- Val.get project "dependencyManagement" ;;
         let managedDeps :=
           Val.or_else
             (Val.get_opt
                (Val.first_opt (Val.get_opt (Val.first_opt m) "dependencies"))
                "dependency")
             (JArr []) in
         deps <- Val.iterate managedDeps ;;
         '(prodDeps, testDeps) <- foldM pom_managed deps st ;;
         Ok (push_group (push_group [] prodDeps production) testDeps test))
    [].
End Parsers.

End Java.

(** ** Rust parsers ([src/parsers/rust.ts]) *)

Module Rust.

Definition MAX_NESTING_DEPTH : Z := 20.

Definition repeat3 (c : ascii) : string :=
  String c (String c (String c EmptyString)).

(** The loop of [checkNestingDepth] over [content.slice(i)]; where the
    code advances [i] by more than one, [skip] counts the characters
    still to be passed over. *)
Fixpoint checkNestingDepth_from (maxDepth depth : Z) (inString : bool)
         (stringDelimiter : string) (escape : bool) (skip : nat)
         (content : string) : bool :=
  match content with
  | EmptyString => true
  | String char content' =>
      match skip with
      | S k =>
          checkNestingDepth_from maxDepth depth inString stringDelimiter escape k content'
      | O =>
          if escape then
            checkNestingDepth_from maxDepth depth inString stringDelimiter false 0 content'
          else if Ascii.eqb char "\" && inString then
            checkNestingDepth_from maxDepth depth inString stringDelimiter true 0 content'
          else if negb inString && is_quote char then
            if String.prefix (repeat3 char) content then
              checkNestingDepth_from maxDepth depth true (repeat3 char) escape 2 content'
            else
              checkNestingDepth_from maxDepth depth true (String char EmptyString)
                                     escape 0 content'
          else if inString then
            if String.prefix stringDelimiter content then
              checkNestingDepth_from maxDepth depth false EmptyString escape
                                     (String.length stringDelimiter - 1) content'
            else
              checkNestingDepth_from maxDepth depth inString stringDelimiter escape 0 content'
          else if Ascii.eqb char "{" || Ascii.eqb char "[" then
            let depth := (depth + 1)%Z in
            if (maxDepth <? depth)%Z then false
            else checkNestingDepth_from maxDepth depth inString stringDelimiter escape 0 content'
          else if Ascii.eqb char "}" || Ascii.eqb char "]" then
            let depth := (depth - 1)%Z in
            if (depth <? 0)%Z then false
            else checkNestingDepth_from maxDepth depth inString stringDelimiter escape 0 content'
          else
            checkNestingDepth_from maxDepth depth inString stringDelimiter escape 0 content'
      end
  end.

Definition checkNestingDepth (content : string) (maxDepth : Z) : bool :=
  checkNestingDepth_from maxDepth 0 false EmptyString false 0 content.

Section Parsers.
Variable toml_parse : string -> res jsval.

Definition safeTomlParse (content : string) : res jsval :=
  if negb (checkNestingDepth content MAX_NESTING_DEPTH) then Ok JNull
  else toml_parse content.

(** The body of the loops over the three dependency tables. *)
Definition cargo_entry (deps : JSMap jsval) (entry : string * jsval)
  : res (JSMap jsval) :=
  let (name, value) := entry in
  version <- version_of value ;; Ok (map_set deps name version).

Definition cargo_section (cargo : jsval) (results : list ParsedDependencies)
           (field : string) (t : DependencyType) : res (list ParsedDependencies) :=
  table <- Val.get cargo field ;;
  if Val.truthy table then
    es <- Val.entries table ;;
    deps <- foldM cargo_entry es [] ;;
    Ok (push_group results deps t)
  else Ok results.

Definition parseCargoToml (content : string) : res (list ParsedDependencies) :=
  try_catch
    (cargo <- safeTomlParse content ;;
     if negb (Val.truthy cargo) then Ok []
     else
       results <- cargo_section cargo [] "dependencies" production ;;
       results <- cargo_section cargo results "dev-dependencies" development ;;
       cargo_section cargo results "build-dependencies" build)
    [].

(** The body of the loop over [lock.package]. *)
Definition cargo_lock_package (deps : JSMap jsval) (pkg : jsval)
  : res (JSMap jsval) :=
  n <- Val.get pkg "name" ;;
  version <- Val.get pkg "version" ;;
  Ok (map_set deps (as_key n) version).

Definition parseCargoLock (content : string) : res (list ParsedDependencies) :=
  try_catch
    (lock <- safeTomlParse content ;;
     if negb (Val.truthy lock) then Ok []
     else
       packages <- Val.get lock "package" ;;
       deps <- (if Val.truthy packages then
                  pkgs <- Val.iterate packages ;; foldM cargo_lock_package pkgs []
                else Ok []) ;;
       if (map_size deps =? 0)%nat then Ok []
       else Ok [mkParsed deps production])
    [].
End Parsers.

End Rust.

(** ** .NET parsers ([src/parsers/dotnet.ts]) *)

Module Dotnet.

Section Parsers.
Variable parseString : string -> res xml_call.

(** The body of the loops over [PackageReference] and [package]
    elements; [id] and [version] name the two attributes. *)
Definition attribute_pair (id version : string) (deps : JSMap jsval) (pkg : jsval)
  : res (JSMap jsval) :=
  attrs <- Val.get pkg "$" ;;
  let i := Val.get_opt attrs id in
  let v := Val.get_opt attrs version in
  if Val.truthy i && Val.truthy v then Ok (map_set deps (as_key i) v)
  else Ok deps.

(** The body of the loop over [project.ItemGroup]. *)
Definition item_group (deps : JSMap jsval) (itemGroup : jsval) : res (JSMap jsval) :=
  refs <- Val.get itemGroup "PackageReference" ;;
  if Val.truthy refs then
    pkgRefs <- Val.iterate refs ;;
    foldM (attribute_pair "Include" "Version") pkgRefs deps
  else Ok deps.

Definition parseCsproj (content : string) : res (list ParsedDependencies) :=
  try_catch
    (call <- parseString content ;;
     let parsed := parsed_of call in
     if negb (Val.truthy parsed) then Ok []
     else
       project <- Val.get parsed "Project" ;;
       let itemGroups := Val.get_opt project "ItemGroup" in
       deps <- (if Val.truthy itemGroups then
                  gs <- Val.iterate itemGroups ;; foldM item_group gs []
                else Ok []) ;;
       packagesConfig <- Val.get parsed "packages" ;;
       let packages := Val.get_opt packagesConfig "package" in
       deps <- (if Val.truthy packages then
                  pkgs <- Val.iterate packages ;;
                  foldM (attribute_pair "id" "version") pkgs deps
                else Ok deps) ;;
       if (map_size deps =? 0)%nat then Ok []
       else Ok [mkParsed deps production])
    [].

Definition parsePackagesConfig (content : string) : res (list ParsedDependencies) :=
  parseCsproj content.
End Parsers.

End Dotnet.

(** ** Parser registry ([src/parsers/index.ts]) *)

(** The libraries the parsers load structured text with. *)
Record Loaders := mkLoaders {
  JSON_parse : string -> res jsval;
  yaml_load : string -> res jsval;
  toml_parse : string -> res jsval;
  parseString : string -> res xml_call
}.

Definition Parser : Type := string -> res (list ParsedDependencies).

Record DependencyFilePattern := mkPattern {
  pattern_ecosystem : Ecosystem;
  fileNames : list string;
  extensions : list string;
  parser : Parser
}.

Definition DEPENDENCY_FILE_PATTERNS (L : Loaders) : list DependencyFilePattern :=
  [ mkPattern node ["package.json"] [] (Node.parsePackageJson (JSON_parse L));
    mkPattern node ["package-lock.json"] [] (Node.parsePackageLockJson (JSON_parse L));
    mkPattern node ["yarn.lock"] [] Node.parseYarnLock;
    mkPattern node ["pnpm-lock.yaml"] [] (Node.parsePnpmLock (yaml_load L));
    mkPattern python ["requirements.txt"; "requirements-dev.txt"; "requirements-test.txt"]
              [] Python.parseRequirementsTxt;
    mkPattern python ["pyproject.toml"] [] (Python.parsePyprojectToml (toml_parse L));
    mkPattern python ["Pipfile"] [] (Python.parsePipfile (toml_parse L));
    mkPattern python ["poetry.lock"; "Pipfile.lock"] []
              (Python.parsePoetryLock (toml_parse L));
    mkPattern go ["go.mod"] [] Go.parseGoMod;
    mkPattern go ["go.sum"] [] Go.parseGoSum;
    mkPattern ruby ["Gemfile"] [] Ruby.parseGemfile;
    mkPattern ruby ["Gemfile.lock"] [] Ruby.parseGemfileLock;
    mkPattern java ["pom.xml"] [] (Java.parsePomXml (parseString L));
    mkPattern java ["build.gradle"; "build.gradle.kts"] [".gradle"; ".gradle.kts"]
              Java.parseBuildGradle;
    mkPattern rust ["Cargo.toml"] [] (Rust.parseCargoToml (toml_parse L));
    mkPattern rust ["Cargo.lock"] [] (Rust.parseCargoLock (toml_parse L));
    mkPattern dotnet ["packages.config"] [".csproj"; ".fsproj"; ".vbproj"]
              (Dotnet.parseCsproj (parseString L)) ].

(** Every parser the modules export: the registered ones and
    [parsePackagesConfig]. *)
Definition all_parsers (L : Loaders) : list Parser :=
  map parser (DEPENDENCY_FILE_PATTERNS L)
  ++ [Dotnet.parsePackagesConfig (parseString L)].

(** [fileName.endsWith(ext)] *)
Definition endsWith (s ext : string) : bool :=
  (String.length ext <=? String.length s)%nat
  && String.eqb (Js.slice (String.length s - String.length ext) s) ext.

(** [getParserForFile(filePath)]: the first pattern that has the file
    name, or an extension the file name ends with. *)
Definition getParserForFile (L : Loaders) (filePath : string)
  : option DependencyFilePattern :=
  let fileName :=
    match Js.pop (Js.split filePath "/") with
    | Some n => n
    | None => EmptyString
    end in
  find (fun p => existsb (String.eqb fileName) (fileNames p)
                 || existsb (endsWith fileName) (extensions p))
       (DEPENDENCY_FILE_PATTERNS L).

(** ** Shapes the properties speak of *)

(** The shape of a change record: which of its two versions is [null]
    goes with its change type. *)
Definition well_formed_change (c : DependencyChange) : Prop :=
  match changeType c with
  | added => oldVersion c = None /\ newVersion c <> None
  | removed => oldVersion c <> None /\ newVersion c = None
  | _ => oldVersion c <> None /\ newVersion c <> None
  end.

(** Two changes are about the same package: same ecosystem, same name. *)
Definition Ecosystem_eqb (a b : Ecosystem) : bool :=
  match a, b with
  | node, node | python, python | go, go | ruby, ruby
  | java, java | rust, rust | dotnet, dotnet => true
  | _, _ => false
  end.

Definition same_package (a b : DependencyChange) : bool :=
  Ecosystem_eqb (ecosystem a) (ecosystem b) && String.eqb (name a) (name b).

(** The change that reconciliation is to keep for a key: the first one
    that does not come from a lock file and, where all come from lock
    files, the first one. *)
Definition survivor (changes : list DependencyChange) (key : string)
  : option DependencyChange :=
  match find (fun c => String.eqb (change_key c) key && negb (isLockFile c)) changes with
  | Some c => Some c
  | None => find (fun c => String.eqb (change_key c) key) changes
  end.

(** The invariant of the map [seen]: every change sits under its own key. *)
Definition keyed (seen : JSMap DependencyChange) : Prop :=
  wf_map seen /\ forall k c, In (k, c) seen -> change_key c = k.

(** What one round of the loop leaves under the key of [change], given
    what was there. *)
Definition prefer (existing : option DependencyChange) (change : DependencyChange)
  : option DependencyChange :=
  match existing with
  | None => Some change
  | Some e => if isLockFile e && negb (isLockFile change) then Some change else Some e
  end.

(** The scanner of [Node.checkJsonDepth] without its two exits: the
    depth counter and the two flags after one more character. *)
Definition json_scan (st : Z * bool * bool) (char : ascii) : Z * bool * bool :=
  let '(depth, inString, escape) := st in
  if escape then (depth, inString, false)
  else if Ascii.eqb char "\" && inString then (depth, inString, true)
  else if Ascii.eqb char dquote then (depth, negb inString, escape)
  else if inString then st
  else if Ascii.eqb char "{" || Ascii.eqb char "[" then ((depth + 1)%Z, inString, escape)
  else if Ascii.eqb char "}" || Ascii.eqb char "]" then ((depth - 1)%Z, inString, escape)
  else st.

(** The values the depth counter takes, character after character. *)
Fixpoint json_depths (st : Z * bool * bool) (content : string) : list Z :=
  match content with
  | EmptyString => []
  | String char content' =>
      let st' := json_scan st char in
      fst (fst st') :: json_depths st' content'
  end.

Definition depth_ok (maxDepth d : Z) : bool := (0 <=? d)%Z && (d <=? maxDepth)%Z.

(** A string literal of JSON or TOML around [s]. *)
Definition quoted (s : string) : string :=
  String dquote (s ++ String dquote EmptyString).

Definition plain_char (c : ascii) : bool :=
  negb (Ascii.eqb c dquote) && negb (Ascii.eqb c "\").

Fixpoint all_chars (p : ascii -> bool) (s : string) : bool :=
  match s with
  | EmptyString => true
  | String c s' => p c && all_chars p s'
  end.

(** The parsers that read their file line by line or pattern by
    pattern, without a structured-text loader. *)
Definition text_parsers : list Parser :=
  [Node.parseYarnLock; Python.parseRequirementsTxt; Go.parseGoMod; Go.parseGoSum;
   Ruby.parseGemfile; Ruby.parseGemfileLock; Java.parseBuildGradle].

(** [nested n]: [n + 1] arrays, one in the other. *)
Fixpoint nested (n : nat) : jsval :=
  match n with
  | O => JArr []
  | S n' => JArr [nested n']
  end.

(** A [package-lock.json] nested twenty-one levels deep: the entry of
    one package, with eighteen arrays in one another beside its
    version. *)
Definition deep_lock_text : string :=
  "{" ++ quoted "packages" ++ ":{" ++ quoted "node_modules/a" ++ ":{"
  ++ quoted "version" ++ ":" ++ quoted "1.0.0" ++ "," ++ quoted "x"
  ++ ":[[[[[[[[[[[[[[[[[[]]]]]]]]]]]]]]]]]]}}}".

(** The same file as [JSON.parse] reads it. *)
Definition deep_lock : jsval :=
  JObj [("packages",
         JObj [("node_modules/a",
                JObj [("version", JStr "1.0.0"); ("x", nested 17)])])].

(** A [pyproject.toml] of a hundred Poetry groups with fifty-one
    dependencies each, as [toml.parse] reads it:
    [[tool.poetry.group.gI.dependencies]] with [pJ = "^1.0"]. *)
Definition poetry_table (n : nat) : jsval :=
  JObj (map (fun j => (("p" ++ Val.string_of_nat j)%string, JStr "^1.0")) (seq 0 n)).

Definition poetry_groups (groups n : nat) : jsval :=
  JObj [("tool",
         JObj [("poetry",
                JObj [("group",
                       JObj (map (fun i => (("g" ++ Val.string_of_nat i)%string,
                                            JObj [("dependencies", poetry_table n)]))
                                 (seq 0 groups)))])])].

(** A map of a Python parser: no key twice, every key in lower case. *)
Definition lower_map (m : JSMap jsval) : Prop :=
  wf_map m /\ forall k, In k (keys m) -> Js.toLowerCase k = k.

Definition lower_groups (results : list ParsedDependencies) : Prop :=
  forall g, In g results -> lower_map (dependencies g).

(** What [replace(/^[\^~=<>!]+/, '')] comes to: the leading run of range
    operators is removed ([replace_range_prefix] below). *)
Fixpoint strip_range_ops (s : string) : string :=
  match s with
  | EmptyString => EmptyString
  | String c s' => if is_range_op c then strip_range_ops s' else s
  end.

(** The leading characters of [s] that are of the class [p]. *)
Fixpoint span (p : ascii -> bool) (s : string) : nat :=
  match s with
  | String a s' => if p a then S (span p s') else 0
  | EmptyString => 0
  end.

(** [ends_after body m]: whatever a match of [body] leads to, it leads
    to it through its continuation, called where the match ends, at
    least [m] characters further. *)
Definition ends_after (R : Type) (body : Regex.cont R -> Regex.cont R) (m : nat)
  : Prop :=
  forall (k : Regex.cont R) (pos : nat) (s : string) (c : Regex.caps) (x : R),
    body k pos s c = Some x ->
    exists n c', n <= String.length s /\ m <= n
                 /\ k (pos + n) (Js.slice n s) c' = Some x.

(** Two continuations agree wherever a match that starts at [pos] in
    [s] can end. *)
Definition agree (R : Type) (k1 k2 : Regex.cont R) (pos : nat) (s : string) : Prop :=
  forall n c, n <= String.length s ->
              k1 (pos + n) (Js.slice n s) c = k2 (pos + n) (Js.slice n s) c.

(** ** Global replacement ([String.prototype.replace] with the [g] flag)

    The loop of [s.replace(r, by)] for a pattern with the [g] flag that
    matches no empty string: the text before each match is kept, the
    match gives way to [by], and the search goes on after the match.
    [by] holds no [$], so it is taken as it stands. *)

Fixpoint replace_all_from (fuel : nat) (r : Regex.re) (by_ : string) (pos : nat)
         (s : string) : string :=
  match fuel with
  | O => s
  | S fuel' =>
      match Regex.search_from r pos s with
      | None => s
      | Some m =>
          let stop := Regex.index m + String.length (Regex.matched m) in
          String.substring 0 (Regex.index m - pos) s ++ by_
          ++ replace_all_from fuel' r by_ stop (Regex.rest m)
      end
  end.

Definition replace_all (r : Regex.re) (by_ : string) (s : string) : string :=
  replace_all_from (S (String.length s)) r by_ 0 s.

(** ** Pull-request comment ([src/comment.ts]) *)

Module Comment.
Import Regex.

Definition MAX_NAME_LENGTH : nat := 256.
Definition MAX_VERSION_LENGTH : nat := 128.

(** [[\x00-\x08\x0B\x0C\x0E-\x1F\x7F]] *)
Definition is_control (c : ascii) : bool :=
  let n := nat_of_ascii c in
  (n <=? 8)%nat || (n =? 11)%nat || (n =? 12)%nat
  || ((14 <=? n)%nat && (n <=? 31)%nat) || (n =? 127)%nat.

(** [/<[^>]*>/g] *)
Definition re_tag : re :=
  Seqs [Lit "<"; Star (Chr (notc (Ascii.eqb ">"))); Lit ">"].

Definition sanitizeForMarkdown (input : string) (maxLength : nat) : string :=
  if negb (Js.truthy input) then ""
  else
    let sanitized := String.substring 0 maxLength input in
    let sanitized := replace_all_chr is_control "" sanitized in
    let sanitized := replace_all_chr (Ascii.eqb "`") "\`" sanitized in
    let sanitized := replace_all_chr (Ascii.eqb "|") "\|" sanitized in
    let sanitized := replace_all_chr (Ascii.eqb "[") "\[" sanitized in
    let sanitized := replace_all_chr (Ascii.eqb "]") "\]" sanitized in
    let sanitized := replace_all re_tag "" sanitized in
    let sanitized := replace_all_chr (Ascii.eqb "&") "&amp;" sanitized in
    let sanitized := replace_all_chr (Ascii.eqb "<") "&lt;" sanitized in
    let sanitized := replace_all_chr (Ascii.eqb ">") "&gt;" sanitized in
    sanitized.

Definition changeType_id (t : ChangeType) : string :=
  match t with
  | added => "added" | removed => "removed" | major => "major" | minor => "minor"
  | patch => "patch" | prerelease => "prerelease" | other => "other"
  end.

(** [labels[changeType] || 'Changed'] *)
Definition getChangeTypeLabel (changeType : string) : string :=
  let labels : JSMap string :=
    [("major", "Major"); ("minor", "Minor"); ("patch", "Patch");
     ("prerelease", "Prerelease"); ("added", "Added"); ("removed", "Removed");
     ("other", "Changed")] in
  match map_get labels changeType with
  | Some label => if Js.truthy label then label else "Changed"
  | None => "Changed"
  end.

(** [names[ecosystem] || ecosystem] *)
Definition getEcosystemDisplayName (ecosystem : string) : string :=
  let names : JSMap string :=
    [("node", "Node.js / npm"); ("python", "Python"); ("go", "Go"); ("ruby", "Ruby");
     ("java", "Java / Gradle / Maven"); ("rust", "Rust / Cargo");
     ("dotnet", ".NET / NuGet")] in
  match map_get names ecosystem with
  | Some n => if Js.truthy n then n else ecosystem
  | None => ecosystem
  end.

(** The body of the loop of [summarizeChanges]:
    [summary[change.changeType] = (summary[change.changeType] || 0) + 1]. *)
Definition summarize_step (summary : JSMap nat) (change : DependencyChange)
  : JSMap nat :=
  let key := changeType_id (changeType change) in
  let count := match map_get summary key with Some n => n | None => 0 end in
  map_set summary key (count + 1).

Definition summarizeChanges (changes : list DependencyChange) : JSMap nat :=
  fold_left summarize_step changes
            [("major", 0); ("minor", 0); ("patch", 0); ("prerelease", 0);
             ("added", 0); ("removed", 0); ("other", 0)].

End Comment.

(** ** Action entry point ([src/main.ts]) *)

(** What the action does to the world around it, in the order it does
    it: the log of [@actions/core] and the commands run through
    [@actions/exec]. *)
Inductive event :=
| Warning (message : string)
| SetSecret (secret : string)
| Exec (commandLine : string) (args : list string).

(** The body of the loop of [groupByEcosystem], for one change; the
    object [grouped] lists its keys in the order they were added. *)
Definition group_step (grouped : JSMap (list DependencyChange))
           (change : DependencyChange) : JSMap (list DependencyChange) :=
  let key := ecosystem_id (ecosystem change) in
  let grouped :=
    match map_get grouped key with
    | None => map_set grouped key []
    | Some _ => grouped
    end in
  match map_get grouped key with
  | Some group => map_set grouped key (group ++ [change])%list
  | None => grouped
  end.

Definition groupByEcosystem (changes : list DependencyChange)
  : JSMap (list DependencyChange) :=
  fold_left group_step changes [].

Definition NUL : string := String "000" EmptyString.

Definition isValidFilePath (filePath : string) : bool :=
  if Js.includes filePath ".." || Js.startsWith filePath "/" || Js.includes filePath NUL
  then false
  else if Js.startsWith filePath "/etc" || Js.startsWith filePath "/proc"
          || Js.startsWith filePath "/sys"
  then false
  else true.

(** [/^[a-f0-9]{40}$/i] *)
Definition hex_digit : ascii -> bool :=
  Regex.orc (Regex.in_range "a" "f") (Regex.orc (Regex.in_range "A" "F") Regex.digit).

Definition re_sha : Regex.re :=
  Regex.Seqs [Regex.Bol; Regex.Rep 40 (Some 40) (Regex.Chr hex_digit); Regex.Eol].

(** [10 * 1024 * 1024] *)
Definition MAX_FILE_SIZE : Z := 10 * 1024 * 1024.

(** [VALID_ECOSYSTEMS] ([src/types.ts]) *)
Definition VALID_ECOSYSTEMS : list string :=
  ["node"; "python"; "go"; "ruby"; "java"; "rust"; "dotnet"].

Definition validateEcosystem (ecosystem : string) : bool :=
  existsb (String.eqb ecosystem) VALID_ECOSYSTEMS.

(** [Ecosystem[] | 'all'] *)
Inductive Ecosystems :=
| All
| Only (ecosystems : list string).

Definition filterEcosystems (ecosystems : Ecosystems) : list string :=
  match ecosystems with
  | All => VALID_ECOSYSTEMS
  | Only ecosystems => ecosystems
  end.

Record ActionInputs := mkInputs {
  token : string;
  ecosystems : Ecosystems;
  commentOnPr : bool;
  includeDevDependencies : bool
}.

(** The inputs of the action as [@actions/core] and the environment
    give them.  [core.getBooleanInput] throws on a value that is not a
    boolean of YAML. *)
Record ActionEnv := mkEnv {
  getInput : string -> string;
  getBooleanInput : string -> res bool;
  GITHUB_TOKEN : option string
}.

(** [a || b] on strings *)
Definition or_string (a b : string) : string := if Js.truthy a then a else b.

(** The choice of ecosystems in [getInputs], and the warning it
    gives. *)
Definition ecosystems_of (ecosystemsInput : string) : Ecosystems * list event :=
  if String.eqb ecosystemsInput "all" then (All, [])
  else
    let requestedEcosystems :=
      map (fun e => Js.toLowerCase (Js.trim e)) (Js.split ecosystemsInput ",") in
    let validEcosystems := filter validateEcosystem requestedEcosystems in
    if (List.length validEcosystems =? 0)%nat then
      (All, [Warning ("No valid ecosystems specified. Valid options: "
                      ++ String.concat ", " VALID_ECOSYSTEMS
                      ++ ". Using 'all' instead.")])
    else if (List.length validEcosystems <? List.length requestedEcosystems)%nat then
      let invalid := filter (fun e => negb (validateEcosystem e)) requestedEcosystems in
      (Only validEcosystems,
       [Warning ("Ignoring invalid ecosystems: " ++ String.concat ", " invalid)])
    else (Only validEcosystems, []).

(** [getInputs()]: the events it causes, and the inputs or the
    exception of [core.getBooleanInput]. *)
Definition getInputs (env : ActionEnv) : list event * res ActionInputs :=
  let token :=
    or_string (or_string (getInput env "token")
                         (match GITHUB_TOKEN env with Some t => t | None => "" end))
              "" in
  let masked := if Js.truthy token then [SetSecret token] else [] in
  let ecosystemsInput := or_string (getInput env "ecosystems") "all" in
  match getBooleanInput env "comment-on-pr" with
  | Throw e => (masked, Throw e)
  | Ok commentOnPr =>
      match getBooleanInput env "include-dev-dependencies" with
      | Throw e => (masked, Throw e)
      | Ok includeDevDependencies =>
          let (ecosystems, warnings) := ecosystems_of ecosystemsInput in
          ((masked ++ warnings)%list,
           Ok (mkInputs token ecosystems commentOnPr includeDevDependencies))
      end
  end.

(** [isDependencyFile(filePath)] *)
Definition isDependencyFile (L : Loaders) (filePath : string) : bool :=
  let fileName :=
    match Js.pop (Js.split filePath "/") with
    | Some n => n
    | None => EmptyString
    end in
  existsb (fun pattern => existsb (String.eqb fileName) (fileNames pattern)
                          || existsb (endsWith fileName) (extensions pattern))
          (DEPENDENCY_FILE_PATTERNS L).

(** ** The differ on the values the parsers hand over

    [compareVersions] is declared over [Map<string, string>], but
    [analyzeFile] hands it the maps of the parsers, and these hold what
    the loaders read: [null], numbers, objects.  [Runtime] is the code
    of [src/version.ts] on such values; a change record then holds the
    two versions as they come. *)
Module Runtime.

Record DependencyChange := mkChange {
  name : string;
  ecosystem : Ecosystem;
  file : string;
  oldVersion : jsval;
  newVersion : jsval;
  changeType : ChangeType;
  dependencyType : DependencyType
}.

(** [version.replace(...).trim()]: a [TypeError] on [null] and
    [undefined], and on every value that has no method [replace]; what
    the loaders read has one only where it is a string. *)
Definition cleanVersion (version : jsval) : res string :=
  match version with
  | JStr s => Ok (cleanVersion s)
  | _ => Throw TypeError
  end.

Section Classifier.
Variable SemVer : Type.
Variable semver_coerce : string -> option SemVer.
Variable semver_prerelease : string -> option (list string).
Variable semver_diff : SemVer -> SemVer -> option string.

(** [determineChangeType] begins with [cleanVersion(oldVersion)] and
    [cleanVersion(newVersion)]; on two strings it goes on as declared. *)
Definition determineChangeType (oldVersion newVersion : jsval) : res ChangeType :=
  match oldVersion, newVersion with
  | JStr o, JStr n =>
      Ok (determineChangeType semver_coerce semver_prerelease semver_diff o n)
  | _, _ => Throw TypeError
  end.

Section Compare.
Variables (oldDeps newDeps : JSMap jsval).
Variables (eco : Ecosystem) (path : string) (depType : DependencyType).

(** The body of the first loop, for one entry of [oldDeps]. *)
Definition compare_old (changes : list DependencyChange)
           (entry : string * jsval) : res (list DependencyChange) :=
  let '(name, oldVersion) := entry in
  let newVersion :=
    match map_get newDeps name with
    | Some v => v
    | None => JUndefined
    end in
  if negb (Val.truthy newVersion) then
    Ok (changes ++ [mkChange name eco path oldVersion JNull removed depType])%list
  else
    cleanOld <- cleanVersion oldVersion ;;
    cleanNew <- cleanVersion newVersion ;;
    if negb (String.eqb cleanOld cleanNew) then
      changeType <- determineChangeType oldVersion newVersion ;;
      Ok (changes ++ [mkChange name eco path oldVersion newVersion changeType
                                 depType])%list
    else Ok changes.

(** The body of the second loop, for one entry of [newDeps]. *)
Definition compare_new (changes : list DependencyChange)
           (entry : string * jsval) : list DependencyChange :=
  let '(name, newVersion) := entry in
  if negb (map_has oldDeps name) then
    (changes ++ [mkChange name eco path JNull newVersion added depType])%list
  else changes.

Definition compareVersions : res (list DependencyChange) :=
  changes <- foldM compare_old oldDeps [] ;;
  Ok (fold_left compare_new newDeps changes).
End Compare.
End Classifier.

End Runtime.

Definition DependencyType_eqb (a b : DependencyType) : bool :=
  match a, b with
  | production, production | development, development | optional, optional
  | peer, peer | build, build | test, test => true
  | _, _ => false
  end.

(** A [Map<string, Map<string, string>>] whose keys are dependency
    types, in insertion order; the inner maps hold the values of the
    parsers' maps. *)
Definition ByType : Type := list (DependencyType * JSMap jsval).

Fixpoint byType_get (m : ByType) (t : DependencyType) : option (JSMap jsval) :=
  match m with
  | [] => None
  | (t', v) :: m' => if DependencyType_eqb t' t then Some v else byType_get m' t
  end.

Fixpoint byType_set (m : ByType) (t : DependencyType) (v : JSMap jsval) : ByType :=
  match m with
  | [] => [(t, v)]
  | (t', v') :: m' =>
      if DependencyType_eqb t' t then (t', v) :: m' else (t', v') :: byType_set m' t v
  end.

(** [new Set(keys)]: the keys in the order of their first occurrence. *)
Definition Set_of (keys : list DependencyType) : list DependencyType :=
  fold_left (fun set k => if existsb (DependencyType_eqb k) set then set
                          else (set ++ [k])%list)
            keys [].

Section Analyze.
Variable SemVer : Type.
Variable semver_coerce : string -> option SemVer.
Variable semver_prerelease : string -> option (list string).
Variable semver_diff : SemVer -> SemVer -> option string.
(** [exec.exec(commandLine, args, options)] with [ignoreReturnCode]:
    the exit code and what the command wrote to its standard output. *)
Variable exec : string -> list string -> res (Z * string).
(** The loaders behind the parsers of the registry. *)
Variable L : Loaders.

Definition getFileAtRef (filePath ref : string) : option string * list event :=
  if negb (isValidFilePath filePath) then
    (None, [Warning ("Skipping invalid file path: " ++ filePath)])
  else if negb (Regex.is_match re_sha ref) then
    (None, [Warning ("Invalid git ref format: " ++ ref)])
  else
    let args := ["show"; ref ++ ":" ++ filePath] in
    match exec "git" args with
    | Throw _ => (None, [Exec "git" args])
    | Ok (exitCode, content) =>
        if negb (exitCode =? 0)%Z then (None, [Exec "git" args])
        else if (MAX_FILE_SIZE <? Z.of_nat (String.length content))%Z then
          (None, [Exec "git" args; Warning ("File too large, skipping: " ++ filePath)])
        else (Some content, [Exec "git" args])
    end.

(** The body of the two loops that flatten the groups of a parse
    result by dependency type. *)
Definition flatten_group (includeDevDependencies : bool) (byType : ByType)
           (parsed : ParsedDependencies) : ByType :=
  if negb includeDevDependencies
     && negb (DependencyType_eqb (parsedType parsed) production)
  then byType
  else
    let existing :=
      match byType_get byType (parsedType parsed) with
      | Some m => m
      | None => []
      end in
    let existing :=
      fold_left (fun m entry => map_set m (fst entry) (snd entry))
                (dependencies parsed) existing in
    byType_set byType (parsedType parsed) existing.

(** [content ? parser.parser(content) : []], for the entry [found] of
    the registry. *)
Definition parse_content (found : DependencyFilePattern) (content : option string)
  : res (list ParsedDependencies) :=
  match content with
  | Some c => if Js.truthy c then parser found c else Ok []
  | None => Ok []
  end.

Definition content_missing (content : option string) : bool :=
  match content with
  | Some c => negb (Js.truthy c)
  | None => true
  end.

(** [analyzeFile]: the events it causes, and the changes or the
    exception of [compareVersions]. *)
Definition analyzeFile (filePath baseSha headSha : string)
           (includeDevDependencies : bool)
  : res (list Runtime.DependencyChange) * list event :=
  match getParserForFile L filePath with
  | None => (Ok [], [])
  | Some found =>
      let (oldContent, log1) := getFileAtRef filePath baseSha in
      let (newContent, log2) := getFileAtRef filePath headSha in
      let log := (log1 ++ log2)%list in
      if content_missing oldContent && content_missing newContent then (Ok [], log)
      else
        (oldDeps <- parse_content found oldContent ;;
         newDeps <- parse_content found newContent ;;
         let oldByType := fold_left (flatten_group includeDevDependencies) oldDeps [] in
         let newByType := fold_left (flatten_group includeDevDependencies) newDeps [] in
         let allTypes := Set_of (map fst oldByType ++ map fst newByType)%list in
         foldM
           (fun changes depType =>
              let oldTypeDeps :=
                match byType_get oldByType depType with Some m => m | None => [] end in
              let newTypeDeps :=
                match byType_get newByType depType with Some m => m | None => [] end in
              typeChanges <- Runtime.compareVersions
                               semver_coerce semver_prerelease semver_diff
                               oldTypeDeps newTypeDeps (pattern_ecosystem found)
                               filePath depType ;;
              Ok (changes ++ typeChanges)%list)
           allTypes [],
         log)
  end.
End Analyze.

(** ** More shapes the properties speak of *)

(** [erased s t]: [t] is [s] with some of its characters left out. *)
Inductive erased : string -> string -> Prop :=
| erased_nil : erased EmptyString EmptyString
| erased_keep (c : ascii) (s t : string) :
    erased s t -> erased (String c s) (String c t)
| erased_drop (c : ascii) (s t : string) :
    erased s t -> erased (String c s) t.

(** The length of a string in which every character counts for its
    weight. *)
Fixpoint weigh (w : ascii -> nat) (s : string) : nat :=
  match s with
  | EmptyString => 0
  | String c s' => w c + weigh w s'
  end.

(** The number of characters that the three entity replacements of
    [sanitizeForMarkdown] make of one character. *)
Definition entity_length (c : ascii) : nat :=
  if Ascii.eqb "&" c then 5
  else if Ascii.eqb "<" c || Ascii.eqb ">" c then 4
  else 1.

(** The versions of a change of [Runtime.compareVersions], by its
    change type: an addition has no old version, a removal no new one,
    and every other change has two strings, the new one not empty. *)
Definition change_shape (c : Runtime.DependencyChange) : Prop :=
  match Runtime.changeType c with
  | added => Runtime.oldVersion c = JNull
  | removed => Runtime.newVersion c = JNull
  | _ => exists o n, Runtime.oldVersion c = JStr o /\ Runtime.newVersion c = JStr n
                     /\ n <> EmptyString
  end.

(** [typeof v === 'string'] *)
Definition is_string (v : jsval) : bool :=
  match v with
  | JStr _ => true
  | _ => false
  end.

(** The characters that [sanitizeForMarkdown] removes, escapes or
    replaces. *)
Definition is_markup (c : ascii) : bool :=
  Comment.is_control c || Regex.one_of "`|[]<>&" c.

Definition ChangeType_eqb (a b : ChangeType) : bool :=
  match a, b with
  | added, added | removed, removed | major, major | minor, minor
  | patch, patch | prerelease, prerelease | other, other => true
  | _, _ => false
  end.

(** A parse result without an empty group. *)
Definition filled (results : list ParsedDependencies) : Prop :=
  forall g, In g results -> dependencies g <> [].

(** Every value of a map is of a kind. *)
Definition all_values (P : jsval -> Prop) (m : JSMap jsval) : Prop :=
  forall (k : string) (x : jsval), In (k, x) m -> P x.

(** A version as [parsePomXml] reports it: a string that is not empty
    and is no property placeholder. *)
Definition resolved_version (x : jsval) : Prop :=
  exists v, x = JStr v /\ v <> EmptyString /\ Js.startsWith v "${" = false.

(** A version as [parsePnpmLock] reports it: a string that is no link
    to a package of the workspace. *)
Definition registry_version (x : jsval) : Prop :=
  exists v, x = JStr v /\ Js.startsWith v "link:" = false.

(** A pattern whose every match ends at the end of the subject. *)
Fixpoint ends_at_eol (r : Regex.re) : bool :=
  match r with
  | Regex.Eol => true
  | Regex.Seq _ r2 => ends_at_eol r2
  | Regex.Alt r1 r2 => ends_at_eol r1 && ends_at_eol r2
  | Regex.Grp _ r1 => ends_at_eol r1
  | _ => false
  end.

(** [escaped_from p prev s]: in [s] every character of the class [p]
    comes right after a backslash; [prev] tells whether the character
    before [s] is one. *)
Fixpoint escaped_from (p : ascii -> bool) (prev : bool) (s : string) : bool :=
  match s with
  | EmptyString => true
  | String c s' => (negb (p c) || prev) && escaped_from p (Ascii.eqb c "\") s'
  end.

Definition escaped (p : ascii -> bool) (s : string) : bool := escaped_from p false s.

(** * Properties *)

Local Open Scope list_scope.

(** ** Strings *)

Lemma trimEnd_idem (s : string) : Js.trimEnd (Js.trimEnd s) = Js.trimEnd s.
Proof.
  induction s as [|c s IH]; simpl; [reflexivity|].
  destruct (Js.trimEnd s) as [|c' t] eqn:E.
  - destruct (Js.is_space c) eqn:Ec; simpl; [reflexivity|].
    now rewrite Ec.
  - simpl in IH |- *.
    destruct (Js.trimEnd t) as [|c'' t'] eqn:E'.
    + destruct (Js.is_space c') eqn:Ec'; [discriminate|].
      now rewrite <- IH.
    + now rewrite <- IH.
Qed.

(** What [trimEnd] returns does not start with white space, unless its
    argument did. *)
Lemma trimEnd_head (s : string) :
  match s with
  | String c _ =>
      Js.is_space c = false ->
      match Js.trimEnd s with String c' _ => c' = c | EmptyString => False end
  | EmptyString => True
  end.
Proof.
  destruct s as [|c s]; [exact I|].
  intros Hc. simpl. destruct (Js.trimEnd s); [now rewrite Hc|reflexivity].
Qed.

Lemma trimStart_head (s : string) :
  match Js.trimStart s with
  | String c _ => Js.is_space c = false
  | EmptyString => True
  end.
Proof.
  induction s as [|c s IH]; simpl; [exact I|].
  destruct (Js.is_space c) eqn:Ec; [exact IH|exact Ec].
Qed.

Lemma trimStart_fixed (s : string) :
  match s with String c _ => Js.is_space c = false | EmptyString => True end ->
  Js.trimStart s = s.
Proof. destruct s as [|c s]; simpl; [reflexivity|]. now intros ->. Qed.

Lemma trim_idem (s : string) : Js.trim (Js.trim s) = Js.trim s.
Proof.
  unfold Js.trim.
  assert (H : Js.trimStart (Js.trimEnd (Js.trimStart s)) = Js.trimEnd (Js.trimStart s)).
  { apply trimStart_fixed.
    pose proof (trimStart_head s) as Hh.
    pose proof (trimEnd_head (Js.trimStart s)) as He.
    destruct (Js.trimStart s) as [|c t]; [exact I|].
    specialize (He Hh). destruct (Js.trimEnd (String c t)); [exact I|].
    now subst. }
  rewrite H. apply trimEnd_idem.
Qed.

(** ** Regular expressions *)

Lemma slice_0 (s : string) : Js.slice 0 s = s.
Proof. now destruct s. Qed.

Lemma slice_length (n : nat) (s : string) :
  String.length (Js.slice n s) = String.length s - n.
Proof.
  revert s. induction n as [|n IH]; intros [|c s]; simpl; auto.
Qed.

Lemma slice_slice (n m : nat) (s : string) :
  Js.slice m (Js.slice n s) = Js.slice (n + m) s.
Proof.
  revert s. induction n as [|n IH]; intros s; simpl.
  - reflexivity.
  - destruct s as [|c s]; simpl; [now destruct m|apply IH].
Qed.

Lemma substring_length (n : nat) (s : string) :
  n <= String.length s -> String.length (String.substring 0 n s) = n.
Proof.
  revert s. induction n as [|n IH]; intros [|a s]; simpl; intros H; try lia.
  rewrite IH; lia.
Qed.

Section RunFacts.
Import Regex.
Variable R : Type.

Lemma rep_loop_consumes (body : cont R -> cont R) (m lo : nat) (hi : option nat)
      (k : cont R) :
  ends_after body m ->
  forall (fuel n0 pos : nat) (s : string) (c : caps) (x : R),
    rep_loop body lo hi k fuel n0 pos s c = Some x ->
    exists n c', n <= String.length s /\ (lo - n0) * m <= n
                 /\ k (pos + n) (Js.slice n s) c' = Some x.
Proof.
  intros Hbody. induction fuel as [|fuel IHf]; intros n0 pos s c x H;
    cbn [rep_loop] in H.
  - destruct (lo <=? n0)%nat eqn:E; [|discriminate].
    apply Nat.leb_le in E. exists 0, c. rewrite Nat.add_0_r, ?slice_0.
    repeat split; [lia|nia|exact H].
  - assert (Hstop : (if (lo <=? n0)%nat then k pos s c else None) = Some x ->
                    exists n c', n <= String.length s /\ (lo - n0) * m <= n
                                 /\ k (pos + n) (Js.slice n s) c' = Some x).
    { destruct (lo <=? n0)%nat eqn:E; [|discriminate].
      apply Nat.leb_le in E. intros Hk. exists 0, c.
      rewrite Nat.add_0_r, ?slice_0. repeat split; [lia|nia|exact Hk]. }
    destruct (match hi with Some h => (n0 <? h)%nat | None => true end);
      [|now apply Hstop].
    match type of H with
    | match ?t with _ => _ end = _ => destruct t as [y|] eqn:E
    end; [|now apply Hstop].
    injection H as ->.
    apply Hbody in E as (n1 & c1 & Hn1 & Hm1 & E).
    destruct ((lo <=? n0)%nat && (pos + n1 =? pos)%nat); [discriminate|].
    apply IHf in E as (n2 & c2 & Hn2 & Hm2 & E).
    rewrite slice_length in Hn2. rewrite slice_slice, <- Nat.add_assoc in E.
    exists (n1 + n2), c2. repeat split; [lia|nia|exact E].
Qed.

Lemma run_consumes (extra : nat) (r : re) :
  ends_after (@run R extra r) (min_len r).
Proof.
  induction r as [|p|r1 IH1 r2 IH2|r1 IH1 r2 IH2|lo hi r1 IH1|i r1 IH1| |];
    intros k pos s c x H; cbn [run min_len] in *.
  - exists 0, c. rewrite Nat.add_0_r, ?slice_0. repeat split; [lia|lia|exact H].
  - destruct s as [|a s]; [discriminate|]. destruct (p a); [|discriminate].
    exists 1, c. cbn [String.length Js.slice]. rewrite Nat.add_1_r, ?slice_0.
    repeat split; [lia|lia|exact H].
  - apply IH1 in H as (n1 & c1 & Hn1 & Hm1 & H).
    apply IH2 in H as (n2 & c2 & Hn2 & Hm2 & H).
    rewrite slice_length in Hn2. rewrite slice_slice, <- Nat.add_assoc in H.
    exists (n1 + n2), c2. repeat split; [lia|lia|exact H].
  - destruct (run extra r1 k pos s c) as [y|] eqn:E.
    + injection H as ->. apply IH1 in E as (n & c' & Hn & Hm & E).
      exists n, c'. repeat split; [lia|lia|exact E].
    + apply IH2 in H as (n & c' & Hn & Hm & H).
      exists n, c'. repeat split; [lia|lia|exact H].
  - eapply rep_loop_consumes in H as (n & c' & Hn & Hm & H); [|exact IH1].
    exists n, c'. repeat split; [lia|nia|exact H].
  - apply IH1 in H as (n & c' & Hn & Hm & H).
    eexists n, _. repeat split; [lia|lia|exact H].
  - destruct (pos =? 0)%nat; [|discriminate].
    exists 0, c. rewrite Nat.add_0_r, ?slice_0. repeat split; [lia|lia|exact H].
  - destruct s; [|discriminate].
    exists 0, c. rewrite Nat.add_0_r. repeat split; [simpl; lia|lia|exact H].
Qed.

Lemma agree_here (k1 k2 : cont R) (pos : nat) (s : string) (c : caps) :
  agree k1 k2 pos s -> k1 pos s c = k2 pos s c.
Proof.
  intros H. specialize (H 0 c). rewrite Nat.add_0_r, ?slice_0 in H. apply H. lia.
Qed.

Lemma agree_later (k1 k2 : cont R) (pos : nat) (s : string) (n : nat) :
  n <= String.length s -> agree k1 k2 pos s -> agree k1 k2 (pos + n) (Js.slice n s).
Proof.
  intros Hn H m c Hm. rewrite slice_length in Hm.
  rewrite slice_slice, <- Nat.add_assoc. apply H. lia.
Qed.

Lemma rep_loop_fuel (b1 b2 : cont R -> cont R) (lo : nat) (hi : option nat)
      (k1 k2 : cont R) :
  (forall k1 k2 pos s c, agree k1 k2 pos s -> b1 k1 pos s c = b2 k2 pos s c) ->
  forall (f1 f2 n0 pos : nat) (s : string) (c : caps),
    lo - n0 + String.length s < f1 -> lo - n0 + String.length s < f2 ->
    agree k1 k2 pos s ->
    rep_loop b1 lo hi k1 f1 n0 pos s c = rep_loop b2 lo hi k2 f2 n0 pos s c.
Proof.
  intros Hb. induction f1 as [|f1 IHf]; intros f2 n0 pos s c H1 H2 Hk; [lia|].
  destruct f2 as [|f2]; [lia|]. cbn [rep_loop].
  rewrite (@agree_here k1 k2 pos s c Hk).
  destruct (match hi with Some h => (n0 <? h)%nat | None => true end);
    [|reflexivity].
  match goal with
  | |- match ?a with _ => _ end = match ?b with _ => _ end =>
      assert (Hrun : a = b); [|rewrite Hrun; reflexivity]
  end.
  apply Hb. intros n c' Hn.
  destruct (lo <=? n0)%nat eqn:Elo; cbn [andb].
  - destruct (Nat.eqb_spec (pos + n) pos) as [Heq|Hne]; [reflexivity|].
    apply Nat.leb_le in Elo.
    apply IHf; [rewrite slice_length; lia|rewrite slice_length; lia|].
    now apply agree_later.
  - apply Nat.leb_gt in Elo.
    apply IHf; [rewrite slice_length; lia|rewrite slice_length; lia|].
    now apply agree_later.
Qed.

(** The fuel of the quantifier loops is never what ends them: runs that
    differ in their extra fuel agree. *)
Lemma run_fuel (e1 e2 : nat) (r : re) :
  forall (k1 k2 : cont R) (pos : nat) (s : string) (c : caps),
    agree k1 k2 pos s -> run e1 r k1 pos s c = run e2 r k2 pos s c.
Proof.
  induction r as [|p|r1 IH1 r2 IH2|r1 IH1 r2 IH2|lo hi r1 IH1|i r1 IH1| |];
    intros k1 k2 pos s c Hk; cbn [run].
  - now apply agree_here.
  - destruct s as [|a s]; [reflexivity|]. destruct (p a); [|reflexivity].
    specialize (Hk 1 c). cbn [Js.slice String.length] in Hk.
    rewrite Nat.add_1_r, ?slice_0 in Hk. apply Hk. lia.
  - apply IH1. intros n c' Hn. apply IH2. now apply agree_later.
  - rewrite (IH1 k1 k2 pos s c Hk), (IH2 k1 k2 pos s c Hk). reflexivity.
  - apply rep_loop_fuel; [exact IH1|lia|lia|exact Hk].
  - apply IH1. intros n c' Hn. now rewrite Hk.
  - destruct (pos =? 0)%nat; [|reflexivity]. now apply agree_here.
  - destruct s; [|reflexivity]. now apply agree_here.
Qed.

Lemma run_extra (extra : nat) (r : re) (k : cont R) (pos : nat) (s : string)
      (c : caps) :
  run extra r k pos s c = run 0 r k pos s c.
Proof. apply run_fuel. intros n c' Hn. reflexivity. Qed.

(** A run of characters of one class, before a continuation that
    accepts whatever comes: all of them are taken. *)
Lemma plus_class_loop (extra : nat) (p : ascii -> bool)
      (F : nat -> string -> caps -> R) :
  forall (fuel n0 pos : nat) (s : string) (c : caps),
    String.length s < fuel ->
    rep_loop (run extra (Chr p)) 1 None (fun pos' s' c' => Some (F pos' s' c'))
             fuel n0 pos s c
    = if (1 <=? n0 + span p s)%nat
      then Some (F (pos + span p s) (Js.slice (span p s) s) c)
      else None.
Proof.
  induction fuel as [|fuel IH]; intros n0 pos s c Hfuel; [lia|].
  destruct s as [|a s].
  - cbn [rep_loop run span Js.slice]. rewrite !Nat.add_0_r. reflexivity.
  - cbn [rep_loop run span]. destruct (p a) eqn:Ea.
    + assert (Hne : (S pos =? pos)%nat = false) by (apply Nat.eqb_neq; lia).
      rewrite Hne, andb_false_r. rewrite IH by (cbn [String.length] in Hfuel; lia).
      cbn [Js.slice]. rewrite <- !plus_n_Sm, !Nat.add_succ_l.
      replace (1 <=? S (n0 + span p s))%nat with true
        by (symmetry; apply Nat.leb_le; lia).
      reflexivity.
    + cbn [Js.slice]. rewrite !Nat.add_0_r. reflexivity.
Qed.

Lemma plus_class (extra : nat) (p : ascii -> bool)
      (F : nat -> string -> caps -> R) (pos : nat) (s : string) (c : caps) :
  run extra (Plus (Chr p)) (fun pos' s' c' => Some (F pos' s' c')) pos s c
  = if (1 <=? span p s)%nat
    then Some (F (pos + span p s) (Js.slice (span p s) s) c)
    else None.
Proof.
  assert (Hfuel : String.length s < extra + S (1 + String.length s)) by lia.
  exact (@plus_class_loop extra p F _ 0 pos s c Hfuel).
Qed.
End RunFacts.

Import Regex.

Lemma match_at_rest (r : re) (pos : nat) (s : string) (m : result) :
  match_at r pos s = Some m ->
  String.length (rest m) + min_len r <= String.length s
  /\ index m = pos
  /\ String.length (matched m) + String.length (rest m) = String.length s.
Proof.
  unfold match_at. intros H.
  apply run_consumes in H as (n & c' & Hn & Hm & H). injection H as <-.
  cbn [rest index matched]. rewrite slice_length.
  replace (pos + n - pos) with n by lia.
  split; [lia|]. split; [reflexivity|].
  rewrite substring_length by exact Hn. lia.
Qed.

Lemma search_from_rest (r : re) (s : string) :
  forall (pos : nat) (m : result),
    search_from r pos s = Some m ->
    String.length (rest m) + min_len r <= String.length s.
Proof.
  induction s as [|a s IH]; intros pos m; cbn [search_from].
  - destruct (match_at r pos "") eqn:E; [|discriminate].
    intros [= ->]. now apply match_at_rest in E.
  - destruct (match_at r pos (String a s)) eqn:E.
    + intros [= ->]. now apply match_at_rest in E.
    + intros H. apply IH in H. cbn [String.length]. lia.
Qed.

(** On a pattern that matches no empty string, the loop over the
    matches ends before its fuel does: more fuel finds the same
    matches. *)
Lemma exec_all_fuel (r : re) :
  1 <= min_len r ->
  forall (f1 f2 pos : nat) (s : string),
    String.length s < f1 -> String.length s < f2 ->
    exec_all_from f1 r pos s = exec_all_from f2 r pos s.
Proof.
  intros Hr. induction f1 as [|f1 IH]; intros f2 pos s H1 H2; [lia|].
  destruct f2 as [|f2]; [lia|]. cbn [exec_all_from].
  destruct (search_from r pos s) as [m|] eqn:E; [|reflexivity].
  apply search_from_rest in E. f_equal. apply IH; lia.
Qed.

(** The four patterns of [parseBuildGradle] match no empty string. *)
Lemma gradle_patterns_consume :
  Forall (fun r => 1 <= min_len r)
         [Java.prodPattern; Java.testPattern; Java.kotlinPattern;
          Java.kotlinTestPattern].
Proof. repeat constructor; vm_compute; lia. Qed.

(** ** [cleanVersion] *)

Lemma anchored_later (r : re) (s : string) (pos : nat) :
  search_from (Seq Bol r) (S pos) s = None.
Proof.
  revert pos. induction s as [|a s IH]; intros pos; cbn [search_from].
  - reflexivity.
  - unfold match_at. cbn [run Nat.eqb]. apply IH.
Qed.

(** The pattern of [cleanVersion] removes the leading range operators. *)
Lemma replace_range_prefix (s : string) :
  replace re_range_prefix "" s = strip_range_ops s.
Proof.
  assert (Hstrip : forall t, strip_range_ops t = Js.slice (span is_range_op t) t).
  { induction t as [|a t IH]; [reflexivity|]. cbn [strip_range_ops span].
    destruct (is_range_op a); [exact IH|reflexivity]. }
  unfold replace, exec, re_range_prefix.
  destruct s as [|a s]; cbn [search_from].
  - unfold match_at. cbn [run Nat.eqb]. rewrite plus_class. reflexivity.
  - unfold match_at at 1. cbn [run Nat.eqb]. rewrite plus_class.
    rewrite Hstrip. cbn [span]. destruct (is_range_op a) eqn:Ea.
    + cbn [Nat.leb index rest String.substring]. reflexivity.
    + cbn [Nat.leb]. now rewrite anchored_later.
Qed.

Lemma cleanVersion_strip (v : string) :
  cleanVersion v = Js.trim (strip_range_ops v).
Proof. unfold cleanVersion. now rewrite replace_range_prefix. Qed.

(** Where the cleaned string does not begin with a range operator,
    cleaning it again changes nothing. *)
Lemma cleanVersion_fixed (v : string) :
  strip_range_ops (cleanVersion v) = cleanVersion v ->
  cleanVersion (cleanVersion v) = cleanVersion v.
Proof.
  intros H. rewrite (cleanVersion_strip (cleanVersion v)), H, cleanVersion_strip.
  apply trim_idem.
Qed.

(** C7. [cleanVersion] is meant to be idempotent, and is not: on a
    version string in which white space comes before the range
    operator, the operator is still there after one cleaning (the
    white space is trimmed after the operators are looked for) and goes
    at the second. *)
Theorem cleanVersion_not_idempotent :
  cleanVersion " ^1.0.0" = "^1.0.0"
  /\ cleanVersion (cleanVersion " ^1.0.0") = "1.0.0"
  /\ cleanVersion (cleanVersion " ^1.0.0") <> cleanVersion " ^1.0.0".
Proof. split; [reflexivity | split; [reflexivity | discriminate]]. Qed.

(** ** Lists *)

Lemma filter_none {A : Type} (p : A -> bool) (l : list A) :
  (forall x, In x l -> p x = false) -> filter p l = [].
Proof.
  induction l as [|a l IH]; simpl; intros H; [reflexivity|].
  rewrite (H a) by now left. apply IH. intros x Hx. apply H. now right.
Qed.

(** ** Maps *)

Section MapFacts.
Variable V : Type.
Implicit Types (m : JSMap V) (k : string) (v : V).

Lemma map_get_None m k : ~ In k (keys m) -> map_get m k = None.
Proof.
  induction m as [|[k' v'] m IH]; simpl; intros H; [reflexivity|].
  destruct (String.eqb_spec k' k) as [->|Hne]; [tauto|].
  apply IH. tauto.
Qed.

Lemma map_get_Some_In m k v : map_get m k = Some v -> In (k, v) m.
Proof.
  induction m as [|[k' v'] m IH]; simpl; [discriminate|].
  destruct (String.eqb_spec k' k) as [->|Hne].
  - intros [= ->]. now left.
  - intros H. right. now apply IH.
Qed.

Lemma map_get_In m k v : wf_map m -> In (k, v) m -> map_get m k = Some v.
Proof.
  unfold wf_map. induction m as [|[k' v'] m IH]; simpl; [tauto|].
  intros Hnd [[= -> ->]|Hin].
  - now rewrite String.eqb_refl.
  - inversion Hnd as [|? ? Hni Hnd']; subst.
    destruct (String.eqb_spec k' k) as [->|Hne].
    + exfalso. apply Hni. change k with (fst (k, v)). now apply in_map.
    + now apply IH.
Qed.

Lemma keys_map_set m k v :
  keys (map_set m k v) = if map_has m k then keys m else keys m ++ [k].
Proof.
  unfold map_has.
  induction m as [|[k' v'] m IH]; simpl; [reflexivity|].
  destruct (String.eqb_spec k' k) as [->|Hne]; simpl; [reflexivity|].
  rewrite IH. now destruct (map_get m k).
Qed.

Lemma map_has_In m k : map_has m k = true <-> In k (keys m).
Proof.
  unfold map_has. induction m as [|[k' v'] m IH]; simpl.
  - split; [discriminate|tauto].
  - destruct (String.eqb_spec k' k) as [->|Hne].
    + split; auto.
    + rewrite IH. split; [auto|]. intros [H|H]; [contradiction|exact H].
Qed.

Lemma wf_map_set m k v : wf_map m -> wf_map (map_set m k v).
Proof.
  unfold wf_map. intros H. rewrite keys_map_set.
  destruct (map_has m k) eqn:E; [exact H|].
  apply NoDup_app; [exact H | repeat constructor; simpl; tauto |].
  intros x Hx [<-|[]]. apply map_has_In in Hx. congruence.
Qed.

Lemma map_get_set m k v k' :
  map_get (map_set m k v) k' = if String.eqb k k' then Some v else map_get m k'.
Proof.
  induction m as [|[k0 v0] m IH]; simpl.
  - reflexivity.
  - destruct (String.eqb_spec k0 k) as [->|Hne]; simpl.
    + now destruct (String.eqb_spec k k').
    + rewrite IH. destruct (String.eqb_spec k0 k') as [->|Hne'];
        [|reflexivity].
      destruct (String.eqb_spec k k'); [congruence|reflexivity].
Qed.

Lemma map_size_set m k v : map_size m <= map_size (map_set m k v).
Proof.
  unfold map_size. induction m as [|[k0 v0] m IH]; simpl; [lia|].
  destruct (String.eqb k0 k); simpl; lia.
Qed.

Lemma map_set_nonempty m k v : map_set m k v <> [].
Proof. destruct m as [|[k0 v0] m]; simpl; [|destruct (String.eqb k0 k)]; discriminate. Qed.
End MapFacts.

(** ** The dependency-set differ *)

Section DifferFacts.
Variable SemVer : Type.
Variable semver_coerce : string -> option SemVer.
Variable semver_prerelease : string -> option (list string).
Variable semver_diff : SemVer -> SemVer -> option string.

Local Abbreviation classify :=
  (determineChangeType semver_coerce semver_prerelease semver_diff).

(** The classifier answers with one of the five categories of a
    version change. *)
Lemma determineChangeType_range (o n : string) :
  classify o n <> added /\ classify o n <> removed.
Proof.
  unfold determineChangeType.
  destruct (semver_coerce (cleanVersion o)), (semver_coerce (cleanVersion n));
    try (destruct (negb _); split; discriminate).
  destruct (semver_prerelease _); [split; discriminate|].
  destruct (semver_diff _ _) as [d|]; [|split; discriminate].
  repeat match goal with
         | |- context [if ?b then _ else _] => destruct b
         end; split; discriminate.
Qed.

Variables (oldDeps newDeps : JSMap string).
Variables (eco : Ecosystem) (path : string) (depType : DependencyType).

Local Abbreviation from_old :=
  (compare_old semver_coerce semver_prerelease semver_diff newDeps eco path depType).
Local Abbreviation from_new := (compare_new oldDeps eco path depType).
Local Abbreviation result :=
  (compareVersions semver_coerce semver_prerelease semver_diff
                   oldDeps newDeps eco path depType).

Lemma compare_old_app (changes : list DependencyChange) (e : string * string) :
  from_old changes e = changes ++ from_old [] e.
Proof.
  unfold compare_old. destruct e as [n o].
  destruct (map_get newDeps n) as [v|]; [|reflexivity].
  destruct (negb (Js.truthy v)); [reflexivity|].
  destruct (negb _); [reflexivity|]. now rewrite app_nil_r.
Qed.

Lemma compare_new_app (changes : list DependencyChange) (e : string * string) :
  from_new changes e = changes ++ from_new [] e.
Proof.
  unfold compare_new. destruct e as [n v].
  destruct (negb _); [reflexivity|]. now rewrite app_nil_r.
Qed.

Lemma fold_left_push {A B : Type} (f : list B -> A -> list B) (l : list A) :
  (forall acc a, f acc a = acc ++ f [] a) ->
  forall acc, fold_left f l acc = acc ++ flat_map (f []) l.
Proof.
  intros Hf. induction l as [|a l IH]; intros acc; simpl.
  - now rewrite app_nil_r.
  - rewrite IH, (Hf acc a). now rewrite <- app_assoc.
Qed.

(** The two loops, as the changes each entry contributes. *)
Lemma compareVersions_flat :
  result = flat_map (from_old []) oldDeps ++ flat_map (from_new []) newDeps.
Proof.
  unfold compareVersions.
  rewrite (fold_left_push _ _ compare_new_app).
  now rewrite (fold_left_push _ _ compare_old_app).
Qed.

Lemma from_old_name (k v : string) (c : DependencyChange) :
  In c (from_old [] (k, v)) -> name c = k.
Proof.
  unfold compare_old.
  destruct (map_get newDeps k) as [w|].
  - destruct (negb (Js.truthy w)); [intros [<-|[]]; reflexivity|].
    destruct (negb _); [intros [<-|[]]; reflexivity|intros []].
  - intros [<-|[]]; reflexivity.
Qed.

Lemma from_new_name (k v : string) (c : DependencyChange) :
  In c (from_new [] (k, v)) -> name c = k.
Proof.
  unfold compare_new.
  destruct (negb _); [intros [<-|[]]; reflexivity|intros []].
Qed.

(** The changes that bear a given name, in a list made entry by entry
    from a map. *)
Lemma filter_name_flat_map (f : string * string -> list DependencyChange)
      (m : JSMap string) (n : string) :
  wf_map m ->
  (forall k v c, In c (f (k, v)) -> name c = k) ->
  filter (fun c => String.eqb (name c) n) (flat_map f m)
  = match map_get m n with Some v => f (n, v) | None => [] end.
Proof.
  unfold wf_map. intros Hnd Hf.
  induction m as [|[k v] m IH]; simpl; [reflexivity|].
  inversion Hnd as [|? ? Hni Hnd']; subst.
  rewrite filter_app, (IH Hnd').
  destruct (String.eqb_spec k n) as [->|Hne].
  - rewrite (map_get_None _ _ Hni), app_nil_r.
    apply forallb_filter_id. apply forallb_forall. intros c Hc.
    rewrite (Hf _ _ _ Hc). apply String.eqb_refl.
  - rewrite filter_none; [reflexivity|].
    intros c Hc. rewrite (Hf _ _ _ Hc). now apply String.eqb_neq.
Qed.

(** What [compareVersions] emits for a name [n], where no version of
    the new map is the empty string: a removal for a name of the old
    map only, a classified change for a name of both maps whose
    cleaned versions differ, an addition for a name of the new map
    only, and nothing else. *)
Lemma compareVersions_by_name (n : string) :
  wf_map oldDeps -> wf_map newDeps ->
  (forall k v, In (k, v) newDeps -> Js.truthy v = true) ->
  filter (fun c => String.eqb (name c) n) result
  = match map_get oldDeps n, map_get newDeps n with
    | Some o, None => [mkChange n eco path (Some o) None removed depType]
    | Some o, Some v =>
        if String.eqb (cleanVersion o) (cleanVersion v) then []
        else [mkChange n eco path (Some o) (Some v) (classify o v) depType]
    | None, Some v => [mkChange n eco path None (Some v) added depType]
    | None, None => []
    end.
Proof.
  intros Hold Hnew Htruthy.
  rewrite compareVersions_flat, filter_app.
  rewrite (filter_name_flat_map _ n Hold from_old_name).
  rewrite (filter_name_flat_map _ n Hnew from_new_name).
  unfold compare_old, compare_new, map_has.
  destruct (map_get oldDeps n) as [o|] eqn:Eo;
    destruct (map_get newDeps n) as [v|] eqn:En; simpl; try reflexivity.
  rewrite (Htruthy n v (map_get_Some_In _ _ En)). simpl.
  destruct (String.eqb (cleanVersion o) (cleanVersion v)); reflexivity.
Qed.

Lemma compareVersions_well_formed (c : DependencyChange) :
  In c result -> well_formed_change c.
Proof.
  rewrite compareVersions_flat, in_app_iff, !in_flat_map.
  unfold well_formed_change.
  intros [[[k o] [_ Hc]]|[[k v] [_ Hc]]].
  - unfold compare_old in Hc.
    destruct (map_get newDeps k) as [v|].
    + destruct (negb (Js.truthy v)).
      * destruct Hc as [<-|[]]; simpl. split; [discriminate|reflexivity].
      * destruct (negb _); [|destruct Hc].
        destruct Hc as [<-|[]]; simpl.
        pose proof (determineChangeType_range o v) as [Ha Hr].
        destruct (classify o v); try contradiction; split; discriminate.
    + destruct Hc as [<-|[]]; simpl. split; [discriminate|reflexivity].
  - unfold compare_new in Hc.
    destruct (negb _); [|destruct Hc].
    destruct Hc as [<-|[]]; simpl. split; [reflexivity|discriminate].
Qed.
End DifferFacts.

(** C1. [compareVersions] is meant to emit, for a name of both maps, a
    classified change exactly when the cleaned versions differ, and
    nothing when they are equal.  Where the new map holds the empty
    string for the name, it emits a removal instead, even between two
    identical maps: the test [!newVersion] takes the empty string for a
    missing entry. *)
Theorem compareVersions_empty_new_version :
  forall (SemVer : Type) (sv_coerce : string -> option SemVer)
         (sv_prerelease : string -> option (list string))
         (sv_diff : SemVer -> SemVer -> option string)
         (eco : Ecosystem) (path : string) (depType : DependencyType),
    let oldDeps := [("foo", "1.0.0")] in
    let newDeps := [("foo", "")] in
    map_get oldDeps "foo" = Some "1.0.0"
    /\ map_get newDeps "foo" = Some ""
    /\ cleanVersion "1.0.0" <> cleanVersion ""
    /\ compareVersions sv_coerce sv_prerelease sv_diff oldDeps newDeps eco path depType
       = [mkChange "foo" eco path (Some "1.0.0") None removed depType]
    /\ compareVersions sv_coerce sv_prerelease sv_diff newDeps newDeps eco path depType
       = [mkChange "foo" eco path (Some "") None removed depType].
Proof.
  intros. split; [reflexivity|]. split; [reflexivity|].
  split; [discriminate|]. split; reflexivity.
Qed.

(** C4. In every change [compareVersions] produces, exactly one of
    [oldVersion] and [newVersion] is [null] if and only if the change
    type is [added] or [removed] ([oldVersion] for [added],
    [newVersion] for [removed]), and both are set for every other
    change type. *)
Theorem compareVersions_null_versions :
  forall (SemVer : Type) (sv_coerce : string -> option SemVer)
         (sv_prerelease : string -> option (list string))
         (sv_diff : SemVer -> SemVer -> option string)
         (oldDeps newDeps : JSMap string)
         (eco : Ecosystem) (path : string) (depType : DependencyType)
         (c : DependencyChange),
    In c (compareVersions sv_coerce sv_prerelease sv_diff
                          oldDeps newDeps eco path depType) ->
    (((oldVersion c = None /\ newVersion c <> None)
      \/ (oldVersion c <> None /\ newVersion c = None))
     <-> (changeType c = added \/ changeType c = removed))
    /\ (changeType c = added -> oldVersion c = None /\ newVersion c <> None)
    /\ (changeType c = removed -> oldVersion c <> None /\ newVersion c = None)
    /\ (changeType c <> added -> changeType c <> removed ->
        oldVersion c <> None /\ newVersion c <> None).
Proof.
  intros SemVer sc sp sd o n eco path dt c Hc.
  apply compareVersions_well_formed in Hc. unfold well_formed_change in Hc.
  destruct (changeType c); destruct Hc as [H1 H2];
    (split; [|split; [|split]];
     [ split;
       [ intros [[Ho Hn]|[Ho Hn]]; try contradiction; auto
       | intros [H|H]; try discriminate H; auto ]
     | intros H; try discriminate H; auto
     | intros H; try discriminate H; auto
     | intros Ha Hr; try congruence; auto ]).
Qed.

Lemma compareVersions_null_versions_witness :
  let c := mkChange "lodash" node "package.json" (Some "4.17.20") (Some "4.17.21")
                    patch production in
  In c (compareVersions Semver.coerce Semver.prerelease Semver.diff
                        [("lodash", "4.17.20")] [("lodash", "4.17.21")]
                        node "package.json" production)
  /\ oldVersion c <> None /\ newVersion c <> None.
Proof.
  intros c.
  assert (H : In c (compareVersions Semver.coerce Semver.prerelease Semver.diff
                                    [("lodash", "4.17.20")] [("lodash", "4.17.21")]
                                    node "package.json" production))
    by (vm_compute; left; reflexivity).
  split; [exact H|].
  apply (compareVersions_null_versions _ _ _ _ _ _ _ _ _ H); discriminate.
Defined.

(** C3. Where both cleaned versions can be coerced and the cleaned new
    version carries prerelease identifiers, [determineChangeType]
    answers [prerelease], whatever the difference of the numbers: from
    1.0.0 to 2.0.0-alpha.1 the answer is [prerelease], although the
    coerced versions differ in their major number. *)
Theorem determineChangeType_prerelease_first :
  (forall (SemVer : Type) (sv_coerce : string -> option SemVer)
          (sv_prerelease : string -> option (list string))
          (sv_diff : SemVer -> SemVer -> option string)
          (oldVersion newVersion : string),
      sv_coerce (cleanVersion oldVersion) <> None ->
      sv_coerce (cleanVersion newVersion) <> None ->
      sv_prerelease (cleanVersion newVersion) <> None ->
      determineChangeType sv_coerce sv_prerelease sv_diff oldVersion newVersion
      = prerelease)
  /\ determineChangeType Semver.coerce Semver.prerelease Semver.diff
                         "1.0.0" "2.0.0-alpha.1" = prerelease
  /\ (exists a b,
         Semver.coerce (cleanVersion "1.0.0") = Some a
         /\ Semver.coerce (cleanVersion "2.0.0-alpha.1") = Some b
         /\ Semver.diff a b = Some "major").
Proof.
  split; [|split].
  - intros SemVer sc sp sd o n Ho Hn Hp. unfold determineChangeType.
    destruct (sc (cleanVersion o)); [|contradiction].
    destruct (sc (cleanVersion n)); [|contradiction].
    destruct (sp (cleanVersion n)); [reflexivity|contradiction].
  - vm_compute. reflexivity.
  - eexists. eexists. vm_compute. repeat split.
Qed.

Lemma determineChangeType_prerelease_first_witness :
  Semver.coerce (cleanVersion "^1.2.3") <> None
  /\ Semver.coerce (cleanVersion "^1.3.0-rc.1") <> None
  /\ Semver.prerelease (cleanVersion "^1.3.0-rc.1") <> None
  /\ determineChangeType Semver.coerce Semver.prerelease Semver.diff
                         "^1.2.3" "^1.3.0-rc.1" = prerelease.
Proof.
  assert (H1 : Semver.coerce (cleanVersion "^1.2.3") <> None)
    by (vm_compute; discriminate).
  assert (H2 : Semver.coerce (cleanVersion "^1.3.0-rc.1") <> None)
    by (vm_compute; discriminate).
  assert (H3 : Semver.prerelease (cleanVersion "^1.3.0-rc.1") <> None)
    by (vm_compute; discriminate).
  repeat (split; [assumption|]).
  exact (proj1 determineChangeType_prerelease_first _ _ _ Semver.diff _ _ H1 H2 H3).
Defined.

(** C9. Where either cleaned version cannot be coerced,
    [determineChangeType] answers [other], also when the two cleaned
    strings are the same; so it does for not-a-version and also-not. *)
Theorem determineChangeType_uncoercible :
  (forall (SemVer : Type) (sv_coerce : string -> option SemVer)
          (sv_prerelease : string -> option (list string))
          (sv_diff : SemVer -> SemVer -> option string)
          (oldVersion newVersion : string),
      sv_coerce (cleanVersion oldVersion) = None
      \/ sv_coerce (cleanVersion newVersion) = None ->
      determineChangeType sv_coerce sv_prerelease sv_diff oldVersion newVersion
      = other)
  /\ determineChangeType Semver.coerce Semver.prerelease Semver.diff
                         "not-a-version" "also-not" = other
  /\ determineChangeType Semver.coerce Semver.prerelease Semver.diff
                         "latest" "latest" = other.
Proof.
  split; [|split; vm_compute; reflexivity].
  intros SemVer sc sp sd o n H. unfold determineChangeType.
  destruct (sc (cleanVersion o)) eqn:Eo.
  - destruct H as [H|H]; [discriminate|]. rewrite H.
    now destruct (negb _).
  - now destruct (negb _).
Qed.

Lemma determineChangeType_uncoercible_witness :
  (Semver.coerce (cleanVersion "workspace:*") = None
   \/ Semver.coerce (cleanVersion "1.0.0") = None)
  /\ determineChangeType Semver.coerce Semver.prerelease Semver.diff
                         "workspace:*" "1.0.0" = other.
Proof.
  assert (H : Semver.coerce (cleanVersion "workspace:*") = None
              \/ Semver.coerce (cleanVersion "1.0.0") = None)
    by (left; vm_compute; reflexivity).
  split; [exact H|].
  exact (proj1 determineChangeType_uncoercible _ _ Semver.prerelease Semver.diff _ _ H).
Defined.

(** ** Reconciliation *)

Lemma Ecosystem_eqb_spec (a b : Ecosystem) : reflect (a = b) (Ecosystem_eqb a b).
Proof. destruct a, b; constructor; (reflexivity || discriminate). Qed.

(** The key string stands for the pair of the ecosystem and the name:
    no ecosystem identifier has a colon. *)
Lemma change_key_inj (a b : DependencyChange) :
  change_key a = change_key b <-> ecosystem a = ecosystem b /\ name a = name b.
Proof.
  unfold change_key. split.
  - destruct (ecosystem a), (ecosystem b); simpl; intros H;
      try discriminate H; injection H as H; auto.
  - intros [-> ->]. reflexivity.
Qed.

Lemma same_package_key (a b : DependencyChange) :
  same_package a b = String.eqb (change_key a) (change_key b).
Proof.
  unfold same_package.
  destruct (String.eqb_spec (change_key a) (change_key b)) as [H|H].
  - apply change_key_inj in H as [He Hn]. rewrite He, Hn, String.eqb_refl.
    now destruct (Ecosystem_eqb_spec (ecosystem b) (ecosystem b)).
  - destruct (Ecosystem_eqb_spec (ecosystem a) (ecosystem b)) as [He|He];
      [|reflexivity].
    destruct (String.eqb_spec (name a) (name b)) as [Hn|Hn]; [|reflexivity].
    exfalso. apply H. now apply change_key_inj.
Qed.

Lemma includes_prefix (s p : string) :
  String.prefix p s = true -> Js.includes s p = true.
Proof. destruct s; simpl; intros ->; reflexivity. Qed.

Lemma includes_cons (c : ascii) (s p : string) :
  Js.includes s p = true -> Js.includes (String c s) p = true.
Proof. simpl. intros ->. apply orb_true_r. Qed.

Lemma includes_lock (s : string) :
  Js.includes s ".lock" = true -> Js.includes s "lock" = true.
Proof.
  induction s as [|c s IH]; [discriminate|].
  change (Js.includes (String c s) ".lock")
    with (String.prefix ".lock" (String c s) || Js.includes s ".lock").
  intros H. apply orb_true_iff in H as [H|H].
  - apply includes_cons, includes_prefix.
    change (String.prefix ".lock" (String c s))
      with (if ascii_dec "." c then String.prefix "lock" s else false) in H.
    destruct (ascii_dec "." c); [exact H|discriminate H].
  - now apply includes_cons, IH.
Qed.

(** The test the reconciler makes is the substring test of the
    specification. *)
Lemma isLockFile_includes (c : DependencyChange) :
  isLockFile c = Js.includes (file c) "lock".
Proof.
  unfold isLockFile. destruct (Js.includes (file c) "lock") eqn:E; [reflexivity|].
  destruct (Js.includes (file c) ".lock") eqn:E'; [|reflexivity].
  apply includes_lock in E'. congruence.
Qed.

Lemma In_map_set {V : Type} (m : JSMap V) (k0 : string) (v0 : V) (k : string) (v : V) :
  In (k, v) (map_set m k0 v0) -> (k = k0 /\ v = v0) \/ In (k, v) m.
Proof.
  induction m as [|[k' v'] m IH]; simpl.
  - intros [[= <- <-]|[]]. now left.
  - destruct (String.eqb_spec k' k0) as [->|Hne]; simpl.
    + intros [[= <- <-]|H]; [now left|right; now right].
    + intros [H|H]; [right; now left|].
      destruct (IH H) as [H'|H']; [now left|right; now right].
Qed.

Lemma dedup_step_get (seen : JSMap DependencyChange) (c : DependencyChange) (k : string) :
  map_get (dedup_step seen c) k
  = if String.eqb (change_key c) k then prefer (map_get seen k) c
    else map_get seen k.
Proof.
  unfold dedup_step, prefer.
  destruct (String.eqb_spec (change_key c) k) as [<-|Hne].
  - destruct (map_get seen (change_key c)) as [e|] eqn:E.
    + destruct (isLockFile e && negb (isLockFile c)).
      * now rewrite map_get_set, String.eqb_refl.
      * exact E.
    + now rewrite map_get_set, String.eqb_refl.
  - destruct (map_get seen (change_key c)) as [e|].
    + destruct (isLockFile e && negb (isLockFile c)); [|reflexivity].
      rewrite map_get_set. now destruct (String.eqb_spec (change_key c) k).
    + rewrite map_get_set. now destruct (String.eqb_spec (change_key c) k).
Qed.

Lemma keyed_step (seen : JSMap DependencyChange) (c : DependencyChange) :
  keyed seen -> keyed (dedup_step seen c).
Proof.
  intros [Hwf Hk]. unfold dedup_step.
  assert (Hset : keyed (map_set seen (change_key c) c)).
  { split; [now apply wf_map_set|].
    intros k c' H. apply In_map_set in H as [[-> ->]|H]; [reflexivity|].
    now apply Hk. }
  destruct (map_get seen (change_key c)) as [e|]; [|exact Hset].
  destruct (isLockFile e && negb (isLockFile c)); [exact Hset|now split].
Qed.

Lemma keyed_fold (l : list DependencyChange) (seen : JSMap DependencyChange) :
  keyed seen -> keyed (fold_left dedup_step l seen).
Proof.
  revert seen. induction l as [|c l IH]; simpl; intros seen H; [exact H|].
  apply IH. now apply keyed_step.
Qed.

Lemma dedup_fold_get (l : list DependencyChange) (seen : JSMap DependencyChange)
      (k : string) :
  map_get (fold_left dedup_step l seen) k
  = fold_left (fun e c => if String.eqb (change_key c) k then prefer e c else e)
              l (map_get seen k).
Proof.
  revert seen. induction l as [|c l IH]; simpl; intros seen; [reflexivity|].
  now rewrite IH, dedup_step_get.
Qed.

(** The loop keeps the change the specification names. *)
Lemma prefer_fold (l : list DependencyChange) (k : string)
      (e : option DependencyChange) :
  fold_left (fun e c => if String.eqb (change_key c) k then prefer e c else e) l e
  = match e with
    | None => survivor l k
    | Some x =>
        if isLockFile x then
          match find (fun c => String.eqb (change_key c) k && negb (isLockFile c)) l with
          | Some c => Some c
          | None => Some x
          end
        else Some x
    end.
Proof.
  revert e. induction l as [|c l IH]; intros e.
  - simpl. destruct e as [x|]; [now destruct (isLockFile x)|reflexivity].
  - cbn [fold_left]. rewrite IH. unfold survivor. cbn [find].
    destruct (String.eqb (change_key c) k); cbn [andb].
    + unfold prefer. destruct e as [x|].
      * destruct (isLockFile x) eqn:Ex, (isLockFile c) eqn:Ec;
          cbn [andb negb]; rewrite ?Ex, ?Ec; reflexivity.
      * destruct (isLockFile c) eqn:Ec; cbn [negb]; rewrite ?Ec; reflexivity.
    + destruct e as [x|]; reflexivity.
Qed.

Lemma deduplicateChanges_get (l : list DependencyChange) (k : string) :
  map_get (fold_left dedup_step l []) k = survivor l k.
Proof. now rewrite dedup_fold_get, prefer_fold. Qed.

(** The values of a keyed map that bear a given key. *)
Lemma keyed_filter (m : JSMap DependencyChange) (k : string) :
  keyed m ->
  filter (fun c => String.eqb (change_key c) k) (map snd m)
  = match map_get m k with Some c => [c] | None => [] end.
Proof.
  intros [Hwf Hk]. unfold wf_map in Hwf.
  induction m as [|[k' c'] m IH]; simpl; [reflexivity|].
  inversion Hwf as [|? ? Hni Hnd]; subst.
  rewrite (Hk k' c') by now left.
  rewrite IH; [|exact Hnd|intros; apply Hk; now right].
  destruct (String.eqb_spec k' k) as [->|Hne]; [|reflexivity].
  now rewrite (map_get_None _ _ Hni).
Qed.

Lemma keyed_keys (m : JSMap DependencyChange) :
  keyed m -> map change_key (map snd m) = keys m.
Proof.
  intros [_ Hk]. unfold keys. induction m as [|[k c] m IH]; simpl; [reflexivity|].
  rewrite (Hk k c) by now left. f_equal. apply IH. intros; apply Hk; now right.
Qed.

Lemma keyed_nil : keyed [].
Proof. split; [constructor|intros k c []]. Qed.

(** For every key, the reconciled list holds the survivor and nothing
    else. *)
Lemma deduplicateChanges_by_key (changes : list DependencyChange) (k : string) :
  filter (fun c => String.eqb (change_key c) k) (deduplicateChanges changes)
  = match survivor changes k with Some c => [c] | None => [] end.
Proof.
  unfold deduplicateChanges.
  rewrite keyed_filter by (apply keyed_fold, keyed_nil).
  now rewrite deduplicateChanges_get.
Qed.

Lemma deduplicateChanges_keys_NoDup (changes : list DependencyChange) :
  NoDup (map change_key (deduplicateChanges changes)).
Proof.
  unfold deduplicateChanges.
  pose proof (keyed_fold changes keyed_nil) as H.
  rewrite (keyed_keys H). apply H.
Qed.

Lemma find_skip {A : Type} (p : A -> bool) (l1 l2 : list A) :
  (forall x, In x l1 -> p x = false) -> find p (l1 ++ l2) = find p l2.
Proof.
  induction l1 as [|a l1 IH]; simpl; intros H; [reflexivity|].
  rewrite (H a) by now left. apply IH. intros x Hx. apply H. now right.
Qed.

Lemma find_none {A : Type} (p : A -> bool) (l : list A) :
  (forall x, In x l -> p x = false) -> find p l = None.
Proof.
  intros H. rewrite <- (app_nil_r l). now rewrite find_skip.
Qed.

Lemma NoDup_map_coarser {A B C : Type} (f : A -> B) (g : A -> C) (l : list A) :
  (forall a b, f a = f b -> g a = g b) -> NoDup (map g l) -> NoDup (map f l).
Proof.
  intros Hfg. induction l as [|a l IH]; simpl; intros H; [constructor|].
  inversion H as [|? ? Hni Hnd]; subst. constructor; [|now apply IH].
  intros Hin. apply Hni. apply in_map_iff in Hin as [b [Hb Hin]].
  apply in_map_iff. exists b. split; [|exact Hin]. symmetry. apply Hfg. now symmetry.
Qed.

(** The survivor of two changes that collide on a key no other change
    has. *)
Lemma survivor_pair (before between after : list DependencyChange)
      (c1 c2 : DependencyChange) :
  change_key c2 = change_key c1 ->
  (forall c, In c (before ++ between ++ after) -> change_key c <> change_key c1) ->
  survivor (before ++ c1 :: between ++ c2 :: after) (change_key c1)
  = Some (if isLockFile c1 && negb (isLockFile c2) then c2 else c1).
Proof.
  intros H12 Hothers.
  assert (Hoff : forall (q : DependencyChange -> bool) l,
             (forall c, In c l -> In c (before ++ between ++ after)) ->
             forall c, In c l ->
                       String.eqb (change_key c) (change_key c1) && q c = false).
  { intros q l Hl c Hc. apply andb_false_iff. left.
    apply String.eqb_neq. apply Hothers. now apply Hl. }
  assert (Hb : forall c, In c before -> In c (before ++ between ++ after))
    by (intros; apply in_or_app; now left).
  assert (Hm : forall c, In c between -> In c (before ++ between ++ after))
    by (intros; apply in_or_app; right; apply in_or_app; now left).
  assert (Ha : forall c, In c after -> In c (before ++ between ++ after))
    by (intros; apply in_or_app; right; apply in_or_app; now right).
  pose proof (Hoff (fun _ => true)) as Hoff'.
  unfold survivor.
  rewrite !(find_skip _ before) by first [now apply Hoff | intros c Hc;
    rewrite <- (andb_true_r (String.eqb _ _)); now apply (Hoff' before)].
  cbn [find]. rewrite String.eqb_refl. cbn [andb].
  destruct (isLockFile c1) eqn:E1; cbn [negb andb]; [|reflexivity].
  rewrite !(find_skip _ between) by first [now apply Hoff | intros c Hc;
    rewrite <- (andb_true_r (String.eqb _ _)); now apply (Hoff' between)].
  cbn [find]. rewrite H12, String.eqb_refl. cbn [andb].
  destruct (isLockFile c2) eqn:E2; cbn [negb]; [|reflexivity].
  rewrite find_none; [reflexivity|]. now apply Hoff.
Qed.

(** C2. The reconciled list has at most one change per ecosystem and
    name.  Of two changes that collide, the one whose file path does not
    contain [lock] survives; where both paths or neither contain it, the
    first of the two in input order survives.  In particular, of a
    change from a manifest and one from a lock file for the same package,
    exactly the manifest-derived one survives, in whichever order they
    come. *)
Theorem deduplicateChanges_one_per_package :
  forall changes : list DependencyChange,
    NoDup (map (fun c => (ecosystem c, name c)) (deduplicateChanges changes))
    /\ (forall (before between after : list DependencyChange)
               (c1 c2 : DependencyChange),
           changes = before ++ c1 :: between ++ c2 :: after ->
           ecosystem c2 = ecosystem c1 -> name c2 = name c1 ->
           (forall c, In c (before ++ between ++ after) ->
                      ~ (ecosystem c = ecosystem c1 /\ name c = name c1)) ->
           filter (same_package c1) (deduplicateChanges changes)
           = [if Js.includes (file c1) "lock" && negb (Js.includes (file c2) "lock")
              then c2 else c1])
    /\ (forall manifest lock : DependencyChange,
           ecosystem lock = ecosystem manifest -> name lock = name manifest ->
           Js.includes (file manifest) "lock" = false ->
           Js.includes (file lock) "lock" = true ->
           (changes = [manifest; lock] \/ changes = [lock; manifest]) ->
           deduplicateChanges changes = [manifest]).
Proof.
  intros changes. split; [|split].
  - apply NoDup_map_coarser with (g := change_key).
    + intros a b [= He Hn]. now apply change_key_inj.
    + apply deduplicateChanges_keys_NoDup.
  - intros before between after c1 c2 -> He Hn Hothers.
    rewrite <- !isLockFile_includes.
    rewrite (filter_ext _ (fun c => String.eqb (change_key c) (change_key c1))).
    + rewrite deduplicateChanges_by_key, survivor_pair; [reflexivity| |].
      * now apply change_key_inj.
      * intros c Hc Hk. apply (Hothers c Hc). now apply change_key_inj.
    + intros c. rewrite same_package_key. apply String.eqb_sym.
  - intros m l He Hn Hm Hl Hch.
    assert (Hk : change_key l = change_key m) by now apply change_key_inj.
    unfold deduplicateChanges.
    destruct Hch as [-> | ->]; cbn [fold_left]; unfold dedup_step at 2;
      cbn [map_get map_set]; unfold dedup_step; cbn [map_get].
    + rewrite <- Hk, String.eqb_refl, !isLockFile_includes, Hm. reflexivity.
    + rewrite Hk, String.eqb_refl, !isLockFile_includes, Hm, Hl.
      cbn [andb negb map_set]. now rewrite String.eqb_refl.
Qed.

Lemma deduplicateChanges_one_per_package_witness :
  let manifest := mkChange "foo" node "package.json" (Some "^1.0.0") (Some "^2.0.0")
                           major production in
  let lock := mkChange "foo" node "package-lock.json" (Some "1.0.3") (Some "2.0.1")
                       major production in
  ecosystem lock = ecosystem manifest
  /\ name lock = name manifest
  /\ Js.includes (file manifest) "lock" = false
  /\ Js.includes (file lock) "lock" = true
  /\ deduplicateChanges [lock; manifest] = [manifest].
Proof.
  intros manifest lock.
  assert (He : ecosystem lock = ecosystem manifest) by reflexivity.
  assert (Hn : name lock = name manifest) by reflexivity.
  assert (Hm : Js.includes (file manifest) "lock" = false) by reflexivity.
  assert (Hl : Js.includes (file lock) "lock" = true) by reflexivity.
  repeat (split; [assumption|]).
  exact (proj2 (proj2 (deduplicateChanges_one_per_package [lock; manifest]))
               manifest lock He Hn Hm Hl (or_intror eq_refl)).
Defined.

(** ** Depth guards *)

(** [Node.checkJsonDepth] answers [true] exactly when the depth counter,
    which moves outside string literals only, stays between zero and the
    maximum after every character. *)
Lemma checkJsonDepth_from_depths (maxDepth : Z) (content : string) :
  forall (depth : Z) (inString escape : bool),
    (0 <= depth <= maxDepth)%Z ->
    Node.checkJsonDepth_from maxDepth depth inString escape content
    = forallb (depth_ok maxDepth) (json_depths (depth, inString, escape) content).
Proof.
  induction content as [|c s IH]; intros depth inString escape Hd; [reflexivity|].
  cbn [Node.checkJsonDepth_from json_depths json_scan].
  assert (Hok : depth_ok maxDepth depth = true)
    by (unfold depth_ok; apply andb_true_iff; split; apply Z.leb_le; lia).
  destruct escape; [cbn [fst forallb]; rewrite Hok; now apply IH|].
  destruct (Ascii.eqb c "\" && inString);
    [cbn [fst forallb]; rewrite Hok; now apply IH|].
  destruct (Ascii.eqb c dquote); [cbn [fst forallb]; rewrite Hok; now apply IH|].
  destruct inString; [cbn [fst forallb]; rewrite Hok; now apply IH|].
  destruct (Ascii.eqb c "{" || Ascii.eqb c "[").
  - cbn [fst forallb]. unfold depth_ok at 1.
    destruct (Z.ltb_spec maxDepth (depth + 1)) as [Hlt|Hge].
    + replace (depth + 1 <=? maxDepth)%Z with false
        by (symmetry; apply Z.leb_gt; lia).
      now rewrite andb_false_r.
    + replace (0 <=? depth + 1)%Z with true by (symmetry; apply Z.leb_le; lia).
      replace (depth + 1 <=? maxDepth)%Z with true by (symmetry; apply Z.leb_le; lia).
      cbn [andb]. apply IH. lia.
  - destruct (Ascii.eqb c "}" || Ascii.eqb c "]").
    + cbn [fst forallb]. unfold depth_ok at 1.
      destruct (Z.ltb_spec (depth - 1) 0) as [Hlt|Hge].
      * replace (0 <=? depth - 1)%Z with false by (symmetry; apply Z.leb_gt; lia).
        reflexivity.
      * replace (0 <=? depth - 1)%Z with true by (symmetry; apply Z.leb_le; lia).
        replace (depth - 1 <=? maxDepth)%Z with true
          by (symmetry; apply Z.leb_le; lia).
        cbn [andb]. apply IH. lia.
    + cbn [fst forallb]. rewrite Hok. now apply IH.
Qed.

Lemma checkJsonDepth_depths (content : string) (maxDepth : Z) :
  (0 <= maxDepth)%Z ->
  Node.checkJsonDepth content maxDepth
  = forallb (depth_ok maxDepth) (json_depths (0%Z, false, false) content).
Proof. intros H. apply checkJsonDepth_from_depths. lia. Qed.

(** Inside a string literal the counter of [Node.checkJsonDepth] does
    not move, whatever brackets the literal holds. *)
Lemma json_depths_in_string (s : string) (depth : Z) (tail : string) :
  all_chars plain_char s = true ->
  json_depths (depth, true, false) (s ++ String dquote tail)%string
  = repeat depth (String.length s) ++ depth :: json_depths (depth, false, false) tail.
Proof.
  induction s as [|c s IH]; intros Hs.
  - reflexivity.
  - cbn [all_chars] in Hs. apply andb_true_iff in Hs as [Hc Hs].
    unfold plain_char in Hc. apply andb_true_iff in Hc as [Hq Hb].
    apply negb_true_iff in Hq, Hb.
    cbn [String.append json_depths json_scan String.length repeat app].
    rewrite Hb, Hq. cbn [andb fst]. f_equal. now apply IH.
Qed.

(** A string literal of brackets passes [Node.checkJsonDepth]. *)
Lemma checkJsonDepth_quoted (s : string) (maxDepth : Z) :
  (0 <= maxDepth)%Z -> all_chars plain_char s = true ->
  Node.checkJsonDepth (quoted s) maxDepth = true.
Proof.
  intros Hmax Hs. rewrite checkJsonDepth_depths by exact Hmax.
  unfold quoted.
  change (json_depths (0%Z, false, false) (String dquote (s ++ String dquote "")))
    with (0%Z :: json_depths (0%Z, true, false) (s ++ String dquote "")).
  cbn [forallb].
  rewrite (json_depths_in_string _ 0 EmptyString Hs).
  assert (H0 : depth_ok maxDepth 0 = true)
    by (unfold depth_ok; apply andb_true_iff; split; apply Z.leb_le; lia).
  rewrite H0. cbn [andb]. rewrite forallb_app. cbn [json_depths forallb].
  rewrite H0. cbn [andb]. rewrite andb_true_r.
  apply forallb_forall. intros d Hd. apply repeat_spec in Hd. now subst.
Qed.

(** Where a depth guard answers [false], the parser returns the empty
    list whatever the loader would have made of the content. *)
Lemma parsePackageJson_guarded (JSON_parse : string -> res jsval) (content : string) :
  Node.checkJsonDepth content Node.MAX_JSON_DEPTH = false ->
  Node.parsePackageJson JSON_parse content = Ok [].
Proof. intros H. unfold Node.parsePackageJson. now rewrite H. Qed.

Lemma python_guarded (toml_parse : string -> res jsval) (content : string) :
  Python.checkNestingDepth content Python.MAX_NESTING_DEPTH = false ->
  Python.parsePyprojectToml toml_parse content = Ok []
  /\ Python.parsePipfile toml_parse content = Ok []
  /\ Python.parsePoetryLock toml_parse content = Ok [].
Proof.
  intros H.
  unfold Python.parsePyprojectToml, Python.parsePipfile, Python.parsePoetryLock,
    Python.safeTomlParse.
  rewrite H. repeat split.
Qed.

Lemma rust_guarded (toml_parse : string -> res jsval) (content : string) :
  Rust.checkNestingDepth content Rust.MAX_NESTING_DEPTH = false ->
  Rust.parseCargoToml toml_parse content = Ok []
  /\ Rust.parseCargoLock toml_parse content = Ok [].
Proof.
  intros H. unfold Rust.parseCargoToml, Rust.parseCargoLock, Rust.safeTomlParse.
  rewrite H. split; reflexivity.
Qed.

(** C6. A depth guard is meant to leave the brackets of string literals
    out of the count and to fail when the counter goes below zero.  The
    guard of [python.ts] does neither: a closing bracket with no open one
    passes it, so that the TOML parser is called, and twenty-one brackets
    inside one TOML string literal make it fail.  The guards of
    [node.ts] and [rust.ts] do both. *)
Theorem python_checkNestingDepth_divergence :
  let unmatched := "]" in
  let literal := "x = '[[[[[[[[[[[[[[[[[[[[['" in
  Python.checkNestingDepth unmatched Python.MAX_NESTING_DEPTH = true
  /\ (forall toml_parse : string -> res jsval,
         Python.safeTomlParse toml_parse unmatched = toml_parse unmatched)
  /\ Python.checkNestingDepth literal Python.MAX_NESTING_DEPTH = false
  /\ (forall toml_parse : string -> res jsval,
         Python.parsePipfile toml_parse literal = Ok [])
  /\ Node.checkJsonDepth unmatched Node.MAX_JSON_DEPTH = false
  /\ Node.checkJsonDepth (quoted "[[[[[[[[[[[[[[[[[[[[[") Node.MAX_JSON_DEPTH = true
  /\ Rust.checkNestingDepth unmatched Rust.MAX_NESTING_DEPTH = false
  /\ Rust.checkNestingDepth literal Rust.MAX_NESTING_DEPTH = true.
Proof.
  intros unmatched literal.
  split; [reflexivity|]. split; [reflexivity|]. split; [reflexivity|].
  split; [intros tp; now apply python_guarded|].
  repeat split; reflexivity.
Qed.

(** ** Parsers never throw *)

Lemma try_catch_returns {A : Type} (body : res A) (handler : A) :
  exists a, try_catch body handler = Ok a.
Proof. destruct body as [a|e]; [now exists a|now exists handler]. Qed.

Lemma all_parsers_return (L : Loaders) (p : Parser) (content : string) :
  In p (all_parsers L) -> exists groups, p content = Ok groups.
Proof.
  unfold all_parsers, DEPENDENCY_FILE_PATTERNS. cbn [map app parser In].
  intros H.
  repeat (destruct H as [<-|H]; [apply try_catch_returns|]).
  destruct H.
Qed.

Lemma text_parsers_empty (p : Parser) :
  In p text_parsers -> p EmptyString = Ok [].
Proof.
  unfold text_parsers. cbn [In]. intros H.
  repeat (destruct H as [<-|H]; [vm_compute; reflexivity|]).
  destruct H.
Qed.

Lemma toml_parsers_throw (toml_parse : string -> res jsval) (content : string)
      (e : exn) :
  toml_parse content = Throw e ->
  Python.parsePyprojectToml toml_parse content = Ok []
  /\ Python.parsePipfile toml_parse content = Ok []
  /\ Python.parsePoetryLock toml_parse content = Ok []
  /\ Rust.parseCargoToml toml_parse content = Ok []
  /\ Rust.parseCargoLock toml_parse content = Ok [].
Proof.
  intros H.
  unfold Python.parsePyprojectToml, Python.parsePipfile, Python.parsePoetryLock,
    Python.safeTomlParse, Rust.parseCargoToml, Rust.parseCargoLock,
    Rust.safeTomlParse.
  rewrite H.
  destruct (negb (Python.checkNestingDepth content Python.MAX_NESTING_DEPTH));
    destruct (negb (Rust.checkNestingDepth content Rust.MAX_NESTING_DEPTH));
    repeat split.
Qed.

Lemma toml_parsers_empty_document (toml_parse : string -> res jsval) (content : string) :
  toml_parse content = Ok (JObj []) ->
  Python.parsePyprojectToml toml_parse content = Ok []
  /\ Python.parsePipfile toml_parse content = Ok []
  /\ Python.parsePoetryLock toml_parse content = Ok []
  /\ Rust.parseCargoToml toml_parse content = Ok []
  /\ Rust.parseCargoLock toml_parse content = Ok [].
Proof.
  intros H.
  unfold Python.parsePyprojectToml, Python.parsePipfile, Python.parsePoetryLock,
    Python.safeTomlParse, Rust.parseCargoToml, Rust.parseCargoLock,
    Rust.safeTomlParse.
  rewrite H.
  destruct (negb (Python.checkNestingDepth content Python.MAX_NESTING_DEPTH));
    destruct (negb (Rust.checkNestingDepth content Rust.MAX_NESTING_DEPTH));
    repeat split.
Qed.

Lemma xml_parsers_no_document (parseString : string -> res xml_call) (content : string) :
  match parseString content with
  | Throw _ | Ok NoCallback | Ok (Callback (Some _) _) | Ok (Callback None JNull) => True
  | _ => False
  end ->
  Java.parsePomXml parseString content = Ok []
  /\ Dotnet.parseCsproj parseString content = Ok []
  /\ Dotnet.parsePackagesConfig parseString content = Ok [].
Proof.
  unfold Dotnet.parsePackagesConfig, Java.parsePomXml, Dotnet.parseCsproj.
  destruct (parseString content) as [[[e|] [| | | | | |]|]|e];
    try contradiction; intros _; repeat split.
Qed.

(** C5. Every parser returns, on every input and whatever the loaders
    do ([all_parsers_return]), and a parser with a depth guard returns
    the empty list on a file that is nested too deep.
    [parsePackageLockJson] is meant to do the same and does not: it
    hands its file to [JSON.parse] without the guard that
    [parsePackageJson] has.  On a [package-lock.json] of twenty-one
    levels, which [checkJsonDepth] turns down and on which
    [parsePackageJson] returns the empty list, it returns the package it
    finds. *)
Theorem parsePackageLockJson_unguarded :
  let JSON_parse := fun content : string =>
                      if String.eqb content deep_lock_text then Ok deep_lock
                      else Throw SyntaxError in
  Node.checkJsonDepth deep_lock_text Node.MAX_JSON_DEPTH = false
  /\ Node.parsePackageJson JSON_parse deep_lock_text = Ok []
  /\ Node.parsePackageLockJson JSON_parse deep_lock_text
     = Ok [mkParsed [("a", JStr "1.0.0")] production].
Proof. vm_compute. repeat split. Qed.

(** ** Loops in the result monad *)

Lemma bind_Ok {A B : Type} (m : res A) (f : A -> res B) (b : B) :
  bind m f = Ok b -> exists a, m = Ok a /\ f a = Ok b.
Proof. destruct m as [a|e]; simpl; [intros H; now exists a|discriminate]. Qed.

Lemma try_catch_Ok {A : Type} (body : res A) (handler a : A) :
  try_catch body handler = Ok a -> body = Ok a \/ a = handler.
Proof. destruct body; simpl; intros [= <-]; auto. Qed.

Lemma fold_left_inv {A S : Type} (P : S -> Prop) (f : S -> A -> S) (l : list A) (s : S) :
  (forall s a, P s -> P (f s a)) -> P s -> P (fold_left f l s).
Proof.
  intros Hf. revert s. induction l as [|a l IH]; simpl; intros s Hs; [exact Hs|].
  apply IH. now apply Hf.
Qed.

Lemma foldM_inv {A S : Type} (P : S -> Prop) (f : S -> A -> res S) (l : list A) :
  (forall s a s', P s -> f s a = Ok s' -> P s') ->
  forall s s', P s -> foldM f l s = Ok s' -> P s'.
Proof.
  intros Hf. induction l as [|a l IH]; simpl; intros s s' Hs H.
  - now injection H as <-.
  - apply bind_Ok in H as [s1 [H1 H2]]. apply (IH s1 s'); [|exact H2].
    now apply (Hf s a).
Qed.

Lemma foldM_break_inv {A S : Type} (P : S -> Prop) (f : S -> A -> res (step S))
      (l : list A) :
  (forall s a r, P s -> f s a = Ok r ->
                 match r with Next s' | Break s' => P s' end) ->
  forall s s', P s -> foldM_break f l s = Ok s' -> P s'.
Proof.
  intros Hf. induction l as [|a l IH]; simpl; intros s s' Hs H.
  - now injection H as <-.
  - apply bind_Ok in H as [r [H1 H2]]. specialize (Hf s a r Hs H1).
    destruct r as [s1|s1].
    + now apply (IH s1 s').
    + now injection H2 as <-.
Qed.

(** In hypothesis [H], take the next step of a computation apart: [x]
    is what the step returns, [E] says so. *)
Tactic Notation "step_in" hyp(H) "as" ident(x) ident(E) :=
  apply bind_Ok in H as [x [E H]].

(** ** Names of Python packages *)

Lemma lower_char_idem (c : ascii) : Js.lower_char (Js.lower_char c) = Js.lower_char c.
Proof.
  destruct c as [[] [] [] [] [] [] [] []]; vm_compute; reflexivity.
Qed.

Lemma toLowerCase_idem (s : string) : Js.toLowerCase (Js.toLowerCase s) = Js.toLowerCase s.
Proof.
  induction s as [|c s IH]; simpl; [reflexivity|]. now rewrite lower_char_idem, IH.
Qed.

Lemma lower_map_nil : lower_map [].
Proof. split; [constructor|intros k []]. Qed.

Lemma lower_map_set (m : JSMap jsval) (k : string) (v : jsval) :
  lower_map m -> lower_map (map_set m (Js.toLowerCase k) v).
Proof.
  intros [Hwf Hl]. split; [now apply wf_map_set|].
  intros k'. rewrite keys_map_set.
  destruct (map_has m (Js.toLowerCase k)); [apply Hl|].
  intros H. apply in_app_or in H as [H|[<-|[]]]; [now apply Hl|].
  apply toLowerCase_idem.
Qed.

Lemma lower_groups_nil : lower_groups [].
Proof. intros g []. Qed.

Lemma lower_groups_push (results : list ParsedDependencies) (deps : JSMap jsval)
      (t : DependencyType) :
  lower_groups results -> lower_map deps -> lower_groups (push_group results deps t).
Proof.
  intros Hr Hd. unfold push_group. destruct (0 <? map_size deps)%nat; [|exact Hr].
  intros g Hg. apply in_app_or in Hg as [Hg|[<-|[]]]; [now apply Hr|exact Hd].
Qed.

Lemma lower_groups_single (deps : JSMap jsval) (t : DependencyType) :
  lower_map deps -> lower_groups [mkParsed deps t].
Proof. intros Hd g [<-|[]]. exact Hd. Qed.

Lemma requirement_line_lower (deps : JSMap jsval) (line : string) :
  lower_map deps -> lower_map (Python.requirement_line deps line).
Proof.
  intros H. unfold Python.requirement_line.
  repeat match goal with
         | |- lower_map (if ?b then _ else _) => destruct b
         | |- lower_map (match ?x with Some _ => _ | None => _ end) => destruct x
         | |- lower_map (map_set _ (Js.toLowerCase _) _) => apply lower_map_set
         end; assumption.
Qed.

Lemma parseRequirementsTxt_lower (content : string) (groups : list ParsedDependencies) :
  Python.parseRequirementsTxt content = Ok groups -> lower_groups groups.
Proof.
  unfold Python.parseRequirementsTxt. intros H.
  apply try_catch_Ok in H as [H| ->]; [|apply lower_groups_nil].
  destruct (map_size _ =? 0)%nat; injection H as <-; [apply lower_groups_nil|].
  apply lower_groups_single, fold_left_inv; [|apply lower_map_nil].
  intros s a. apply requirement_line_lower.
Qed.

Section PythonNames.
Variable toml_parse : string -> res jsval.

Lemma pep621_dep_lower (st : JSMap jsval * nat) (dep : jsval)
      (r : step (JSMap jsval * nat)) :
  lower_map (fst st) -> Python.pep621_dep st dep = Ok r ->
  match r with Next s' | Break s' => lower_map (fst s') end.
Proof.
  destruct st as [deps total]. cbn [fst]. intros Hd. unfold Python.pep621_dep.
  destruct (Python.MAX_DEPENDENCIES <=? total)%nat; [now intros [= <-]|].
  intros H. step_in H as d Ed.
  destruct (Regex.exec Python.re_pep621 d) as [m|]; [|now injection H as <-].
  destruct (Regex.group m 1) as [g1|]; [|now injection H as <-].
  injection H as <-. cbn [fst]. now apply lower_map_set.
Qed.

Lemma pep621_deps_lower (deps : list jsval) (st st' : JSMap jsval * nat) :
  lower_map (fst st) -> foldM_break Python.pep621_dep deps st = Ok st' ->
  lower_map (fst st').
Proof.
  intros Hd H.
  refine (@foldM_break_inv _ _ (fun s => lower_map (fst s)) Python.pep621_dep deps
                           _ st st' Hd H).
  intros s a r. apply pep621_dep_lower.
Qed.

Lemma pep621_group_lower (st : JSMap jsval * nat) (group : jsval)
      (st' : JSMap jsval * nat) :
  lower_map (fst st) -> Python.pep621_group st group = Ok st' -> lower_map (fst st').
Proof.
  intros Hd H. unfold Python.pep621_group in H. step_in H as deps Ed.
  exact (@pep621_deps_lower deps st st' Hd H).
Qed.

Lemma table_entry_lower (skip_python : bool) (deps : JSMap jsval)
      (entry : string * jsval) (deps' : JSMap jsval) :
  lower_map deps -> Python.table_entry skip_python deps entry = Ok deps' ->
  lower_map deps'.
Proof.
  intros Hd. unfold Python.table_entry. destruct entry as [n value].
  destruct (skip_python && _); [now intros [= <-]|].
  intros H. step_in H as version Ev. injection H as <-. now apply lower_map_set.
Qed.

Lemma table_group_lower (skip_python : bool) (table : jsval) (t : DependencyType)
      (results results' : list ParsedDependencies) :
  lower_groups results ->
  Python.table_group skip_python table t results = Ok results' ->
  lower_groups results'.
Proof.
  intros Hr. unfold Python.table_group.
  destruct (Val.truthy table); [|now intros [= <-]].
  intros H. step_in H as es Ees. step_in H as deps Ed. injection H as <-.
  apply lower_groups_push; [exact Hr|].
  refine (@foldM_inv _ _ lower_map (Python.table_entry skip_python) es
                     _ [] deps lower_map_nil Ed).
  intros s a s'. apply table_entry_lower.
Qed.

Lemma poetry_group_lower (results : list ParsedDependencies) (entry : string * jsval)
      (results' : list ParsedDependencies) :
  lower_groups results -> Python.poetry_group results entry = Ok results' ->
  lower_groups results'.
Proof.
  intros Hr. unfold Python.poetry_group. destruct entry as [groupName group].
  intros H. step_in H as table Et. now apply table_group_lower in H.
Qed.

Lemma parsePyprojectToml_lower (content : string) (groups : list ParsedDependencies) :
  Python.parsePyprojectToml toml_parse content = Ok groups -> lower_groups groups.
Proof.
  unfold Python.parsePyprojectToml. intros H.
  apply try_catch_Ok in H as [H| ->]; [|apply lower_groups_nil].
  step_in H as pyproject Epy.
  destruct (negb (Val.truthy pyproject)); [injection H as <-; apply lower_groups_nil|].
  step_in H as project Eproject.
  step_in H as st1 E1. destruct st1 as [results totalDeps].
  assert (H1 : lower_groups results).
  { destruct (Val.truthy (Val.get_opt project "dependencies")).
    - step_in E1 as ds Eds. step_in E1 as st Est. destruct st as [deps total].
      injection E1 as <- <-.
      apply lower_groups_push; [apply lower_groups_nil|].
      exact (@pep621_deps_lower ds ([], 0) (deps, total) lower_map_nil Est).
    - injection E1 as <- <-. apply lower_groups_nil. }
  step_in H as results2 E2.
  assert (H2 : lower_groups results2).
  { destruct (Val.truthy (Val.get_opt project "optional-dependencies")).
    - step_in E2 as gs Egs. step_in E2 as st Est. destruct st as [devDeps total].
      injection E2 as <-. apply lower_groups_push; [exact H1|].
      refine (@foldM_inv _ _ (fun s => lower_map (fst s)) Python.pep621_group gs
                         _ ([], totalDeps) (devDeps, total) lower_map_nil Est).
      intros s a s'. apply pep621_group_lower.
    - now injection E2 as <-. }
  step_in H as tool Etool.
  destruct (Val.truthy (Val.get_opt tool "poetry")); [|now injection H as <-].
  step_in H as table3 Et3. step_in H as results3 E3.
  apply table_group_lower in E3; [|exact H2].
  step_in H as table4 Et4. step_in H as results4 E4.
  apply table_group_lower in E4; [|exact E3].
  step_in H as pgroups Epg.
  destruct (Val.truthy pgroups); [|now injection H as <-].
  step_in H as es Ees.
  refine (@foldM_inv _ _ lower_groups Python.poetry_group es _ results4 groups E4 H).
  intros s a s'. apply poetry_group_lower.
Qed.

Lemma parsePipfile_lower (content : string) (groups : list ParsedDependencies) :
  Python.parsePipfile toml_parse content = Ok groups -> lower_groups groups.
Proof.
  unfold Python.parsePipfile. intros H.
  apply try_catch_Ok in H as [H| ->]; [|apply lower_groups_nil].
  step_in H as pipfile Epip.
  destruct (negb (Val.truthy pipfile)); [injection H as <-; apply lower_groups_nil|].
  step_in H as table1 Et1. step_in H as results1 E1.
  apply table_group_lower in E1; [|apply lower_groups_nil].
  step_in H as table2 Et2. now apply table_group_lower in H.
Qed.

Lemma poetry_lock_package_lower (st : JSMap jsval * JSMap jsval) (pkg : jsval)
      (st' : JSMap jsval * JSMap jsval) :
  lower_map (fst st) /\ lower_map (snd st) ->
  Python.poetry_lock_package st pkg = Ok st' ->
  lower_map (fst st') /\ lower_map (snd st').
Proof.
  destruct st as [prodDeps devDeps]. cbn [fst snd]. intros [Hp Hd].
  unfold Python.poetry_lock_package. intros H.
  step_in H as category Ec. step_in H as n0 En0. step_in H as n En.
  step_in H as version Ev.
  assert (Hprod : lower_map (map_set prodDeps (Js.toLowerCase n) version))
    by now apply lower_map_set.
  assert (Hdev : lower_map (map_set devDeps (Js.toLowerCase n) version))
    by now apply lower_map_set.
  repeat match type of H with
         | match ?x with _ => _ end = _ => destruct x
         | (if ?b then _ else _) = _ => destruct b
         end; injection H as <-; now split.
Qed.

Lemma parsePoetryLock_lower (content : string) (groups : list ParsedDependencies) :
  Python.parsePoetryLock toml_parse content = Ok groups -> lower_groups groups.
Proof.
  unfold Python.parsePoetryLock. intros H.
  apply try_catch_Ok in H as [H| ->]; [|apply lower_groups_nil].
  step_in H as lock Elock.
  destruct (negb (Val.truthy lock)); [injection H as <-; apply lower_groups_nil|].
  step_in H as packages Epk. step_in H as st Est.
  destruct st as [prodDeps devDeps]. injection H as <-.
  assert (Hst : lower_map prodDeps /\ lower_map devDeps).
  { destruct (Val.truthy packages).
    - step_in Est as pkgs Epkgs.
      refine (@foldM_inv _ _ (fun s => lower_map (fst s) /\ lower_map (snd s))
                         Python.poetry_lock_package pkgs _ ([], []) (prodDeps, devDeps)
                         (conj lower_map_nil lower_map_nil) Est).
      intros s a s'. apply poetry_lock_package_lower.
    - injection Est as <- <-. split; apply lower_map_nil. }
  destruct Hst as [Hp Hd].
  apply lower_groups_push; [|exact Hd].
  apply lower_groups_push; [apply lower_groups_nil|exact Hp].
Qed.

End PythonNames.

Lemma lower_map_NoDup_lower (m : JSMap jsval) :
  lower_map m -> NoDup (map Js.toLowerCase (keys m)).
Proof.
  intros [Hwf Hl]. unfold wf_map in Hwf.
  rewrite (map_ext_in Js.toLowerCase (fun k => k)) by exact Hl.
  now rewrite map_id.
Qed.

(** C10. Every name in every group the four Python parsers return is
    in lower case, and no two entries of a group have names that differ
    in case only. *)
Theorem python_names_lowercase :
  forall (toml_parse : string -> res jsval) (p : Parser) (content : string)
         (groups : list ParsedDependencies) (g : ParsedDependencies),
    In p [Python.parseRequirementsTxt; Python.parsePyprojectToml toml_parse;
          Python.parsePipfile toml_parse; Python.parsePoetryLock toml_parse] ->
    p content = Ok groups ->
    In g groups ->
    (forall k, In k (keys (dependencies g)) -> Js.toLowerCase k = k)
    /\ NoDup (map Js.toLowerCase (keys (dependencies g))).
Proof.
  intros tp p content groups g Hp Hrun Hg.
  assert (H : lower_groups groups).
  { cbn [In] in Hp. destruct Hp as [<-|[<-|[<-|[<-|[]]]]].
    - now apply parseRequirementsTxt_lower with (content := content).
    - now apply parsePyprojectToml_lower with (toml_parse := tp) (content := content).
    - now apply parsePipfile_lower with (toml_parse := tp) (content := content).
    - now apply parsePoetryLock_lower with (toml_parse := tp) (content := content). }
  specialize (H g Hg). split; [apply H|now apply lower_map_NoDup_lower].
Qed.

Lemma python_names_lowercase_witness :
    let toml_parse := fun _ : string => Ok (JObj []) in
    let content := "Django==4.2
  django>=4.3" in
    let g := mkParsed [("django", JStr "4.3")] production in
    In Python.parseRequirementsTxt
       [Python.parseRequirementsTxt; Python.parsePyprojectToml toml_parse;
        Python.parsePipfile toml_parse; Python.parsePoetryLock toml_parse]
    /\ Python.parseRequirementsTxt content = Ok [g]
    /\ In g [g]
    /\ (forall k, In k (keys (dependencies g)) -> Js.toLowerCase k = k)
    /\ NoDup (map Js.toLowerCase (keys (dependencies g))).
Proof.
  intros toml_parse content g.
  assert (Hp : In Python.parseRequirementsTxt
                  [Python.parseRequirementsTxt; Python.parsePyprojectToml toml_parse;
                   Python.parsePipfile toml_parse; Python.parsePoetryLock toml_parse])
    by (left; reflexivity).
  assert (Hrun : Python.parseRequirementsTxt content = Ok [g])
    by (vm_compute; reflexivity).
  assert (Hg : In g [g]) by (left; reflexivity).
  split; [exact Hp|]. split; [exact Hrun|]. split; [exact Hg|].
  exact (@python_names_lowercase toml_parse Python.parseRequirementsTxt content
                                 [g] g Hp Hrun Hg).
Defined.

(** ** The ceiling on the number of entries *)

(** C8. A manifest parser is meant to return at most 5,000 entries.
    [parsePyprojectToml] counts the PEP 621 requirements only: a
    [pyproject.toml] of a hundred Poetry groups of fifty-one
    dependencies each yields 5,100 entries. *)
Theorem parsePyprojectToml_uncapped :
  forall (toml_parse : string -> res jsval) (content : string),
    Python.checkNestingDepth content Python.MAX_NESTING_DEPTH = true ->
    toml_parse content = Ok (poetry_groups 100 51) ->
    exists groups : list ParsedDependencies,
      Python.parsePyprojectToml toml_parse content = Ok groups
      /\ total_entries groups = 100 * 51
      /\ Python.MAX_DEPENDENCIES < total_entries groups.
Proof.
  intros tp content Hguard Hparse.
  unfold Python.parsePyprojectToml, Python.safeTomlParse.
  rewrite Hguard, Hparse.
  eexists. split; [vm_compute; reflexivity|].
  split; [vm_compute; reflexivity|].
  apply Nat.ltb_lt. vm_compute. reflexivity.
Qed.

Lemma parsePyprojectToml_uncapped_witness :
  let toml_parse := fun _ : string => Ok (poetry_groups 100 51) in
  let content := "[tool.poetry.group.g0.dependencies]" in
  Python.checkNestingDepth content Python.MAX_NESTING_DEPTH = true
  /\ toml_parse content = Ok (poetry_groups 100 51)
  /\ exists groups : list ParsedDependencies,
      Python.parsePyprojectToml toml_parse content = Ok groups
      /\ total_entries groups = 100 * 51
      /\ Python.MAX_DEPENDENCIES < total_entries groups.
Proof.
  intros toml_parse content.
  assert (Hguard : Python.checkNestingDepth content Python.MAX_NESTING_DEPTH = true)
    by reflexivity.
  assert (Hparse : toml_parse content = Ok (poetry_groups 100 51)) by reflexivity.
  split; [exact Hguard|]. split; [exact Hparse|].
  exact (parsePyprojectToml_uncapped toml_parse content Hguard Hparse).
Defined.

Lemma map_size_set_le {V : Type} (m : JSMap V) (k : string) (v : V) :
  map_size (map_set m k v) <= S (map_size m).
Proof.
  unfold map_size. induction m as [|[k0 v0] m IH]; simpl; [lia|].
  destruct (String.eqb k0 k); simpl; lia.
Qed.

Lemma total_entries_app (l1 l2 : list ParsedDependencies) :
  total_entries (l1 ++ l2) = total_entries l1 + total_entries l2.
Proof.
  unfold total_entries. induction l1 as [|g l1 IH]; simpl; [reflexivity|].
  rewrite IH. lia.
Qed.

Lemma total_entries_push (results : list ParsedDependencies) (deps : JSMap jsval)
      (t : DependencyType) :
  total_entries (push_group results deps t) = total_entries results + map_size deps.
Proof.
  unfold push_group. destruct (Nat.ltb_spec 0 (map_size deps)) as [H|H].
  - rewrite total_entries_app. simpl. lia.
  - lia.
Qed.

(** The two PEP 621 loops keep their count: with [base] entries counted
    before the loop, the map never holds more than were counted since,
    and the count never passes the ceiling. *)
Lemma pep621_dep_counted (base : nat) (st : JSMap jsval * nat) (dep : jsval)
      (r : step (JSMap jsval * nat)) :
  base + map_size (fst st) <= snd st /\ snd st <= Python.MAX_DEPENDENCIES ->
  Python.pep621_dep st dep = Ok r ->
  match r with
  | Next s' | Break s' =>
      base + map_size (fst s') <= snd s' /\ snd s' <= Python.MAX_DEPENDENCIES
  end.
Proof.
  destruct st as [deps total]. cbn [fst snd]. intros [Hc Hmax].
  unfold Python.pep621_dep.
  destruct (Nat.leb_spec Python.MAX_DEPENDENCIES total) as [Hle|Hlt];
    [intros [= <-]; cbn [fst snd]; lia|].
  intros H. step_in H as d Ed.
  destruct (Regex.exec Python.re_pep621 d) as [m|];
    [|injection H as <-; cbn [fst snd]; lia].
  destruct (Regex.group m 1) as [g1|]; [|injection H as <-; cbn [fst snd]; lia].
  injection H as <-. cbn [fst snd].
  match goal with
  | |- context [map_set deps ?k ?v] => pose proof (map_size_set_le deps k v)
  end.
  lia.
Qed.

Lemma pep621_deps_counted (base : nat) (deps : list jsval) (st st' : JSMap jsval * nat) :
  base + map_size (fst st) <= snd st /\ snd st <= Python.MAX_DEPENDENCIES ->
  foldM_break Python.pep621_dep deps st = Ok st' ->
  base + map_size (fst st') <= snd st' /\ snd st' <= Python.MAX_DEPENDENCIES.
Proof.
  intros Hst H.
  refine (@foldM_break_inv _ _
            (fun s => base + map_size (fst s) <= snd s
                      /\ snd s <= Python.MAX_DEPENDENCIES)
            Python.pep621_dep deps _ st st' Hst H).
  intros s a r. apply pep621_dep_counted.
Qed.

(** Where the document has no Poetry section, [parsePyprojectToml]
    keeps to the ceiling. *)
Lemma parsePyprojectToml_pep621_capped (toml_parse : string -> res jsval)
      (content : string) (groups : list ParsedDependencies) :
  (forall pyproject tool,
      Python.safeTomlParse toml_parse content = Ok pyproject ->
      Val.get pyproject "tool" = Ok tool ->
      Val.truthy (Val.get_opt tool "poetry") = false) ->
  Python.parsePyprojectToml toml_parse content = Ok groups ->
  total_entries groups <= Python.MAX_DEPENDENCIES.
Proof.
  intros Hno. unfold Python.parsePyprojectToml. intros H.
  apply try_catch_Ok in H as [H| ->]; [|cbn; lia].
  step_in H as pyproject Epy.
  destruct (negb (Val.truthy pyproject)); [injection H as <-; cbn; lia|].
  step_in H as project Eproject.
  step_in H as st1 E1. destruct st1 as [results totalDeps].
  assert (H1 : total_entries results <= totalDeps
               /\ totalDeps <= Python.MAX_DEPENDENCIES).
  { destruct (Val.truthy (Val.get_opt project "dependencies")).
    - step_in E1 as ds Eds. step_in E1 as st Est. destruct st as [deps total].
      injection E1 as <- <-. rewrite total_entries_push. cbn [total_entries fold_right].
      apply (@pep621_deps_counted 0 ds ([], 0) (deps, total)); [|exact Est].
      cbn; unfold Python.MAX_DEPENDENCIES; lia.
    - injection E1 as <- <-. cbn; unfold Python.MAX_DEPENDENCIES; lia. }
  step_in H as results2 E2.
  assert (H2 : total_entries results2 <= Python.MAX_DEPENDENCIES).
  { destruct (Val.truthy (Val.get_opt project "optional-dependencies")).
    - step_in E2 as gs Egs. step_in E2 as st Est. destruct st as [devDeps total].
      injection E2 as <-. rewrite total_entries_push.
      assert (Hc : totalDeps + map_size devDeps <= total
                   /\ total <= Python.MAX_DEPENDENCIES).
      { refine (@foldM_inv _ _
                  (fun s => totalDeps + map_size (fst s) <= snd s
                            /\ snd s <= Python.MAX_DEPENDENCIES)
                  Python.pep621_group gs _ ([], totalDeps) (devDeps, total) _ Est).
        - intros s a s' Hs Hg. unfold Python.pep621_group in Hg.
          step_in Hg as ds Eds.
          exact (@pep621_deps_counted totalDeps ds s s' Hs Hg).
        - cbn [fst snd map_size List.length]. lia. }
      lia.
    - injection E2 as <-. lia. }
  step_in H as tool Etool.
  rewrite (Hno pyproject tool Epy Etool) in H. now injection H as <-.
Qed.

(** ** [parsePackageJson] keeps every entry *)

Lemma map_set_fresh {V : Type} (m : JSMap V) (k : string) (v : V) :
  ~ In k (keys m) -> map_set m k v = m ++ [(k, v)].
Proof.
  induction m as [|[k0 v0] m IH]; simpl; intros H; [reflexivity|].
  destruct (String.eqb_spec k0 k) as [->|Hne]; [tauto|].
  rewrite IH; [reflexivity|tauto].
Qed.

Lemma Map_of_fresh {V : Type} (es acc : JSMap V) :
  NoDup (keys acc ++ keys es) ->
  fold_left (fun m e => map_set m (fst e) (snd e)) es acc = acc ++ es.
Proof.
  revert acc. induction es as [|[k v] es IH]; intros acc H; simpl.
  - now rewrite app_nil_r.
  - rewrite map_set_fresh.
    + rewrite IH; [now rewrite <- app_assoc|].
      unfold keys in *. rewrite map_app, <- app_assoc. exact H.
    + intros Hin. apply NoDup_remove_2 in H. apply H.
      apply in_or_app. now left.
Qed.

Lemma package_section_dependencies (k : string) (v : jsval)
      (fields : list (string * jsval)) (results : list ParsedDependencies)
      (t : DependencyType) :
  Node.package_section (JObj [("dependencies", JObj ((k, v) :: fields))])
                       results "dependencies" t
  = Ok (results ++ [mkParsed (Map_of ((k, v) :: fields)) t]).
Proof. reflexivity. Qed.

Lemma package_section_absent (d : jsval) (results : list ParsedDependencies)
      (field : string) (t : DependencyType) :
  In field ["devDependencies"; "optionalDependencies"; "peerDependencies"] ->
  Node.package_section (JObj [("dependencies", d)]) results field t = Ok results.
Proof. cbn [In]. intros [<-|[<-|[<-|[]]]]; reflexivity. Qed.

(** An object of [n] dependencies gives [n] entries, whatever [n]. *)
Lemma parsePackageJson_uncapped (JSON_parse : string -> res jsval)
      (content : string) (k : string) (v : jsval) (fields : list (string * jsval)) :
  Node.checkJsonDepth content Node.MAX_JSON_DEPTH = true ->
  JSON_parse content = Ok (JObj [("dependencies", JObj ((k, v) :: fields))]) ->
  NoDup (k :: map fst fields) ->
  exists groups,
    Node.parsePackageJson JSON_parse content = Ok groups
    /\ total_entries groups = S (List.length fields).
Proof.
  intros Hguard Hparse Hnd. unfold Node.parsePackageJson.
  rewrite Hguard, Hparse. cbn [negb bind].
  rewrite package_section_dependencies. cbn [bind app].
  rewrite !package_section_absent by (cbn [In]; tauto). cbn [bind try_catch].
  unfold Map_of. rewrite (Map_of_fresh ((k, v) :: fields) []) by exact Hnd.
  eexists. split; [reflexivity|].
  unfold total_entries, map_size. simpl. lia.
Qed.

(** ** The repository's unit tests

    The cases of [__tests__/version.test.ts] and of the parser tests
    that read plain text, evaluated on the definitions above.  The
    classifier runs with the model of the [semver] package. *)

Local Abbreviation classify :=
  (determineChangeType Semver.coerce Semver.prerelease Semver.diff).
Local Abbreviation compare :=
  (compareVersions Semver.coerce Semver.prerelease Semver.diff).

Example cleanVersion_removes_common_prefixes :
  map cleanVersion ["^1.0.0"; "~1.0.0"; ">=1.0.0"; "=1.0.0"; "1.0.0"]
  = ["1.0.0"; "1.0.0"; "1.0.0"; "1.0.0"; "1.0.0"].
Proof. reflexivity. Qed.

Example determineChangeType_cases :
  [classify "1.0.0" "2.0.0"; classify "^1.0.0" "^2.0.0";
   classify "1.0.0" "1.1.0"; classify "1.2.3" "1.3.0";
   classify "1.0.0" "1.0.1"; classify "1.2.3" "1.2.4";
   classify "1.0.0" "1.0.1-beta.1"; classify "1.0.0" "2.0.0-alpha.1";
   classify "not-a-version" "also-not"]
  = [major; major; minor; minor; patch; patch; prerelease; prerelease; other].
Proof. vm_compute. reflexivity. Qed.

Example compareVersions_cases :
  compare [] [("lodash", "4.17.21")] node "package.json" production
  = [mkChange "lodash" node "package.json" None (Some "4.17.21") added production]
  /\ compare [("lodash", "4.17.21")] [] node "package.json" production
     = [mkChange "lodash" node "package.json" (Some "4.17.21") None removed production]
  /\ compare [("lodash", "4.17.20")] [("lodash", "4.17.21")] node "package.json" production
     = [mkChange "lodash" node "package.json" (Some "4.17.20") (Some "4.17.21")
                 patch production]
  /\ compare [("lodash", "4.17.21")] [("lodash", "4.17.21")] node "package.json" production
     = []
  /\ compare [("lodash", "^4.17.21")] [("lodash", "~4.17.21")] node "package.json" production
     = [].
Proof. repeat split; vm_compute; reflexivity. Qed.

Example parseRequirementsTxt_version_specifiers :
  Python.parseRequirementsTxt "
# This is a comment
requests==2.31.0
flask>=2.0.0
django~=4.2.0
numpy
-e git+https://github.com/user/repo.git#egg=mypackage
"
  = Ok [mkParsed [("requests", JStr "2.31.0"); ("flask", JStr "2.0.0");
                  ("django", JStr "4.2.0"); ("numpy", JStr "*")] production].
Proof. vm_compute. reflexivity. Qed.

Example parseRequirementsTxt_extras :
  Python.parseRequirementsTxt "
requests[security]==2.31.0
celery[redis,auth]>=5.0.0
"
  = Ok [mkParsed [("requests", JStr "2.31.0"); ("celery", JStr "5.0.0")] production].
Proof. vm_compute. reflexivity. Qed.

Example parseRequirementsTxt_urls_and_paths :
  Python.parseRequirementsTxt "
https://example.com/package.whl
./local-package
/absolute/path/package
requests==2.31.0
"
  = Ok [mkParsed [("requests", JStr "2.31.0")] production].
Proof. vm_compute. reflexivity. Qed.

Example parseGoMod_require_block :
  Go.parseGoMod ("
module github.com/example/mymodule

go 1.21

require (
" ++ String "009" "github.com/gin-gonic/gin v1.9.1
" ++ String "009" "github.com/stretchr/testify v1.8.4
" ++ String "009" "golang.org/x/text v0.14.0 // indirect
)
")
  = Ok [mkParsed [("github.com/gin-gonic/gin", JStr "v1.9.1");
                  ("github.com/stretchr/testify", JStr "v1.8.4")] production].
Proof. vm_compute. reflexivity. Qed.

Example parseGoMod_single_requires :
  Go.parseGoMod "
module github.com/example/mymodule

go 1.21

require github.com/gin-gonic/gin v1.9.1
require github.com/stretchr/testify v1.8.4
"
  = Ok [mkParsed [("github.com/gin-gonic/gin", JStr "v1.9.1");
                  ("github.com/stretchr/testify", JStr "v1.8.4")] production].
Proof. vm_compute. reflexivity. Qed.

Example parseGoSum_format :
  Go.parseGoSum "
github.com/gin-gonic/gin v1.9.1 h1:4idEAncQnU5cB7BeOkPtxjfCSye0AAm1R0RVIqJ+Jmg=
github.com/gin-gonic/gin v1.9.1/go.mod h1:hPrL0YrVViAhK1+kjUYWIiNGOH+jAFX9C9v5hB7tN3A=
github.com/stretchr/testify v1.8.4 h1:CcVxjf3Q8PM0mHUKJCdn+eZZtm5yQzsRs2+AEW/h1jQ=
github.com/stretchr/testify v1.8.4/go.mod h1:sz/lmYIOXD/1dqDmKjjqLyZ2RngseejIcXlSw2iwfAo=
"
  = Ok [mkParsed [("github.com/gin-gonic/gin", JStr "v1.9.1");
                  ("github.com/stretchr/testify", JStr "v1.8.4")] production].
Proof. vm_compute. reflexivity. Qed.

Example parseGemfile_gem_declarations :
  Ruby.parseGemfile "
source 'https://rubygems.org'

gem 'rails', '~> 7.0.0'
gem 'pg', '>= 1.1'
gem 'puma'

group :development, :test do
  gem 'rspec-rails', '~> 6.0.0'
  gem 'factory_bot_rails'
end
"
  = Ok [mkParsed [("rails", JStr "~> 7.0.0"); ("pg", JStr ">= 1.1");
                  ("puma", JStr "*")] production;
        mkParsed [("rspec-rails", JStr "~> 6.0.0");
                  ("factory_bot_rails", JStr "*")] development].
Proof. vm_compute. reflexivity. Qed.

Example parseGemfileLock_format :
  Ruby.parseGemfileLock "
GEM
  remote: https://rubygems.org/
  specs:
    actioncable (7.0.8)
      actionpack (= 7.0.8)
    actionpack (7.0.8)
      activesupport (= 7.0.8)
    rails (7.0.8)

PLATFORMS
  ruby

DEPENDENCIES
  rails (~> 7.0.0)

BUNDLED WITH
   2.4.0
"
  = Ok [mkParsed [("actioncable", JStr "7.0.8"); ("actionpack", JStr "7.0.8");
                  ("rails", JStr "7.0.8")] production].
Proof. vm_compute. reflexivity. Qed.

Example parseBuildGradle_groovy :
  Java.parseBuildGradle "
plugins {
    id 'java'
}

dependencies {
    implementation 'org.springframework.boot:spring-boot-starter-web:3.2.0'
    testImplementation 'junit:junit:4.13.2'
}
"
  = Ok [mkParsed [("org.springframework.boot:spring-boot-starter-web", JStr "3.2.0")]
                 production;
        mkParsed [("junit:junit", JStr "4.13.2")] test].
Proof. vm_compute. reflexivity. Qed.

Example parseBuildGradle_kotlin :
  Java.parseBuildGradle ("
plugins {
    kotlin(" ++ quoted "jvm" ++ ")
}

dependencies {
    implementation("
    ++ quoted "org.springframework.boot:spring-boot-starter-web:3.2.0" ++ ")
    testImplementation(" ++ quoted "junit:junit:4.13.2" ++ ")
}
")
  = Ok [mkParsed [("org.springframework.boot:spring-boot-starter-web", JStr "3.2.0")]
                 production;
        mkParsed [("junit:junit", JStr "4.13.2")] test].
Proof. vm_compute. reflexivity. Qed.

Example parseYarnLock_format :
  Node.parseYarnLock ("
" ++ quoted "@babel/core@^7.0.0" ++ ":
  version " ++ quoted "7.23.0" ++ "
  resolved " ++ quoted "https://registry.yarnpkg.com/@babel/core/-/core-7.23.0.tgz" ++ "

lodash@^4.17.0:
  version " ++ quoted "4.17.21" ++ "
  resolved " ++ quoted "https://registry.yarnpkg.com/lodash/-/lodash-4.17.21.tgz" ++ "
")
  = Ok [mkParsed [("@babel/core", JStr "7.23.0"); ("lodash", JStr "4.17.21")]
                 production].
Proof. vm_compute. reflexivity. Qed.

(** * Further properties of the code *)

(** ** File paths and git objects *)

Lemma prefix_cons (c : ascii) (p s : string) :
  String.prefix (String c p) s = true -> String.prefix (String c EmptyString) s = true.
Proof.
  destruct s as [|a s]; simpl; [discriminate|].
  destruct (Ascii.ascii_dec c a); [intros _; now destruct s|discriminate].
Qed.

Lemma span_le (p : ascii -> bool) (s : string) : span p s <= String.length s.
Proof. induction s as [|a s IH]; simpl; [lia|]. destruct (p a); simpl; lia. Qed.

Lemma span_all (p : ascii -> bool) (s : string) :
  span p s = String.length s <-> all_chars p s = true.
Proof.
  induction s as [|a s IH]; simpl; [tauto|].
  destruct (p a); simpl.
  - rewrite <- IH. lia.
  - split; [lia|discriminate].
Qed.

Lemma slice_empty (n : nat) (s : string) :
  Js.slice n s = EmptyString <-> String.length s <= n.
Proof.
  revert s. induction n as [|n IH]; intros [|a s]; simpl; try (split; (reflexivity || lia || discriminate)).
  rewrite IH. lia.
Qed.

(** The loop of [{n,n}] over a one-character class: it ends after
    exactly [n] characters of the class, or fails. *)
Lemma rep_exact_loop (R : Type) (extra : nat) (p : ascii -> bool) (n : nat)
      (k : Regex.cont R) :
  forall (fuel n0 pos : nat) (s : string) (c : Regex.caps),
    n0 <= n -> n - n0 < fuel ->
    Regex.rep_loop (Regex.run extra (Regex.Chr p)) n (Some n) k fuel n0 pos s c
    = if (n - n0 <=? span p s)%nat
      then k (pos + (n - n0)) (Js.slice (n - n0) s) c
      else None.
Proof.
  induction fuel as [|fuel IH]; intros n0 pos s c Hn Hf; [lia|].
  cbn [Regex.rep_loop].
  destruct (Nat.eq_dec n0 n) as [->|Hne].
  - rewrite Nat.ltb_irrefl, Nat.leb_refl, Nat.sub_diag. cbn [Nat.leb].
    now rewrite Nat.add_0_r, slice_0.
  - assert (Hlt : n0 < n) by lia.
    replace (n0 <? n)%nat with true by (symmetry; now apply Nat.ltb_lt).
    replace (n <=? n0)%nat with false by (symmetry; apply Nat.leb_gt; lia).
    cbn [andb Regex.run].
    replace (n - n0) with (S (n - S n0)) by lia.
    destruct s as [|a s]; [reflexivity|]. cbn [span].
    destruct (p a); [|reflexivity].
    rewrite IH by lia.
    cbn [Js.slice]. replace (S pos + (n - S n0)) with (pos + S (n - S n0)) by lia.
    change (S (n - S n0) <=? S (span p s))%nat with (n - S n0 <=? span p s)%nat.
    destruct (n - S n0 <=? span p s)%nat; [|reflexivity].
    now destruct (k _ _ _).
Qed.

Lemma exec_anchored (r : Regex.re) (s : string) :
  Regex.exec (Regex.Seq Regex.Bol r) s = Regex.match_at (Regex.Seq Regex.Bol r) 0 s.
Proof.
  unfold Regex.exec. destruct s as [|a s]; cbn [Regex.search_from].
  - now destruct (Regex.match_at _ 0 "").
  - destruct (Regex.match_at _ 0 (String a s)); [reflexivity|].
    now rewrite anchored_later.
Qed.

Lemma run_Seq (R : Type) (extra : nat) (r1 r2 : Regex.re) (k : Regex.cont R)
      (pos : nat) (s : string) (c : Regex.caps) :
  Regex.run extra (Regex.Seq r1 r2) k pos s c
  = Regex.run extra r1 (Regex.run extra r2 k) pos s c.
Proof. reflexivity. Qed.

Lemma run_Rep (R : Type) (extra lo : nat) (hi : option nat) (r : Regex.re)
      (k : Regex.cont R) (pos : nat) (s : string) (c : Regex.caps) :
  Regex.run extra (Regex.Rep lo hi r) k pos s c
  = Regex.rep_loop (Regex.run extra r) lo hi k (extra + S (lo + String.length s))
                   0 pos s c.
Proof. reflexivity. Qed.

Lemma run_Bol (R : Type) (extra : nat) (k : Regex.cont R) (s : string)
      (c : Regex.caps) :
  Regex.run extra Regex.Bol k 0 s c = k 0 s c.
Proof. reflexivity. Qed.

Lemma run_Eol (R : Type) (extra : nat) (k : Regex.cont R) (pos : nat) (s : string)
      (c : Regex.caps) :
  Regex.run extra Regex.Eol k pos s c
  = match s with EmptyString => k pos s c | _ => None end.
Proof. reflexivity. Qed.

Lemma is_match_re_sha (ref : string) :
  Regex.is_match re_sha ref
  = (String.length ref =? 40)%nat && all_chars hex_digit ref.
Proof.
  unfold Regex.is_match, re_sha. cbn [Regex.Seqs]. rewrite exec_anchored.
  unfold Regex.match_at. rewrite run_Seq, run_Bol, run_Seq, run_Rep.
  rewrite rep_exact_loop by lia. rewrite Nat.sub_0_r, Nat.add_0_l, run_Eol.
  destruct (40 <=? span hex_digit ref)%nat eqn:E.
  - apply Nat.leb_le in E.
    destruct (Js.slice 40 ref) eqn:Es.
    + apply slice_empty in Es. pose proof (span_le hex_digit ref).
      assert (Hl : String.length ref = 40) by lia.
      rewrite Hl. cbn [Nat.eqb andb]. symmetry. apply span_all. lia.
    + assert (Hl : ~ String.length ref <= 40).
      { intros H. apply slice_empty in H. congruence. }
      replace (String.length ref =? 40)%nat with false; [reflexivity|].
      symmetry. apply Nat.eqb_neq. lia.
  - apply Nat.leb_gt in E.
    destruct (String.length ref =? 40)%nat eqn:El; [|reflexivity].
    apply Nat.eqb_eq in El. cbn [andb].
    destruct (all_chars hex_digit ref) eqn:Ea; [|reflexivity].
    apply span_all in Ea. lia.
Qed.

Section GetFileAtRef.
Variable exec : string -> list string -> res (Z * string).

(** X6. [getFileAtRef] runs git only as [git show ref:path], and only
    for a path that [isValidFilePath] accepts and a ref of exactly forty
    hexadecimal digits; what it returns is what that command wrote, when
    it ended with code 0 and wrote no more than ten mebibytes; for any
    other path or ref it returns [null]. *)
Theorem getFileAtRef_validated (filePath ref : string) :
  let object := (ref ++ ":" ++ filePath)%string in
  let checked :=
    isValidFilePath filePath && (String.length ref =? 40)%nat
    && all_chars hex_digit ref in
  (forall content log,
      getFileAtRef exec filePath ref = (Some content, log) ->
      checked = true
      /\ exec "git" ["show"; object] = Ok (0%Z, content)
      /\ (Z.of_nat (String.length content) <= MAX_FILE_SIZE)%Z
      /\ log = [Exec "git" ["show"; object]])
  /\ (forall commandLine args,
         In (Exec commandLine args) (snd (getFileAtRef exec filePath ref)) ->
         checked = true /\ commandLine = "git" /\ args = ["show"; object])
  /\ (checked = false -> fst (getFileAtRef exec filePath ref) = None).
Proof.
  intros object checked. subst checked. unfold getFileAtRef.
  rewrite is_match_re_sha. fold object.
  destruct (isValidFilePath filePath); cbn [negb andb].
  2:{ split; [discriminate|]. split; [|reflexivity].
      intros ? ? [H|[]]; discriminate. }
  destruct ((String.length ref =? 40)%nat && all_chars hex_digit ref) eqn:E;
    cbn [negb].
  2:{ split; [discriminate|]. split; [|reflexivity].
      intros ? ? [H|[]]; discriminate. }
  destruct (exec "git" ["show"; object]) as [[exitCode content]|e].
  2:{ split; [discriminate|]. split; [|discriminate].
      intros ? ? [[= <- <-]|[]]; auto. }
  destruct (exitCode =? 0)%Z eqn:Ec; cbn [negb].
  2:{ split; [discriminate|]. split; [|discriminate].
      intros ? ? [[= <- <-]|[]]; auto. }
  apply Z.eqb_eq in Ec. subst exitCode.
  destruct (MAX_FILE_SIZE <? Z.of_nat (String.length content))%Z eqn:El.
  - split; [discriminate|]. split; [|discriminate].
    intros ? ? [[= <- <-]|[H|[]]]; auto; discriminate.
  - apply Z.ltb_ge in El. split; [|split; [|discriminate]].
    + intros content' log [= <- <-]. auto.
    + intros ? ? [[= <- <-]|[]]; auto.
Qed.
End GetFileAtRef.

Lemma getFileAtRef_validated_witness :
  let exec := fun (_ : string) (_ : list string) => Ok (0%Z, "{}") in
  let ref := "0123456789abcdef0123456789ABCDEF01234567" in
  getFileAtRef exec "package.json" ref
  = (Some "{}", [Exec "git" ["show"; (ref ++ ":package.json")%string]])
  /\ isValidFilePath "package.json" && (String.length ref =? 40)%nat
     && all_chars hex_digit ref = true
  /\ fst (getFileAtRef exec "../package.json" ref) = None.
Proof.
  intros exec ref.
  assert (H : getFileAtRef exec "package.json" ref
              = (Some "{}", [Exec "git" ["show"; (ref ++ ":package.json")%string]]))
    by (vm_compute; reflexivity).
  split; [exact H|]. split.
  - exact (proj1 (proj1 (getFileAtRef_validated exec "package.json" ref) _ _ H)).
  - exact (proj2 (proj2 (getFileAtRef_validated exec "../package.json" ref)) eq_refl).
Defined.

(** ** The parser registry *)

Lemma find_existsb {A : Type} (f : A -> bool) (l : list A) :
  existsb f l = match find f l with Some _ => true | None => false end.
Proof. induction l as [|a l IH]; simpl; [reflexivity|]. now destruct (f a). Qed.

Lemma isDependencyFile_find (L : Loaders) (filePath : string) :
  isDependencyFile L filePath
  = match getParserForFile L filePath with Some _ => true | None => false end.
Proof. unfold isDependencyFile, getParserForFile. apply find_existsb. Qed.

(** [split] on a one-character separator. *)
Lemma prefix_char (c a : ascii) (s : string) :
  String.prefix (String c EmptyString) (String a s) = Ascii.eqb a c.
Proof.
  simpl. destruct (Ascii.ascii_dec c a) as [->|Hne].
  - rewrite Ascii.eqb_refl. now destruct s.
  - symmetry. apply Ascii.eqb_neq. congruence.
Qed.

Lemma includes_char (c a : ascii) (s : string) :
  Js.includes (String a s) (String c EmptyString)
  = Ascii.eqb a c || Js.includes s (String c EmptyString).
Proof. cbn [Js.includes]. now rewrite prefix_char. Qed.

Lemma split_aux_plain (c : ascii) (s : string) :
  Js.includes s (String c EmptyString) = false ->
  Js.split_aux (String c EmptyString) 0 s = (s, []).
Proof.
  induction s as [|a s IH]; [reflexivity|].
  rewrite includes_char. intros H. apply orb_false_iff in H as [Ha Hs].
  cbn [Js.split_aux]. rewrite prefix_char, Ha. now rewrite (IH Hs).
Qed.

Lemma split_plain (c : ascii) (s : string) :
  Js.includes s (String c EmptyString) = false ->
  Js.split s (String c EmptyString) = [s].
Proof. intros H. unfold Js.split. now rewrite split_aux_plain. Qed.

Lemma split_aux_app (c : ascii) (a b : string) :
  Js.split_aux (String c EmptyString) 0 (a ++ String c b)%string
  = (fst (Js.split_aux (String c EmptyString) 0 a),
     snd (Js.split_aux (String c EmptyString) 0 a)
     ++ Js.split b (String c EmptyString)).
Proof.
  induction a as [|x a IH].
  - cbn [String.append Js.split_aux]. rewrite prefix_char, Ascii.eqb_refl.
    cbn [String.length Nat.sub]. unfold Js.split.
    now destruct (Js.split_aux (String c "") 0 b).
  - cbn [String.append Js.split_aux]. rewrite !prefix_char.
    cbn [String.length Nat.sub]. rewrite IH.
    destruct (Js.split_aux (String c "") 0 a) as [p ps].
    now destruct (Ascii.eqb x c).
Qed.

Lemma split_app (c : ascii) (a b : string) :
  Js.split (a ++ String c b)%string (String c EmptyString)
  = Js.split a (String c EmptyString) ++ Js.split b (String c EmptyString).
Proof.
  unfold Js.split at 1 2. rewrite split_aux_app.
  now destruct (Js.split_aux (String c "") 0 a).
Qed.

Lemma pop_last {A : Type} (l : list A) (x : A) : Js.pop (l ++ [x]) = Some x.
Proof. unfold Js.pop. rewrite map_app. apply last_last. Qed.

Lemma basename_path (dir fileName : string) :
  Js.includes fileName "/" = false ->
  Js.pop (Js.split (dir ++ "/" ++ fileName)%string "/") = Some fileName
  /\ Js.pop (Js.split fileName "/") = Some fileName.
Proof.
  intros H. split.
  - change (dir ++ "/" ++ fileName)%string with (dir ++ String "/" fileName)%string.
    rewrite split_app, (split_plain _ _ H). apply pop_last.
  - now rewrite (split_plain _ _ H).
Qed.

(** ** Inputs of the action *)

Lemma validateEcosystem_id (e : string) :
  validateEcosystem e = true <-> exists eco, e = ecosystem_id eco.
Proof.
  unfold validateEcosystem, VALID_ECOSYSTEMS. cbn [existsb]. split.
  - intros H. repeat (apply orb_true_iff in H as [H|H]);
      try discriminate; apply String.eqb_eq in H; subst e;
      [exists node|exists python|exists go|exists ruby|exists java|exists rust
       |exists dotnet]; reflexivity.
  - intros [[] ->]; reflexivity.
Qed.

Lemma validateEcosystem_In (e : string) :
  validateEcosystem e = true <-> In e VALID_ECOSYSTEMS.
Proof.
  unfold validateEcosystem. rewrite existsb_exists. split.
  - intros [x [Hx He]]. apply String.eqb_eq in He. now subst x.
  - intros H. exists e. split; [exact H|apply String.eqb_refl].
Qed.

Lemma ecosystems_of_active (ecosystemsInput : string) :
  let active := filterEcosystems (fst (ecosystems_of ecosystemsInput)) in
  active <> []
  /\ (forall e, In e active -> validateEcosystem e = true)
  /\ (forall e, In e (Js.split ecosystemsInput ",") ->
                validateEcosystem (Js.toLowerCase (Js.trim e)) = true ->
                In (Js.toLowerCase (Js.trim e)) active).
Proof.
  unfold ecosystems_of.
  assert (Hall : VALID_ECOSYSTEMS <> []
                 /\ (forall e, In e VALID_ECOSYSTEMS -> validateEcosystem e = true)
                 /\ (forall e, In e (Js.split ecosystemsInput ",") ->
                               validateEcosystem (Js.toLowerCase (Js.trim e)) = true ->
                               In (Js.toLowerCase (Js.trim e)) VALID_ECOSYSTEMS)).
  { split; [discriminate|]. split.
    - intros e. apply validateEcosystem_In.
    - intros e _. apply validateEcosystem_In. }
  destruct (String.eqb ecosystemsInput "all"); [exact Hall|].
  set (requested := map (fun e => Js.toLowerCase (Js.trim e))
                        (Js.split ecosystemsInput ",")).
  destruct (List.length (filter validateEcosystem requested) =? 0)%nat eqn:E;
    [exact Hall|].
  assert (Hvalid : filter validateEcosystem requested <> []
                   /\ (forall e, In e (filter validateEcosystem requested) ->
                                 validateEcosystem e = true)
                   /\ (forall e, In e (Js.split ecosystemsInput ",") ->
                                 validateEcosystem (Js.toLowerCase (Js.trim e)) = true ->
                                 In (Js.toLowerCase (Js.trim e))
                                    (filter validateEcosystem requested))).
  { split; [|split].
    - intros H. rewrite H in E. discriminate.
    - intros e H. now apply filter_In in H.
    - intros e He Hv. apply filter_In. split; [|exact Hv].
      unfold requested. now apply (in_map (fun e => Js.toLowerCase (Js.trim e))). }
  now destruct (_ <? _)%nat.
Qed.

(** ** One file, two revisions ([analyzeFile]) *)

Section AnalyzeFacts.
Variable SemVer : Type.
Variable semver_coerce : string -> option SemVer.
Variable semver_prerelease : string -> option (list string).
Variable semver_diff : SemVer -> SemVer -> option string.

Local Abbreviation compare :=
  (compareVersions semver_coerce semver_prerelease semver_diff).
Local Abbreviation rcompare :=
  (Runtime.compareVersions semver_coerce semver_prerelease semver_diff).

Lemma compareVersions_same (m : JSMap string) (eco : Ecosystem)
      (path : string) (depType : DependencyType) :
  wf_map m -> (forall k v, In (k, v) m -> Js.truthy v = true) ->
  compare m m eco path depType = [].
Proof.
  intros Hwf Hv. rewrite compareVersions_flat.
  assert (H1 : forall e, In e m -> compare_old semver_coerce semver_prerelease
                                      semver_diff m eco path depType [] e = []).
  { intros [k v] Hin. unfold compare_old.
    rewrite (map_get_In k v Hwf Hin), (Hv k v Hin), String.eqb_refl. reflexivity. }
  assert (H2 : forall e, In e m -> compare_new m eco path depType [] e = []).
  { intros [k v] Hin. unfold compare_new, map_has.
    now rewrite (map_get_In k v Hwf Hin). }
  assert (F : forall (A B : Type) (f : A -> list B) (l : list A),
             (forall x, In x l -> f x = []) -> flat_map f l = []).
  { intros A B f l. induction l as [|x l IH]; intros H; [reflexivity|].
    cbn. rewrite (H x (or_introl eq_refl)). apply IH. intros y Hy. apply H. now right. }
  now rewrite !F.
Qed.

(** *** The differ on the values of the parsers *)

(** What holds of every change of one call. *)
Local Abbreviation from_call oldDeps newDeps eco path depType c :=
  (Runtime.ecosystem c = eco /\ Runtime.file c = path
   /\ Runtime.dependencyType c = depType /\ change_shape c
   /\ ((exists v, In (Runtime.name c, v) oldDeps)
       \/ (exists v, In (Runtime.name c, v) newDeps))).

Lemma runtime_compare_old (oldDeps newDeps : JSMap jsval) (eco : Ecosystem)
      (path : string) (depType : DependencyType)
      (changes changes' : list Runtime.DependencyChange) (k : string) (o : jsval) :
  In (k, o) oldDeps ->
  Runtime.compare_old semver_coerce semver_prerelease semver_diff
                      newDeps eco path depType changes (k, o) = Ok changes' ->
  changes' = changes
  \/ exists c, changes' = changes ++ [c] /\ from_call oldDeps newDeps eco path depType c.
Proof.
  intros Hin. unfold Runtime.compare_old.
  destruct (negb (Val.truthy match map_get newDeps k with
                            | Some v => v
                            | None => JUndefined
                            end)) eqn:Et.
  - intros [= <-]. right. eexists. split; [reflexivity|]. cbn.
    repeat split; eauto.
  - apply negb_false_iff in Et.
    destruct (map_get newDeps k) as [n|]; [|discriminate].
    destruct o as [| | | |o| |]; try discriminate.
    destruct n as [| | | |n| |]; try discriminate.
    cbn [Runtime.cleanVersion bind Runtime.determineChangeType].
    destruct (negb (cleanVersion o =? cleanVersion n)%string);
      intros [= <-]; [right|now left].
    eexists. split; [reflexivity|]. cbn. repeat split; eauto.
    unfold change_shape. cbn.
    assert (Hs : exists o' n', JStr o = JStr o' /\ JStr n = JStr n'
                               /\ n' <> EmptyString).
    { exists o, n. repeat split. now destruct n. }
    pose proof (determineChangeType_range semver_coerce semver_prerelease
                                          semver_diff o n) as Hr.
    destruct (determineChangeType semver_coerce semver_prerelease semver_diff o n);
      try exact Hs; destruct Hr; congruence.
Qed.

Lemma runtime_compare_new (oldDeps newDeps : JSMap jsval) (eco : Ecosystem)
      (path : string) (depType : DependencyType)
      (changes : list Runtime.DependencyChange) (k : string) (n : jsval) :
  In (k, n) newDeps ->
  let changes' := Runtime.compare_new oldDeps eco path depType changes (k, n) in
  changes' = changes
  \/ exists c, changes' = changes ++ [c] /\ from_call oldDeps newDeps eco path depType c.
Proof.
  intros Hin. cbn. destruct (negb (map_has oldDeps k)); [right|now left].
  eexists. split; [reflexivity|]. cbn. repeat split; eauto.
Qed.

Lemma runtime_compareVersions_changes (oldDeps newDeps : JSMap jsval)
      (eco : Ecosystem) (path : string) (depType : DependencyType)
      (changes : list Runtime.DependencyChange) (c : Runtime.DependencyChange) :
  rcompare oldDeps newDeps eco path depType = Ok changes -> In c changes ->
  from_call oldDeps newDeps eco path depType c.
Proof.
  unfold Runtime.compareVersions. intros H. step_in H as changes1 E1.
  injection H as <-.
  assert (G : forall (l : list (string * jsval)) acc acc',
             incl l oldDeps ->
             Forall (fun c => from_call oldDeps newDeps eco path depType c) acc ->
             foldM (Runtime.compare_old semver_coerce semver_prerelease semver_diff
                                        newDeps eco path depType) l acc = Ok acc' ->
             Forall (fun c => from_call oldDeps newDeps eco path depType c) acc').
  { induction l as [|[k o] l IH]; cbn [foldM]; intros acc acc' Hl Ha Hf.
    - now injection Hf as <-.
    - step_in Hf as acc1 E. apply (IH acc1 acc'); [|  |exact Hf].
      + intros x Hx. apply Hl. now right.
      + apply runtime_compare_old with (oldDeps := oldDeps) in E
          as [->|[c' [-> Hc']]]; [exact Ha| |apply Hl; now left].
        apply Forall_app. split; [exact Ha|]. now constructor. }
  assert (G2 : forall (l : list (string * jsval)) acc,
             incl l newDeps ->
             Forall (fun c => from_call oldDeps newDeps eco path depType c) acc ->
             Forall (fun c => from_call oldDeps newDeps eco path depType c)
                    (fold_left (Runtime.compare_new oldDeps eco path depType) l acc)).
  { induction l as [|[k n] l IH]; cbn [fold_left]; intros acc Hl Ha; [exact Ha|].
    apply IH; [intros x Hx; apply Hl; now right|].
    destruct (@runtime_compare_new oldDeps newDeps eco path depType acc k n)
      as [->|[c' [-> Hc']]]; [apply Hl; now left|exact Ha|].
    apply Forall_app. split; [exact Ha|]. now constructor. }
  intros Hc.
  assert (F : Forall (fun c => from_call oldDeps newDeps eco path depType c)
                     (fold_left (Runtime.compare_new oldDeps eco path depType)
                                newDeps changes1)).
  { apply G2; [apply incl_refl|].
    apply (G oldDeps [] changes1); [apply incl_refl|constructor|exact E1]. }
  rewrite Forall_forall in F. now apply F.
Qed.

Lemma runtime_compareVersions_from_nothing (newDeps : JSMap jsval) (eco : Ecosystem)
      (path : string) (depType : DependencyType) :
  rcompare [] newDeps eco path depType
  = Ok (map (fun e => Runtime.mkChange (fst e) eco path JNull (snd e) added depType)
            newDeps).
Proof.
  unfold Runtime.compareVersions. cbn [foldM bind]. f_equal.
  assert (G : forall (l : list (string * jsval)) acc,
             fold_left (Runtime.compare_new [] eco path depType) l acc
             = acc ++ map (fun e => Runtime.mkChange (fst e) eco path JNull (snd e)
                                                     added depType) l).
  { induction l as [|[k n] l IH]; intros acc; cbn [fold_left map].
    - now rewrite app_nil_r.
    - rewrite IH. cbn. now rewrite <- app_assoc. }
  apply G.
Qed.

Lemma runtime_compareVersions_to_nothing (oldDeps : JSMap jsval) (eco : Ecosystem)
      (path : string) (depType : DependencyType) :
  rcompare oldDeps [] eco path depType
  = Ok (map (fun e => Runtime.mkChange (fst e) eco path (snd e) JNull removed depType)
            oldDeps).
Proof.
  unfold Runtime.compareVersions.
  assert (G : forall (l : list (string * jsval)) acc,
             foldM (Runtime.compare_old semver_coerce semver_prerelease semver_diff
                                        [] eco path depType) l acc
             = Ok (acc ++ map (fun e => Runtime.mkChange (fst e) eco path (snd e) JNull
                                                         removed depType) l)).
  { induction l as [|[k o] l IH]; intros acc; cbn [foldM map].
    - now rewrite app_nil_r.
    - cbn. rewrite IH. cbn. now rewrite <- app_assoc. }
  rewrite G. reflexivity.
Qed.

Lemma runtime_compareVersions_same (m : JSMap jsval) (eco : Ecosystem)
      (path : string) (depType : DependencyType) :
  wf_map m ->
  (forall k v, In (k, v) m -> exists s, v = JStr s /\ s <> EmptyString) ->
  rcompare m m eco path depType = Ok [].
Proof.
  intros Hwf Hv. unfold Runtime.compareVersions.
  assert (G : forall l : list (string * jsval),
             incl l m ->
             foldM (Runtime.compare_old semver_coerce semver_prerelease semver_diff
                                        m eco path depType) l [] = Ok []).
  { induction l as [|[k v] l IH]; intros Hl; [reflexivity|]. cbn [foldM].
    assert (Hin : In (k, v) m) by (apply Hl; now left).
    destruct (Hv k v Hin) as [s [-> Hs]].
    unfold Runtime.compare_old at 1. rewrite (map_get_In k (JStr s) Hwf Hin).
    cbn. assert (Ht : Js.truthy s = true) by now destruct s.
    rewrite Ht, String.eqb_refl. cbn. apply IH. intros x Hx. apply Hl. now right. }
  rewrite G by apply incl_refl. cbn [bind]. f_equal.
  assert (G2 : forall l : list (string * jsval),
             incl l m ->
             fold_left (Runtime.compare_new m eco path depType) l [] = []).
  { induction l as [|[k v] l IH]; intros Hl; [reflexivity|]. cbn [fold_left].
    assert (Hin : In (k, v) m) by (apply Hl; now left).
    unfold Runtime.compare_new at 2. unfold map_has.
    rewrite (map_get_In k v Hwf Hin). cbn. apply IH. intros x Hx. apply Hl. now right. }
  apply G2, incl_refl.
Qed.

(** Every exception of the differ is a [TypeError], and one entry that
    throws makes the call throw. *)
Lemma runtime_compareVersions_throws (oldDeps newDeps : JSMap jsval) (eco : Ecosystem)
      (path : string) (depType : DependencyType) (k : string) (o n : jsval) :
  In (k, o) oldDeps -> map_get newDeps k = Some n -> Val.truthy n = true ->
  is_string o && is_string n = false ->
  rcompare oldDeps newDeps eco path depType = Throw TypeError.
Proof.
  intros Hin Hn Ht Hs. unfold Runtime.compareVersions.
  assert (S1 : forall acc e,
             match Runtime.compare_old semver_coerce semver_prerelease semver_diff
                                       newDeps eco path depType acc e with
             | Ok _ => True
             | Throw x => x = TypeError
             end).
  { intros acc [k' o']. unfold Runtime.compare_old.
    destruct (negb (Val.truthy match map_get newDeps k' with
                              | Some v => v
                              | None => JUndefined
                              end)); [exact I|].
    destruct (map_get newDeps k') as [n'|]; destruct o'; try reflexivity;
      try destruct n'; try reflexivity.
    cbn. now destruct (negb (_ =? _)%string). }
  assert (S2 : forall acc,
             Runtime.compare_old semver_coerce semver_prerelease semver_diff
                                 newDeps eco path depType acc (k, o) = Throw TypeError).
  { intros acc. unfold Runtime.compare_old. rewrite Hn, Ht. cbn [negb].
    destruct o; try reflexivity. destruct n; try reflexivity. discriminate. }
  assert (G : forall (l : list (string * jsval)) acc,
             In (k, o) l ->
             foldM (Runtime.compare_old semver_coerce semver_prerelease semver_diff
                                        newDeps eco path depType) l acc
             = Throw TypeError).
  { induction l as [|e l IH]; intros acc Hl; [destruct Hl|].
    destruct Hl as [->|Hl]; cbn [foldM].
    - now rewrite S2.
    - specialize (S1 acc e).
      destruct (Runtime.compare_old semver_coerce semver_prerelease semver_diff
                                    newDeps eco path depType acc e) as [acc1|x].
      + cbn [bind]. now apply IH.
      + cbn [bind]. now subst x. }
  now rewrite (G oldDeps [] Hin).
Qed.

(** *** [analyzeFile] *)

Variable exec : string -> list string -> res (Z * string).
Variable L : Loaders.

Local Abbreviation analyze := (analyzeFile semver_coerce semver_prerelease semver_diff
                                           exec L).

Lemma byType_get_In (m : ByType) (t : DependencyType) (v : JSMap jsval) :
  byType_get m t = Some v -> exists t', In (t', v) m /\ DependencyType_eqb t' t = true.
Proof.
  induction m as [|[t0 v0] m IH]; cbn; [discriminate|].
  destruct (DependencyType_eqb t0 t) eqn:E.
  - intros [= <-]. exists t0. auto.
  - intros H. destruct (IH H) as [t' [Hin Ht]]. exists t'. auto.
Qed.

Lemma In_byType_set (m : ByType) (t0 : DependencyType) (v0 : JSMap jsval)
      (t : DependencyType) (v : JSMap jsval) :
  In (t, v) (byType_set m t0 v0) ->
  (DependencyType_eqb t t0 = true /\ v = v0) \/ In (t, v) m.
Proof.
  induction m as [|[t1 v1] m IH]; cbn.
  - intros [[= <- <-]|[]]. left. split; [now destruct t0|reflexivity].
  - destruct (DependencyType_eqb t1 t0) eqn:E; cbn.
    + intros [[= <- <-]|H]; [left; auto|right; auto].
    + intros [[= <- <-]|H]; [right; auto|].
      destruct (IH H) as [?|?]; auto.
Qed.

Lemma DependencyType_eqb_eq (a b : DependencyType) :
  DependencyType_eqb a b = true <-> a = b.
Proof. destruct a, b; cbn; split; (reflexivity || discriminate). Qed.

(** What the flattening keeps true of every map it builds. *)
Local Abbreviation flat_inv P includeDev byType :=
  (forall t m, In (t, m) byType ->
               (includeDev = false -> t = production)
               /\ wf_map m /\ forall k v, In (k, v) m -> P k v).

Lemma fill_inv (P : string -> jsval -> Prop) (entries : list (string * jsval)) :
  (forall k v, In (k, v) entries -> P k v) ->
  forall m : JSMap jsval,
    wf_map m /\ (forall k v, In (k, v) m -> P k v) ->
    let m' := fold_left (fun m entry => map_set m (fst entry) (snd entry)) entries m in
    wf_map m' /\ (forall k v, In (k, v) m' -> P k v).
Proof.
  induction entries as [|[k0 v0] entries IH]; intros He m [Hwf Hm]; cbn.
  - auto.
  - apply IH.
    + intros k v H. apply He. now right.
    + split; [now apply wf_map_set|].
      intros k v H. apply In_map_set in H as [[-> ->]|H]; [|now apply Hm].
      apply He. now left.
Qed.

Lemma flatten_group_inv (P : string -> jsval -> Prop) (includeDev : bool)
      (byType : ByType) (parsed : ParsedDependencies) :
  (forall k v, In (k, v) (dependencies parsed) -> P k v) ->
  flat_inv P includeDev byType ->
  flat_inv P includeDev (flatten_group includeDev byType parsed).
Proof.
  intros Hp Hb. unfold flatten_group.
  destruct (negb includeDev && negb (DependencyType_eqb (parsedType parsed) production))
    eqn:E; [exact Hb|].
  intros t m H. apply In_byType_set in H as [[Ht ->]|H]; [|now apply Hb].
  apply DependencyType_eqb_eq in Ht. subst t. split.
  - intros ->. cbn in E. apply negb_false_iff in E. now apply DependencyType_eqb_eq.
  - apply (fill_inv P _ Hp).
    destruct (byType_get byType (parsedType parsed)) as [m0|] eqn:Eg.
    + apply byType_get_In in Eg as [t' [Hin _]]. now apply Hb in Hin.
    + split; [constructor|intros k v []].
Qed.

Lemma flatten_inv (P : string -> jsval -> Prop) (includeDev : bool)
      (groups : list ParsedDependencies) :
  (forall g k v, In g groups -> In (k, v) (dependencies g) -> P k v) ->
  flat_inv P includeDev (fold_left (flatten_group includeDev) groups []).
Proof.
  intros Hg.
  assert (H : forall byType, flat_inv P includeDev byType ->
                             flat_inv P includeDev
                                      (fold_left (flatten_group includeDev) groups byType)).
  { induction groups as [|g groups IH]; intros byType Hb; [exact Hb|].
    cbn [fold_left]. apply IH.
    - intros g' k v Hin. apply Hg. now right.
    - apply flatten_group_inv; [|exact Hb].
      intros k v. apply Hg. now left. }
  apply H. intros t m [].
Qed.

Lemma byType_or_empty (P : string -> jsval -> Prop) (includeDev : bool)
      (byType : ByType) (t : DependencyType) :
  flat_inv P includeDev byType ->
  let m := match byType_get byType t with Some m => m | None => [] end in
  wf_map m /\ (forall k v, In (k, v) m -> P k v).
Proof.
  intros Hb. destruct (byType_get byType t) as [m|] eqn:E; cbn.
  - apply byType_get_In in E as [t' [Hin _]]. now apply Hb in Hin.
  - split; [constructor|intros k v []].
Qed.

(** A type that has an entry is the type of a group that was kept. *)
Lemma byType_entry_kept (includeDev : bool) (groups : list ParsedDependencies)
      (t : DependencyType) (k : string) (v : jsval) :
  In (k, v) (match byType_get (fold_left (flatten_group includeDev) groups []) t with
             | Some m => m
             | None => []
             end) ->
  includeDev = false -> t = production.
Proof.
  destruct (byType_get (fold_left (flatten_group includeDev) groups []) t)
    as [m|] eqn:E; [|intros []].
  intros _. apply byType_get_In in E as [t' [Hin Ht]].
  apply DependencyType_eqb_eq in Ht. subst t'.
  now apply (@flatten_inv (fun _ _ => True) includeDev groups) in Hin.
Qed.

(** The loop over [allTypes]. *)
Lemma types_loop (f : DependencyType -> res (list Runtime.DependencyChange))
      (types : list DependencyType) :
  forall (acc changes : list Runtime.DependencyChange) (c : Runtime.DependencyChange),
    foldM (fun changes t => typeChanges <- f t ;; Ok (changes ++ typeChanges)) types acc
    = Ok changes ->
    In c changes ->
    In c acc \/ exists t typeChanges, In t types /\ f t = Ok typeChanges
                                      /\ In c typeChanges.
Proof.
  induction types as [|t types IH]; cbn [foldM]; intros acc changes c H Hc.
  - injection H as <-. now left.
  - step_in H as acc1 E. step_in E as typeChanges Et. injection E as <-.
    destruct (IH _ _ _ H Hc) as [Hin|[t' [tc [Ht' [Hf Hin]]]]].
    + apply in_app_or in Hin as [Hin|Hin]; [now left|].
      right. exists t, typeChanges. split; [now left|]. split; assumption.
    + right. exists t', tc. split; [now right|]. split; assumption.
Qed.

Lemma types_loop_returns (f : DependencyType -> res (list Runtime.DependencyChange))
      (g : DependencyType -> list Runtime.DependencyChange)
      (types : list DependencyType) :
  (forall t, f t = Ok (g t)) ->
  forall acc,
    foldM (fun changes t => typeChanges <- f t ;; Ok (changes ++ typeChanges)) types acc
    = Ok (acc ++ flat_map g types).
Proof.
  intros Hf. induction types as [|t types IH]; intros acc; cbn [foldM flat_map].
  - now rewrite app_nil_r.
  - rewrite Hf. cbn [bind]. rewrite IH. now rewrite app_assoc.
Qed.

(** The changes of [analyzeFile], once the parser and the two contents
    are known. *)
Lemma analyzeFile_changes (filePath baseSha headSha : string) (includeDev : bool)
      (changes : list Runtime.DependencyChange) (c : Runtime.DependencyChange) :
  fst (analyze filePath baseSha headSha includeDev) = Ok changes -> In c changes ->
  exists found oldDeps newDeps t typeChanges,
    getParserForFile L filePath = Some found
    /\ parse_content found (fst (getFileAtRef exec filePath baseSha)) = Ok oldDeps
    /\ parse_content found (fst (getFileAtRef exec filePath headSha)) = Ok newDeps
    /\ let oldByType := fold_left (flatten_group includeDev) oldDeps [] in
       let newByType := fold_left (flatten_group includeDev) newDeps [] in
       rcompare (match byType_get oldByType t with Some m => m | None => [] end)
                (match byType_get newByType t with Some m => m | None => [] end)
                (pattern_ecosystem found) filePath t = Ok typeChanges
       /\ In c typeChanges.
Proof.
  unfold analyzeFile. destruct (getParserForFile L filePath) as [found|];
    [|intros [= <-] []].
  destruct (getFileAtRef exec filePath baseSha) as [oldContent log1].
  destruct (getFileAtRef exec filePath headSha) as [newContent log2].
  destruct (content_missing oldContent && content_missing newContent);
    [intros [= <-] []|].
  cbn [fst]. intros H. step_in H as oldDeps Eo. step_in H as newDeps En.
  intros Hc. eapply types_loop in H as [[]|[t [tc [_ [Hf Hin]]]]]; [|exact Hc].
  exists found, oldDeps, newDeps, t, tc. auto.
Qed.

Lemma analyzeFile_shape (filePath baseSha headSha : string) (includeDev : bool)
      (changes : list Runtime.DependencyChange) (c : Runtime.DependencyChange) :
  fst (analyze filePath baseSha headSha includeDev) = Ok changes -> In c changes ->
  Runtime.file c = filePath
  /\ (exists found, getParserForFile L filePath = Some found
                    /\ Runtime.ecosystem c = pattern_ecosystem found)
  /\ change_shape c
  /\ (includeDev = false -> Runtime.dependencyType c = production).
Proof.
  intros H0 H.
  destruct (@analyzeFile_changes _ _ _ _ _ _ H0 H)
    as [found [oldDeps [newDeps [t [tc [Hp [_ [_ [Hr Hc]]]]]]]]].
  destruct (@runtime_compareVersions_changes _ _ _ _ _ _ _ Hr Hc)
    as [He [Hf [Hd [Hs Hfrom]]]].
  split; [exact Hf|]. split; [eauto|]. split; [exact Hs|].
  intros Hdev. rewrite Hd.
  destruct Hfrom as [[v Hv]|[v Hv]]; eapply byType_entry_kept; eauto.
Qed.

Lemma parse_missing (found : DependencyFilePattern) (content : option string) :
  content_missing content = true -> parse_content found content = Ok [].
Proof.
  destruct content as [c|]; cbn; [|reflexivity].
  now destruct (Js.truthy c).
Qed.

(** The parsers of the registry return. *)
Lemma parse_content_returns (filePath : string) (found : DependencyFilePattern)
      (content : option string) :
  getParserForFile L filePath = Some found ->
  exists groups, parse_content found content = Ok groups.
Proof.
  intros H. unfold getParserForFile in H. apply find_some in H as [H _].
  destruct content as [c|]; cbn; [|now exists []].
  destruct (Js.truthy c); [|now exists []].
  apply (@all_parsers_return L). unfold all_parsers. apply in_or_app. left.
  now apply in_map.
Qed.

Lemma analyzeFile_added (filePath baseSha headSha : string) (includeDev : bool) :
  content_missing (fst (getFileAtRef exec filePath baseSha)) = true ->
  exists changes,
    fst (analyze filePath baseSha headSha includeDev) = Ok changes
    /\ forall c, In c changes ->
                 Runtime.changeType c = added /\ Runtime.oldVersion c = JNull.
Proof.
  intros Hm. unfold analyzeFile.
  destruct (getParserForFile L filePath) as [found|] eqn:Ep;
    [|exists []; split; [reflexivity|intros c []]].
  destruct (@parse_content_returns filePath found
              (fst (getFileAtRef exec filePath headSha)) Ep) as [newDeps En].
  pose proof (parse_missing found _ Hm) as Eo.
  destruct (getFileAtRef exec filePath baseSha) as [oldContent log1].
  destruct (getFileAtRef exec filePath headSha) as [newContent log2].
  cbn [fst] in *.
  destruct (content_missing oldContent && content_missing newContent);
    [exists []; split; [reflexivity|intros c []]|].
  rewrite Eo, En. cbn [bind fold_left byType_get].
  erewrite types_loop_returns
    by (intros t; apply runtime_compareVersions_from_nothing).
  eexists. split; [reflexivity|]. cbn [app]. intros c Hc.
  apply in_flat_map in Hc as [t [_ Hc]]. apply in_map_iff in Hc as [e [<- _]].
  now split.
Qed.

Lemma analyzeFile_removed (filePath baseSha headSha : string) (includeDev : bool) :
  content_missing (fst (getFileAtRef exec filePath headSha)) = true ->
  exists changes,
    fst (analyze filePath baseSha headSha includeDev) = Ok changes
    /\ forall c, In c changes ->
                 Runtime.changeType c = removed /\ Runtime.newVersion c = JNull.
Proof.
  intros Hm. unfold analyzeFile.
  destruct (getParserForFile L filePath) as [found|] eqn:Ep;
    [|exists []; split; [reflexivity|intros c []]].
  destruct (@parse_content_returns filePath found
              (fst (getFileAtRef exec filePath baseSha)) Ep) as [oldDeps Eo].
  pose proof (parse_missing found _ Hm) as En.
  destruct (getFileAtRef exec filePath baseSha) as [oldContent log1].
  destruct (getFileAtRef exec filePath headSha) as [newContent log2].
  cbn [fst] in *.
  destruct (content_missing oldContent && content_missing newContent);
    [exists []; split; [reflexivity|intros c []]|].
  rewrite Eo, En. cbn [bind fold_left byType_get].
  erewrite types_loop_returns
    by (intros t; apply runtime_compareVersions_to_nothing).
  eexists. split; [reflexivity|]. cbn [app]. intros c Hc.
  apply in_flat_map in Hc as [t [_ Hc]]. apply in_map_iff in Hc as [e [<- _]].
  now split.
Qed.

Lemma analyzeFile_same (filePath baseSha headSha : string) (includeDev : bool)
      (found : DependencyFilePattern) (groups : list ParsedDependencies) :
  getParserForFile L filePath = Some found ->
  parse_content found (fst (getFileAtRef exec filePath baseSha)) = Ok groups ->
  parse_content found (fst (getFileAtRef exec filePath headSha)) = Ok groups ->
  (forall g k v, In g groups -> In (k, v) (dependencies g) ->
                 exists s, v = JStr s /\ s <> EmptyString) ->
  fst (analyze filePath baseSha headSha includeDev) = Ok [].
Proof.
  intros Hp Eo En Hv. unfold analyzeFile. rewrite Hp.
  destruct (getFileAtRef exec filePath baseSha) as [oldContent log1].
  destruct (getFileAtRef exec filePath headSha) as [newContent log2].
  cbn [fst] in *.
  destruct (content_missing oldContent && content_missing newContent);
    [reflexivity|].
  rewrite Eo, En. cbn [bind].
  pose proof (@flatten_inv (fun _ v => exists s, v = JStr s /\ s <> EmptyString)
                           includeDev _ Hv) as Hinv.
  erewrite (@types_loop_returns _ (fun _ => [])).
  - f_equal. cbn [app]. now induction (Set_of _) as [|t l IH].
  - intros t. pose proof (@byType_or_empty _ _ _ t Hinv) as [Hwf Hm].
    now apply runtime_compareVersions_same.
Qed.
End AnalyzeFacts.

(** ** Global replacement and the sanitizer *)

Lemma all_chars_app (q : ascii -> bool) (a b : string) :
  all_chars q (a ++ b)%string = all_chars q a && all_chars q b.
Proof.
  induction a as [|c a IH]; cbn; [reflexivity|]. now rewrite IH, andb_assoc.
Qed.

Lemma erased_refl (s : string) : erased s s.
Proof. induction s; constructor; assumption. Qed.

Lemma erased_app (a a' b b' : string) :
  erased a a' -> erased b b' -> erased (a ++ b)%string (a' ++ b')%string.
Proof. induction 1; cbn; intros; try constructor; auto. Qed.

Lemma erased_all_chars (q : ascii -> bool) (s t : string) :
  erased s t -> all_chars q s = true -> all_chars q t = true.
Proof.
  induction 1; cbn; intros H'; [reflexivity| |];
    apply andb_true_iff in H' as [Hc Hs]; [rewrite Hc|]; auto.
Qed.

Lemma erased_weigh (w : ascii -> nat) (s t : string) :
  erased s t -> weigh w t <= weigh w s.
Proof. induction 1; cbn; lia. Qed.

Lemma substring_slice (i : nat) (s : string) :
  s = (String.substring 0 i s ++ Js.slice i s)%string.
Proof.
  revert s. induction i as [|i IH]; intros [|c s]; cbn; try reflexivity.
  now rewrite <- IH.
Qed.

Lemma erased_slice (i : nat) (s : string) : erased s (Js.slice i s).
Proof.
  revert s. induction i as [|i IH]; intros [|c s]; cbn;
    try apply erased_refl. constructor. apply IH.
Qed.

Lemma erased_substring (i : nat) (s : string) : erased s (String.substring 0 i s).
Proof.
  revert s. induction i as [|i IH]; intros [|c s]; cbn; try constructor.
  - induction s; constructor; assumption.
  - apply IH.
Qed.

Lemma erased_trans (s t u : string) : erased s t -> erased t u -> erased s u.
Proof.
  intros H. revert u. induction H; intros u Hu.
  - exact Hu.
  - inversion Hu; subst; constructor; auto.
  - constructor. auto.
Qed.

(** Where a match is found: [i] characters after [pos], over [n]
    characters. *)
Lemma match_at_split (r : re) (pos : nat) (s : string) (m : result) :
  match_at r pos s = Some m ->
  exists n, n <= String.length s /\ min_len r <= n
            /\ index m = pos /\ rest m = Js.slice n s.
Proof.
  unfold match_at. intros H.
  apply run_consumes in H as (n & c' & Hn & Hm & H). injection H as <-.
  exists n. auto.
Qed.

Lemma search_from_split (r : re) (s : string) :
  forall (pos : nat) (m : result),
    search_from r pos s = Some m ->
    exists i n, i + n <= String.length s /\ min_len r <= n
                /\ index m = pos + i /\ rest m = Js.slice (i + n) s.
Proof.
  induction s as [|a s IH]; intros pos m; cbn [search_from].
  - destruct (match_at r pos "") eqn:E; [|discriminate].
    intros [= ->]. apply match_at_split in E as (n & Hn & Hm & Hi & Hr).
    exists 0, n. rewrite Nat.add_0_r. auto.
  - destruct (match_at r pos (String a s)) eqn:E.
    + intros [= ->]. apply match_at_split in E as (n & Hn & Hm & Hi & Hr).
      exists 0, n. rewrite Nat.add_0_r. auto.
    + intros H. apply IH in H as (i & n & Hn & Hm & Hi & Hr).
      exists (S i), n. cbn [String.length Js.slice plus]. repeat split; auto; lia.
Qed.

(** Replacing every match by nothing leaves characters out and changes
    none. *)
Lemma replace_all_from_erased (r : re) :
  forall (fuel pos : nat) (s : string),
    erased s (replace_all_from fuel r "" pos s).
Proof.
  induction fuel as [|fuel IH]; intros pos s; cbn [replace_all_from];
    [apply erased_refl|].
  destruct (search_from r pos s) as [m|] eqn:E; [|apply erased_refl].
  apply search_from_split in E as (i & n & Hn & Hm & Hi & Hr).
  rewrite Hi, Hr. replace (pos + i - pos) with i by lia. cbn [String.append].
  rewrite (substring_slice i s) at 1.
  apply erased_app; [apply erased_refl|].
  rewrite <- slice_slice.
  eapply erased_trans; [apply erased_slice|apply IH].
Qed.

Lemma replace_all_erased (r : re) (s : string) : erased s (replace_all r "" s).
Proof. apply replace_all_from_erased. Qed.

(** A pattern that begins with a character matches nowhere in a string
    without that character. *)
Lemma search_from_absent (p : ascii -> bool) (r : re) (s : string) :
  all_chars (fun c => negb (p c)) s = true ->
  forall pos, search_from (Seq (Chr p) r) pos s = None.
Proof.
  induction s as [|a s IH]; intros H pos; cbn [search_from].
  - reflexivity.
  - cbn [all_chars] in H. apply andb_true_iff in H as [Ha Hs].
    apply negb_true_iff in Ha.
    unfold match_at. rewrite run_Seq. cbn [run]. rewrite Ha. now apply IH.
Qed.

Lemma replace_all_absent (p : ascii -> bool) (r : re) (by_ s : string) :
  all_chars (fun c => negb (p c)) s = true ->
  replace_all (Seq (Chr p) r) by_ s = s.
Proof.
  intros H. unfold replace_all. cbn [replace_all_from].
  now rewrite search_from_absent.
Qed.

Lemma append_assoc (a b c : string) :
  ((a ++ b) ++ c = a ++ (b ++ c))%string.
Proof. induction a as [|x a IH]; cbn; [reflexivity|]. now rewrite IH. Qed.

(** Replacing the characters of a class, one by one. *)
Lemma replace_all_chr_app (p : ascii -> bool) (by_ a b : string) :
  replace_all_chr p by_ (a ++ b)%string
  = (replace_all_chr p by_ a ++ replace_all_chr p by_ b)%string.
Proof.
  induction a as [|c a IH]; cbn; [reflexivity|]. rewrite IH.
  destruct (p c); cbn; [|reflexivity].
  now rewrite append_assoc.
Qed.

Lemma replace_all_chr_absent (p : ascii -> bool) (by_ s : string) :
  all_chars (fun c => negb (p c)) s = true -> replace_all_chr p by_ s = s.
Proof.
  induction s as [|c s IH]; cbn; [reflexivity|]. intros H.
  apply andb_true_iff in H as [Hc Hs]. apply negb_true_iff in Hc.
  now rewrite Hc, IH.
Qed.

Lemma replace_all_chr_all (p q : ascii -> bool) (by_ s : string) :
  all_chars q by_ = true ->
  all_chars (fun c => p c || q c) s = true ->
  all_chars q (replace_all_chr p by_ s) = true.
Proof.
  intros Hb. induction s as [|c s IH]; cbn; [reflexivity|]. intros H.
  apply andb_true_iff in H as [Hc Hs]. destruct (p c) eqn:Ep.
  - rewrite all_chars_app, Hb. now apply IH.
  - cbn in Hc. cbn. rewrite Hc. now apply IH.
Qed.

Lemma replace_all_chr_erased (p : ascii -> bool) (s : string) :
  erased s (replace_all_chr p "" s).
Proof.
  induction s as [|c s IH]; cbn; [constructor|].
  destruct (p c); cbn; now constructor.
Qed.

Lemma all_chars_impl (p q : ascii -> bool) (s : string) :
  (forall c, p c = true -> q c = true) ->
  all_chars p s = true -> all_chars q s = true.
Proof.
  intros Hpq. induction s as [|c s IH]; cbn; [reflexivity|]. intros H.
  apply andb_true_iff in H as [Hc Hs]. now rewrite (Hpq c Hc), IH.
Qed.

Lemma all_chars_and (p q : ascii -> bool) (s : string) :
  all_chars p s = true -> all_chars q s = true ->
  all_chars (fun c => p c && q c) s = true.
Proof.
  induction s as [|c s IH]; cbn; [reflexivity|]. intros H1 H2.
  apply andb_true_iff in H1 as [Hc1 Hs1]. apply andb_true_iff in H2 as [Hc2 Hs2].
  now rewrite Hc1, Hc2, IH.
Qed.

Lemma all_chars_true (q : ascii -> bool) (s : string) :
  (forall c, q c = true) -> all_chars q s = true.
Proof. intros H. induction s as [|c s IH]; cbn; [reflexivity|]. now rewrite H, IH. Qed.

Lemma weigh_app (w : ascii -> nat) (a b : string) :
  weigh w (a ++ b)%string = weigh w a + weigh w b.
Proof. induction a as [|c a IH]; cbn; [reflexivity|]. rewrite IH. lia. Qed.

Lemma substring_length_le (n : nat) (s : string) :
  String.length (String.substring 0 n s) <= n.
Proof.
  revert s. induction n as [|n IH]; intros [|c s]; cbn; try lia.
  specialize (IH s). lia.
Qed.

Import Comment.

(** The steps of [sanitizeForMarkdown] before and after the removal of
    tags. *)
Local Abbreviation escapes s :=
  (replace_all_chr (Ascii.eqb "]") "\]"
     (replace_all_chr (Ascii.eqb "[") "\["
        (replace_all_chr (Ascii.eqb "|") "\|"
           (replace_all_chr (Ascii.eqb "`") "\`"
              (replace_all_chr is_control "" s))))).

Local Abbreviation entities s :=
  (replace_all_chr (Ascii.eqb ">") "&gt;"
     (replace_all_chr (Ascii.eqb "<") "&lt;"
        (replace_all_chr (Ascii.eqb "&") "&amp;" s))).

Lemma sanitizeForMarkdown_steps (input : string) (maxLength : nat) :
  sanitizeForMarkdown input maxLength
  = if negb (Js.truthy input) then EmptyString
    else entities (replace_all re_tag "" (escapes (String.substring 0 maxLength input))).
Proof. reflexivity. Qed.

Ltac by_cases c :=
  repeat match goal with
         | |- context [Ascii.eqb ?a c] =>
             let E := fresh "E" in
             destruct (Ascii.eqb a c) eqn:E;
             [apply Ascii.eqb_eq in E; subst c|]
         end.

Lemma length_app (a b : string) :
  String.length (a ++ b)%string = String.length a + String.length b.
Proof. induction a as [|c a IH]; cbn; [reflexivity|]. now rewrite IH. Qed.

Lemma entities_cons (c : ascii) (s : string) :
  entities (String c s) = (entities (String c EmptyString) ++ entities s)%string.
Proof.
  change (String c s) with (String c EmptyString ++ s)%string.
  now rewrite !replace_all_chr_app.
Qed.

Lemma entities_length_char (c : ascii) :
  String.length (entities (String c EmptyString)) = entity_length c.
Proof.
  unfold entity_length. cbn [replace_all_chr].
  destruct (Ascii.eqb "&" c) eqn:E1; [reflexivity|].
  cbn [replace_all_chr]. destruct (Ascii.eqb "<" c) eqn:E2; [reflexivity|].
  cbn [replace_all_chr]. now destruct (Ascii.eqb ">" c) eqn:E3.
Qed.

Lemma entities_length (s : string) :
  String.length (entities s) = weigh entity_length s.
Proof.
  induction s as [|c s IH]; [reflexivity|].
  rewrite entities_cons, length_app, entities_length_char, IH. reflexivity.
Qed.

Lemma escapes_cons (c : ascii) (s : string) :
  escapes (String c s) = (escapes (String c EmptyString) ++ escapes s)%string.
Proof.
  change (String c s) with (String c EmptyString ++ s)%string.
  now rewrite !replace_all_chr_app.
Qed.

Lemma escapes_weigh_char (c : ascii) :
  weigh entity_length (escapes (String c EmptyString)) <= 5.
Proof.
  cbn [replace_all_chr]. destruct (is_control c); [cbn; lia|].
  cbn [replace_all_chr]. destruct (Ascii.eqb "`" c) eqn:E1; [cbn; lia|].
  cbn [replace_all_chr]. destruct (Ascii.eqb "|" c) eqn:E2; [cbn; lia|].
  cbn [replace_all_chr]. destruct (Ascii.eqb "[" c) eqn:E3; [cbn; lia|].
  cbn [replace_all_chr]. destruct (Ascii.eqb "]" c) eqn:E4; [cbn; lia|].
  cbn. unfold entity_length.
  destruct (Ascii.eqb "&" c); [lia|].
  destruct (Ascii.eqb "<" c || Ascii.eqb ">" c); lia.
Qed.

Lemma escapes_weigh (s : string) :
  weigh entity_length (escapes s) <= 5 * String.length s.
Proof.
  induction s as [|c s IH]; [cbn; lia|].
  rewrite escapes_cons, weigh_app. pose proof (escapes_weigh_char c).
  cbn [String.length]. lia.
Qed.

(** X19. What [sanitizeForMarkdown] returns is at most five times as
    long as the limit it was given. *)
Theorem sanitizeForMarkdown_length (input : string) (maxLength : nat) :
  String.length (sanitizeForMarkdown input maxLength) <= 5 * maxLength.
Proof.
  rewrite sanitizeForMarkdown_steps. destruct (negb (Js.truthy input)); [cbn; lia|].
  rewrite entities_length.
  pose proof (erased_weigh entity_length
                (replace_all_erased re_tag
                   (escapes (String.substring 0 maxLength input)))).
  pose proof (escapes_weigh (String.substring 0 maxLength input)).
  pose proof (substring_length_le maxLength input). lia.
Qed.

Lemma replace_all_chr_keeps (p q : ascii -> bool) (by_ s : string) :
  all_chars q by_ = true -> all_chars q s = true ->
  all_chars q (replace_all_chr p by_ s) = true.
Proof.
  intros Hb Hs. apply replace_all_chr_all; [exact Hb|].
  revert Hs. apply all_chars_impl. intros c ->. apply orb_true_r.
Qed.

Lemma escapes_no_control (s : string) :
  all_chars (fun c => negb (is_control c)) (escapes s) = true.
Proof.
  do 4 (apply replace_all_chr_keeps; [reflexivity|]).
  apply replace_all_chr_all; [reflexivity|].
  apply all_chars_true. intros c. now destruct (is_control c).
Qed.

Lemma entities_no_markup (s : string) :
  all_chars (fun c => negb (is_control c)) s = true ->
  all_chars (fun c => negb (is_control c || one_of "<>" c)) (entities s) = true.
Proof.
  intros H.
  apply replace_all_chr_all; [reflexivity|].
  eapply all_chars_impl;
    [|apply (@replace_all_chr_all
               (Ascii.eqb "<")
               (fun c => negb (is_control c) && negb (Ascii.eqb "<" c)));
      [reflexivity|]].
  - intros c Hc. cbn beta. cbn [one_of]. apply andb_true_iff in Hc as [H1 H2].
    apply negb_true_iff in H1, H2. rewrite H1, H2.
    now destruct (Ascii.eqb ">" c).
  - assert (H' : all_chars (fun c => negb (is_control c))
                           (replace_all_chr (Ascii.eqb "&") "&amp;" s) = true)
      by (apply replace_all_chr_keeps; [reflexivity|exact H]).
    revert H'. apply all_chars_impl.
    intros c Hc. cbn beta. rewrite Hc. now destruct (Ascii.eqb "<" c).
Qed.

(** X18. What [sanitizeForMarkdown] returns holds no angle bracket and
    none of the control characters it is meant to remove. *)
Theorem sanitizeForMarkdown_no_markup (input : string) (maxLength : nat) :
  all_chars (fun c => negb (is_control c || one_of "<>" c))
            (sanitizeForMarkdown input maxLength) = true.
Proof.
  rewrite sanitizeForMarkdown_steps. destruct (negb (Js.truthy input)); [reflexivity|].
  apply entities_no_markup.
  eapply erased_all_chars; [apply replace_all_erased|apply escapes_no_control].
Qed.

(** X20. A string without control characters and without any of
    [`|[]<>&] comes out of [sanitizeForMarkdown] unchanged, cut to the
    limit. *)
Theorem sanitizeForMarkdown_plain (input : string) (maxLength : nat) :
  all_chars (fun c => negb (is_markup c)) input = true ->
  sanitizeForMarkdown input maxLength = String.substring 0 maxLength input.
Proof.
  intros H. rewrite sanitizeForMarkdown_steps.
  destruct input as [|a input]; [now destruct maxLength|]. cbn [Js.truthy negb].
  set (s := String.substring 0 maxLength (String a input)).
  assert (Hs : all_chars (fun c => negb (is_markup c)) s = true).
  { eapply erased_all_chars; [apply erased_substring|exact H]. }
  clearbody s. clear H.
  assert (A : forall p : ascii -> bool,
             (forall c, is_markup c = false -> p c = false) ->
             all_chars (fun c => negb (p c)) s = true).
  { intros p Hp. revert Hs. apply all_chars_impl. intros c Hc.
    apply negb_true_iff in Hc. now rewrite (Hp c Hc). }
  assert (B : forall d, one_of "`|[]<>&" d = true ->
                        forall c, is_markup c = false -> Ascii.eqb d c = false).
  { intros d Hd c Hc. unfold is_markup in Hc. apply orb_false_iff in Hc as [_ Hc].
    destruct (Ascii.eqb d c) eqn:E; [|reflexivity].
    apply Ascii.eqb_eq in E. subst c. congruence. }
  rewrite (@replace_all_chr_absent is_control _ s).
  2:{ apply A. intros c Hc. unfold is_markup in Hc. now apply orb_false_iff in Hc. }
  rewrite (@replace_all_chr_absent (Ascii.eqb "`") _ s) by (apply A, B; reflexivity).
  rewrite (@replace_all_chr_absent (Ascii.eqb "|") _ s) by (apply A, B; reflexivity).
  rewrite (@replace_all_chr_absent (Ascii.eqb "[") _ s) by (apply A, B; reflexivity).
  rewrite (@replace_all_chr_absent (Ascii.eqb "]") _ s) by (apply A, B; reflexivity).
  change re_tag with (Seq (Chr (Ascii.eqb "<"))
                          (Seq (Star (Chr (notc (Ascii.eqb ">")))) (Lit ">"))).
  rewrite replace_all_absent by (apply A, B; reflexivity).
  rewrite (@replace_all_chr_absent (Ascii.eqb "&") _ s) by (apply A, B; reflexivity).
  rewrite (@replace_all_chr_absent (Ascii.eqb "<") _ s) by (apply A, B; reflexivity).
  now rewrite (@replace_all_chr_absent (Ascii.eqb ">") _ s) by (apply A, B; reflexivity).
Qed.

Lemma sanitizeForMarkdown_plain_witness :
  all_chars (fun c => negb (is_markup c)) "@types/node" = true
  /\ Comment.sanitizeForMarkdown "@types/node" 6 = "@types".
Proof.
  split; [reflexivity|].
  exact (@sanitizeForMarkdown_plain "@types/node" 6 eq_refl).
Defined.

(** ** More on reconciliation, grouping and the summary *)

Lemma dedup_fold_distinct (l : list DependencyChange) :
  forall seen : JSMap DependencyChange,
    NoDup (keys seen ++ map change_key l) ->
    fold_left dedup_step l seen = seen ++ map (fun c => (change_key c, c)) l.
Proof.
  induction l as [|c l IH]; intros seen H; cbn [fold_left map].
  - now rewrite app_nil_r.
  - cbn [map] in H.
    assert (Hc : ~ In (change_key c) (keys seen)).
    { apply NoDup_remove_2 in H. intros Hin. apply H. apply in_or_app. now left. }
    unfold dedup_step at 2. rewrite (map_get_None _ _ Hc), (@map_set_fresh _ seen (change_key c) c Hc).
    rewrite IH.
    + now rewrite <- app_assoc.
    + unfold keys. rewrite map_app. cbn [map fst]. rewrite <- app_assoc. exact H.
Qed.

Lemma deduplicateChanges_distinct (l : list DependencyChange) :
  NoDup (map change_key l) -> deduplicateChanges l = l.
Proof.
  intros H. unfold deduplicateChanges. rewrite dedup_fold_distinct by exact H.
  cbn [app]. rewrite map_map. cbn [snd]. apply map_id.
Qed.

Lemma survivor_In (l : list DependencyChange) (k : string) (c : DependencyChange) :
  survivor l k = Some c -> In c l /\ change_key c = k.
Proof.
  unfold survivor.
  destruct (find (fun c => String.eqb (change_key c) k && negb (isLockFile c)) l)
    as [c'|] eqn:E.
  - intros [= <-]. apply find_some in E as [Hin Hk].
    apply andb_true_iff in Hk as [Hk _]. now apply String.eqb_eq in Hk.
  - intros H. apply find_some in H as [Hin Hk]. now apply String.eqb_eq in Hk.
Qed.

Lemma survivor_exists (l : list DependencyChange) (c : DependencyChange) :
  In c l -> exists c', survivor l (change_key c) = Some c'.
Proof.
  intros Hin. unfold survivor.
  destruct (find (fun c0 => String.eqb (change_key c0) (change_key c)
                            && negb (isLockFile c0)) l) as [c'|]; [eauto|].
  destruct (find (fun c0 => String.eqb (change_key c0) (change_key c)) l)
    as [c'|] eqn:E; [eauto|].
  apply (List.find_none _ _ E) in Hin. now rewrite String.eqb_refl in Hin.
Qed.

Lemma deduplicateChanges_In (l : list DependencyChange) (c : DependencyChange) :
  In c (deduplicateChanges l) <-> survivor l (change_key c) = Some c.
Proof.
  pose proof (deduplicateChanges_by_key l (change_key c)) as H. split.
  - intros Hin.
    assert (Hf : In c (filter (fun c0 => String.eqb (change_key c0) (change_key c))
                              (deduplicateChanges l))).
    { apply filter_In. split; [exact Hin|apply String.eqb_refl]. }
    rewrite H in Hf. destruct (survivor l (change_key c)) as [c'|]; [|destruct Hf].
    destruct Hf as [->|[]]. reflexivity.
  - intros Hs. rewrite Hs in H.
    assert (Hf : In c (filter (fun c0 => String.eqb (change_key c0) (change_key c))
                              (deduplicateChanges l))) by (rewrite H; now left).
    now apply filter_In in Hf.
Qed.

Lemma group_step_get (grouped : JSMap (list DependencyChange))
      (c : DependencyChange) (k : string) :
  map_get (group_step grouped c) k
  = if String.eqb (ecosystem_id (ecosystem c)) k
    then Some (match map_get grouped k with Some g => g | None => [] end ++ [c])
    else map_get grouped k.
Proof.
  unfold group_step. set (key := ecosystem_id (ecosystem c)).
  destruct (map_get grouped key) as [g|] eqn:E.
  - rewrite E, map_get_set.
    destruct (String.eqb_spec key k) as [<-|]; [now rewrite E|reflexivity].
  - rewrite map_get_set, String.eqb_refl, !map_get_set.
    destruct (String.eqb_spec key k) as [<-|]; [now rewrite E|reflexivity].
Qed.

Lemma group_fold_get (l : list DependencyChange) (k : string) :
  forall grouped : JSMap (list DependencyChange),
    map_get (fold_left group_step l grouped) k
    = match filter (fun c => String.eqb (ecosystem_id (ecosystem c)) k) l with
      | [] => map_get grouped k
      | g => Some (match map_get grouped k with Some g0 => g0 | None => [] end ++ g)
      end.
Proof.
  induction l as [|c l IH]; intros grouped; cbn [fold_left filter]; [reflexivity|].
  rewrite IH, group_step_get.
  destruct (String.eqb (ecosystem_id (ecosystem c)) k).
  - destruct (filter _ l) as [|c' g]; [reflexivity|].
    now rewrite <- app_assoc.
  - reflexivity.
Qed.

Lemma ecosystem_id_inj (a b : Ecosystem) :
  String.eqb (ecosystem_id a) (ecosystem_id b) = Ecosystem_eqb a b.
Proof. now destruct a, b. Qed.

Lemma groupByEcosystem_get (l : list DependencyChange) (e : Ecosystem) :
  map_get (groupByEcosystem l) (ecosystem_id e)
  = match filter (fun c => Ecosystem_eqb (ecosystem c) e) l with
    | [] => None
    | g => Some g
    end.
Proof.
  unfold groupByEcosystem. rewrite group_fold_get. cbn [map_get app].
  erewrite filter_ext; [reflexivity|]. intros c. apply ecosystem_id_inj.
Qed.

Lemma groupByEcosystem_keys (l : list DependencyChange) (k : string) :
  In k (keys (groupByEcosystem l)) ->
  exists c, In c l /\ k = ecosystem_id (ecosystem c).
Proof.
  intros H. apply map_has_In in H. unfold map_has, groupByEcosystem in H.
  rewrite group_fold_get in H. cbn [map_get] in H.
  destruct (filter _ l) as [|c g] eqn:E; [discriminate|].
  assert (Hc : In c (filter (fun c => String.eqb (ecosystem_id (ecosystem c)) k) l))
    by (rewrite E; now left).
  apply filter_In in Hc as [Hin Hk]. apply String.eqb_eq in Hk. eauto.
Qed.

Lemma groupByEcosystem_wf (l : list DependencyChange) :
  wf_map (groupByEcosystem l).
Proof.
  unfold groupByEcosystem. apply fold_left_inv; [|constructor].
  intros grouped c Hwf. unfold group_step.
  destruct (map_get grouped _) eqn:E.
  - rewrite E. now apply wf_map_set.
  - rewrite map_get_set, String.eqb_refl. now do 2 apply wf_map_set.
Qed.

(** [summarizeChanges] *)
Import Comment.

Lemma ChangeType_eqb_id (a b : ChangeType) :
  String.eqb (changeType_id a) (changeType_id b) = ChangeType_eqb a b.
Proof. now destruct a, b. Qed.

Lemma summarize_step_get (summary : JSMap nat) (c : DependencyChange) (k : string) :
  map_get (summarize_step summary c) k
  = if String.eqb (changeType_id (changeType c)) k
    then Some (S (match map_get summary k with Some n => n | None => 0 end))
    else map_get summary k.
Proof.
  unfold summarize_step. rewrite map_get_set.
  destruct (String.eqb_spec (changeType_id (changeType c)) k) as [<-|];
    [|reflexivity].
  now rewrite Nat.add_1_r.
Qed.

Lemma summarize_fold_get (l : list DependencyChange) (k : string) :
  forall (summary : JSMap nat) (n : nat),
    map_get summary k = Some n ->
    map_get (fold_left summarize_step l summary) k
    = Some (n + List.length
                  (filter (fun c => String.eqb (changeType_id (changeType c)) k) l)).
Proof.
  induction l as [|c l IH]; intros summary n H; cbn [fold_left filter].
  - now rewrite Nat.add_0_r.
  - pose proof (summarize_step_get summary c k) as Hs. rewrite H in Hs.
    destruct (String.eqb (changeType_id (changeType c)) k).
    + rewrite (IH _ _ Hs). cbn [List.length]. f_equal. lia.
    + now rewrite (IH _ _ Hs).
Qed.

Lemma list_sum_set (m : JSMap nat) (k : string) (n : nat) :
  map_get m k = Some n ->
  list_sum (map snd (map_set m k (n + 1))) = S (list_sum (map snd m))
  /\ keys (map_set m k (n + 1)) = keys m.
Proof.
  assert (L : forall (a : nat) (x : list nat), list_sum (a :: x) = a + list_sum x)
    by reflexivity.
  induction m as [|[k' v] m IH]; cbn [map_get map_set]; [discriminate|].
  destruct (String.eqb k' k).
  - intros [= ->]. unfold keys. cbn [map snd fst]. rewrite !L. split; [lia|reflexivity].
  - intros H. destruct (IH H) as [H1 H2]. unfold keys in *.
    cbn [map snd fst]. rewrite !L, H1, H2. split; [lia|reflexivity].
Qed.

Lemma summarize_fold_sum (l : list DependencyChange) :
  forall summary : JSMap nat,
    (forall t, In (changeType_id t) (keys summary)) ->
    list_sum (map snd (fold_left summarize_step l summary))
    = list_sum (map snd summary) + List.length l.
Proof.
  induction l as [|c l IH]; intros summary H; cbn [fold_left List.length]; [lia|].
  assert (Hk : exists n, map_get summary (changeType_id (changeType c)) = Some n).
  { specialize (H (changeType c)). apply map_has_In in H. unfold map_has in H.
    destruct (map_get summary _) as [n|]; [eauto|discriminate]. }
  destruct Hk as [n Hn]. unfold summarize_step at 2. rewrite Hn.
  destruct (list_sum_set _ _ Hn) as [H1 H2].
  rewrite IH; [rewrite H1; lia|]. intros t. rewrite H2. apply H.
Qed.

(** X17. The summary counts every change once: the count kept for a
    change type is the number of changes of that type, and the counts
    add up to the number of changes. *)
Theorem summarizeChanges_counts (l : list DependencyChange) :
  (forall t, map_get (summarizeChanges l) (changeType_id t)
             = Some (List.length (filter (fun c => ChangeType_eqb (changeType c) t) l)))
  /\ list_sum (map snd (summarizeChanges l)) = List.length l.
Proof.
  unfold summarizeChanges. split.
  - intros t. erewrite summarize_fold_get; [|now destruct t].
    cbn [plus]. do 2 f_equal. apply filter_ext. intros c. apply ChangeType_eqb_id.
  - rewrite summarize_fold_sum; [reflexivity|].
    intros []; cbn; tauto.
Qed.

(** ** More on the differ and on [cleanVersion] *)

Lemma flat_map_single {A B : Type} (f : A -> B) (l : list A) :
  flat_map (fun x => [f x]) l = map f l.
Proof. induction l as [|x l IH]; cbn; [reflexivity|]. now rewrite IH. Qed.

Lemma strip_range_ops_app (ops body : string) :
  all_chars is_range_op ops = true ->
  match body with String c _ => is_range_op c = false | EmptyString => True end ->
  strip_range_ops (ops ++ body)%string = body.
Proof.
  intros Ho Hb. induction ops as [|c ops IH]; cbn [String.append].
  - destruct body as [|c body]; [reflexivity|]. cbn. now rewrite Hb.
  - cbn [all_chars] in Ho. apply andb_true_iff in Ho as [Hc Ho].
    cbn [strip_range_ops]. rewrite Hc. now apply IH.
Qed.

Section DifferMore.
Variable SemVer : Type.
Variable semver_coerce : string -> option SemVer.
Variable semver_prerelease : string -> option (list string).
Variable semver_diff : SemVer -> SemVer -> option string.

Local Abbreviation compare :=
  (compareVersions semver_coerce semver_prerelease semver_diff).

Lemma compareVersions_all_added (newDeps : JSMap string) (eco : Ecosystem)
      (path : string) (depType : DependencyType) :
  compare [] newDeps eco path depType
  = map (fun e => mkChange (fst e) eco path None (Some (snd e)) added depType) newDeps.
Proof.
  rewrite compareVersions_flat. cbn [flat_map app].
  rewrite <- flat_map_single. apply flat_map_ext. now intros [k v].
Qed.

Lemma compareVersions_all_removed (oldDeps : JSMap string) (eco : Ecosystem)
      (path : string) (depType : DependencyType) :
  compare oldDeps [] eco path depType
  = map (fun e => mkChange (fst e) eco path (Some (snd e)) None removed depType)
        oldDeps.
Proof.
  rewrite compareVersions_flat. cbn [flat_map]. rewrite app_nil_r.
  rewrite <- flat_map_single. apply flat_map_ext. now intros [k v].
Qed.
End DifferMore.

(** ** No parser returns an empty group *)

Lemma filled_nil : filled [].
Proof. intros g []. Qed.

Lemma filled_push (results : list ParsedDependencies) (deps : JSMap jsval)
      (t : DependencyType) :
  filled results -> filled (push_group results deps t).
Proof.
  intros Hr. unfold push_group. destruct deps as [|e deps]; [exact Hr|]. cbn.
  intros g Hg. apply in_app_or in Hg as [Hg|[<-|[]]]; [now apply Hr|discriminate].
Qed.

Lemma filled_single (deps : JSMap jsval) (t : DependencyType) :
  (if (map_size deps =? 0)%nat then Ok [] else Ok [mkParsed deps t])
  = Ok (push_group [] deps t).
Proof. now destruct deps. Qed.

(** Peel the binds, tests and matches that lead to the result of a
    parser. *)
Ltac to_result H :=
  repeat match type of H with
         | (if (map_size _ =? 0)%nat then Ok [] else Ok [_]) = Ok _ =>
             rewrite filled_single in H
         | bind _ _ = Ok _ => apply bind_Ok in H as [? [_ H]]
         | (if ?b then _ else _) = Ok _ => destruct b
         | (let (_, _) := ?p in _) = Ok _ => destruct p
         | Ok _ = Ok _ => injection H as <-
         end.

Ltac filled_groups :=
  repeat match goal with
         | |- filled (let (_, _) := ?p in _) => destruct p
         | |- filled [] => apply filled_nil
         | |- filled (push_group _ _ _) => apply filled_push
         end.

Lemma text_parsers_filled (p : Parser) (content : string)
      (groups : list ParsedDependencies) :
  In p text_parsers -> p content = Ok groups -> filled groups.
Proof.
  unfold text_parsers. cbn [In].
  intros [<-|[<-|[<-|[<-|[<-|[<-|[<-|[]]]]]]]];
    unfold Node.parseYarnLock, Python.parseRequirementsTxt, Go.parseGoMod,
    Go.parseGoSum, Ruby.parseGemfile, Ruby.parseGemfileLock, Java.parseBuildGradle;
    rewrite ?filled_single; cbn [try_catch]; intros [= <-]; filled_groups.
Qed.

Lemma Map_of_nonempty {V : Type} (es : list (string * V)) :
  es <> [] -> Map_of es <> [].
Proof.
  unfold Map_of. destruct es as [|e es]; [congruence|]. intros _. cbn [fold_left].
  assert (H : forall (l : list (string * V)) (m : JSMap V),
             m <> [] -> fold_left (fun m e => map_set m (fst e) (snd e)) l m <> []).
  { induction l as [|x l IH]; intros m Hm; [exact Hm|]. cbn [fold_left].
    apply IH, map_set_nonempty. }
  apply H, map_set_nonempty.
Qed.

Section Filled.
Variable L : Loaders.

Lemma package_section_filled (pkg : jsval) (results : list ParsedDependencies)
      (field : string) (t : DependencyType) (results' : list ParsedDependencies) :
  filled results -> Node.package_section pkg results field t = Ok results' ->
  filled results'.
Proof.
  intros Hr H. unfold Node.package_section in H.
  step_in H as deps Ed. destruct (Val.truthy deps); [|now injection H as <-].
  step_in H as ks Eks. destruct (0 <? List.length ks)%nat eqn:El;
    [|now injection H as <-].
  step_in H as es Ees. injection H as <-.
  intros g Hg. apply in_app_or in Hg as [Hg|[<-|[]]]; [now apply Hr|].
  cbn [dependencies]. apply Map_of_nonempty.
  unfold Val.keys in Eks. rewrite Ees in Eks. injection Eks as <-.
  intros ->. discriminate.
Qed.

Lemma parsePackageJson_filled (content : string) (groups : list ParsedDependencies) :
  Node.parsePackageJson (JSON_parse L) content = Ok groups -> filled groups.
Proof.
  unfold Node.parsePackageJson. intros H.
  apply try_catch_Ok in H as [H| ->]; [|apply filled_nil].
  destruct (negb _); [injection H as <-; apply filled_nil|].
  step_in H as pkg Ep.
  step_in H as r1 E1. apply package_section_filled in E1; [|apply filled_nil].
  step_in H as r2 E2. apply package_section_filled in E2; [|exact E1].
  step_in H as r3 E3. apply package_section_filled in E3; [|exact E2].
  step_in H as r4 E4. apply package_section_filled in E4; [|exact E3].
  now injection H as <-.
Qed.

Lemma lock_parsers_filled (p : Parser) (content : string)
      (groups : list ParsedDependencies) :
  In p [Node.parsePackageLockJson (JSON_parse L); Node.parsePnpmLock (yaml_load L);
        Python.parsePoetryLock (toml_parse L); Java.parsePomXml (parseString L);
        Rust.parseCargoLock (toml_parse L); Dotnet.parseCsproj (parseString L);
        Dotnet.parsePackagesConfig (parseString L)] ->
  p content = Ok groups -> filled groups.
Proof.
  cbn [In]. intros [<-|[<-|[<-|[<-|[<-|[<-|[<-|[]]]]]]]];
    unfold Node.parsePackageLockJson, Node.parsePnpmLock, Python.parsePoetryLock,
    Java.parsePomXml, Rust.parseCargoLock, Dotnet.parsePackagesConfig,
    Dotnet.parseCsproj, Node.results_of;
    intros H; apply try_catch_Ok in H as [H| ->]; try apply filled_nil;
    to_result H; filled_groups.
Qed.

Lemma table_group_filled (skip_python : bool) (table : jsval) (t : DependencyType)
      (results results' : list ParsedDependencies) :
  filled results ->
  Python.table_group skip_python table t results = Ok results' -> filled results'.
Proof.
  intros Hr H. unfold Python.table_group in H. to_result H; filled_groups; exact Hr.
Qed.

Lemma poetry_group_filled (results : list ParsedDependencies) (entry : string * jsval)
      (results' : list ParsedDependencies) :
  filled results -> Python.poetry_group results entry = Ok results' -> filled results'.
Proof.
  intros Hr H. unfold Python.poetry_group in H. destruct entry as [groupName group].
  step_in H as table Et. now apply table_group_filled in H.
Qed.

Lemma parsePyprojectToml_filled (content : string) (groups : list ParsedDependencies) :
  Python.parsePyprojectToml (toml_parse L) content = Ok groups -> filled groups.
Proof.
  unfold Python.parsePyprojectToml. intros H.
  apply try_catch_Ok in H as [H| ->]; [|apply filled_nil].
  step_in H as pyproject Epy.
  destruct (negb (Val.truthy pyproject)); [injection H as <-; apply filled_nil|].
  step_in H as project Eproject.
  step_in H as st1 E1. destruct st1 as [results totalDeps].
  assert (H1 : filled results).
  { to_result E1; filled_groups. }
  step_in H as results2 E2.
  assert (H2 : filled results2).
  { to_result E2; filled_groups; exact H1. }
  step_in H as tool Etool.
  destruct (Val.truthy (Val.get_opt tool "poetry")); [|now injection H as <-].
  step_in H as table3 Et3. step_in H as results3 E3.
  apply table_group_filled in E3; [|exact H2].
  step_in H as table4 Et4. step_in H as results4 E4.
  apply table_group_filled in E4; [|exact E3].
  step_in H as pgroups Epg.
  destruct (Val.truthy pgroups); [|now injection H as <-].
  step_in H as es Ees.
  refine (@foldM_inv _ _ filled Python.poetry_group es _ results4 groups
                     E4 H).
  intros s a s'. apply poetry_group_filled.
Qed.

Lemma parsePipfile_filled (content : string) (groups : list ParsedDependencies) :
  Python.parsePipfile (toml_parse L) content = Ok groups -> filled groups.
Proof.
  unfold Python.parsePipfile. intros H.
  apply try_catch_Ok in H as [H| ->]; [|apply filled_nil].
  step_in H as pipfile Epip.
  destruct (negb (Val.truthy pipfile)); [injection H as <-; apply filled_nil|].
  step_in H as table1 Et1. step_in H as results1 E1.
  apply table_group_filled in E1; [|apply filled_nil].
  step_in H as table2 Et2. now apply table_group_filled in H.
Qed.

Lemma cargo_section_filled (cargo : jsval) (results : list ParsedDependencies)
      (field : string) (t : DependencyType) (results' : list ParsedDependencies) :
  filled results -> Rust.cargo_section cargo results field t = Ok results' ->
  filled results'.
Proof.
  intros Hr H. unfold Rust.cargo_section in H. to_result H; filled_groups; exact Hr.
Qed.

Lemma parseCargoToml_filled (content : string) (groups : list ParsedDependencies) :
  Rust.parseCargoToml (toml_parse L) content = Ok groups -> filled groups.
Proof.
  unfold Rust.parseCargoToml. intros H.
  apply try_catch_Ok in H as [H| ->]; [|apply filled_nil].
  step_in H as cargo Ec.
  destruct (negb (Val.truthy cargo)); [injection H as <-; apply filled_nil|].
  step_in H as r1 E1. apply cargo_section_filled in E1; [|apply filled_nil].
  step_in H as r2 E2. apply cargo_section_filled in E2; [|exact E1].
  now apply cargo_section_filled in H.
Qed.

Lemma all_parsers_filled (p : Parser) (content : string)
      (groups : list ParsedDependencies) :
  In p (all_parsers L) -> p content = Ok groups -> filled groups.
Proof.
  unfold all_parsers, DEPENDENCY_FILE_PATTERNS. cbn [map parser app In].
  intros Hp.
  repeat match type of Hp with
         | _ \/ _ => destruct Hp as [Hp|Hp]
         end; try contradiction; subst p;
    first [ apply parsePackageJson_filled
          | apply parsePyprojectToml_filled
          | apply parsePipfile_filled
          | apply parseCargoToml_filled
          | apply text_parsers_filled; unfold text_parsers; cbn [In]; tauto
          | apply lock_parsers_filled; cbn [In]; tauto ].
Qed.
End Filled.

(** ** Lock files that keep the first version they see *)

Lemma set_absent_keeps {V : Type} (m : JSMap V) (k0 : string) (v0 : V)
      (k : string) (v : V) :
  map_get m k = Some v ->
  map_get (if negb (map_has m k0) then map_set m k0 v0 else m) k = Some v.
Proof.
  intros H. unfold map_has. destruct (map_get m k0) eqn:E; cbn [negb]; [exact H|].
  rewrite map_get_set. destruct (String.eqb_spec k0 k) as [->|]; [congruence|exact H].
Qed.

Lemma go_sum_line_keeps (deps : JSMap jsval) (line k : string) (v : jsval) :
  map_get deps k = Some v -> map_get (Go.go_sum_line deps line) k = Some v.
Proof.
  intros H. unfold Go.go_sum_line.
  repeat match goal with
         | |- map_get (if negb (map_has _ _) then _ else _) _ = _ =>
             now apply set_absent_keeps
         | |- map_get (if ?b then _ else _) _ = _ => destruct b
         | |- map_get (match ?x with Some _ => _ | None => _ end) _ = _ => destruct x
         end; exact H.
Qed.

Lemma yarn_line_keeps (st : JSMap jsval * option string) (line k : string)
      (v : jsval) :
  map_get (fst st) k = Some v -> map_get (fst (Node.yarn_line st line)) k = Some v.
Proof.
  destruct st as [deps currentPackage]. cbn [fst]. intros H. unfold Node.yarn_line.
  repeat match goal with
         | |- map_get (fst (if negb (map_has _ _) then _ else _, _)) _ = _ =>
             cbn [fst]; now apply set_absent_keeps
         | |- map_get (fst (if ?b then _ else _)) _ = _ => destruct b
         | |- map_get (fst (match ?x with Some _ => _ | None => _ end)) _ = _ =>
             destruct x
         end; exact H.
Qed.

Lemma lines_app (a b : string) :
  Js.lines (a ++ Js.LF ++ b)%string = Js.lines a ++ Js.lines b.
Proof. unfold Js.lines, Js.LF. apply split_app. Qed.

Lemma nonempty_get {V : Type} (m : JSMap V) :
  m <> [] -> exists k v, map_get m k = Some v.
Proof.
  destruct m as [|[k v] m]; [congruence|]. intros _. exists k, v.
  cbn. now rewrite String.eqb_refl.
Qed.

Lemma parseGoSum_first_wins (a b : string) (m : JSMap jsval) :
  Go.parseGoSum a = Ok [mkParsed m production] ->
  exists m', Go.parseGoSum (a ++ Js.LF ++ b)%string = Ok [mkParsed m' production]
             /\ forall k v, map_get m k = Some v -> map_get m' k = Some v.
Proof.
  unfold Go.parseGoSum. rewrite lines_app, fold_left_app.
  set (ma := fold_left Go.go_sum_line (Js.lines a) []).
  set (m' := fold_left Go.go_sum_line (Js.lines b) ma).
  assert (K : forall k v, map_get ma k = Some v -> map_get m' k = Some v).
  { intros k v H. unfold m'. apply fold_left_inv; [|exact H].
    intros s l. apply go_sum_line_keeps. }
  cbn [try_catch]. destruct ma as [|e ma]; [discriminate|]. cbn [map_size List.length Nat.eqb].
  intros [= <-]. exists m'. split; [|exact K].
  destruct m' as [|e' m'']; [|reflexivity].
  destruct e as [k v]. specialize (K k v). cbn in K. rewrite String.eqb_refl in K.
  now specialize (K eq_refl).
Qed.

Lemma parseYarnLock_first_wins (a b : string) (m : JSMap jsval) :
  Node.parseYarnLock a = Ok [mkParsed m production] ->
  exists m', Node.parseYarnLock (a ++ Js.LF ++ b)%string = Ok [mkParsed m' production]
             /\ forall k v, map_get m k = Some v -> map_get m' k = Some v.
Proof.
  unfold Node.parseYarnLock. rewrite lines_app, fold_left_app.
  set (sa := fold_left Node.yarn_line (Js.lines a) ([], None)).
  set (s' := fold_left Node.yarn_line (Js.lines b) sa).
  assert (K : forall k v, map_get (fst sa) k = Some v -> map_get (fst s') k = Some v).
  { intros k v H. unfold s'.
    apply (fold_left_inv (fun s => map_get (fst s) k = Some v)); [|exact H].
    intros s l. apply yarn_line_keeps. }
  cbn [try_catch]. destruct (fst sa) as [|e ma]; [discriminate|].
  cbn [map_size List.length Nat.eqb].
  intros [= <-]. exists (fst s'). split; [|exact K].
  destruct (fst s') as [|e' m'']; [|reflexivity].
  destruct e as [k v]. specialize (K k v). cbn in K. rewrite String.eqb_refl in K.
  now specialize (K eq_refl).
Qed.

(** ** Versions that are never reported *)

Lemma all_values_nil (P : jsval -> Prop) : all_values P [].
Proof. intros k x []. Qed.

Lemma all_values_set (P : jsval -> Prop) (m : JSMap jsval) (k : string) (x : jsval) :
  all_values P m -> P x -> all_values P (map_set m k x).
Proof.
  intros Hm Hx k' x' H. apply In_map_set in H as [[_ ->]|H]; [exact Hx|].
  exact (Hm k' x' H).
Qed.

Lemma truthy_nonempty (v : string) : Js.truthy v = true -> v <> EmptyString.
Proof. destruct v; [discriminate|discriminate]. Qed.

Section Pom.
Variable parseString : string -> res xml_call.

Lemma pom_dependency_resolved (st st' : JSMap jsval * JSMap jsval) (dep : jsval) :
  all_values resolved_version (fst st) /\ all_values resolved_version (snd st) ->
  Java.pom_dependency st dep = Ok st' ->
  all_values resolved_version (fst st') /\ all_values resolved_version (snd st').
Proof.
  destruct st as [prodDeps testDeps]. cbn [fst snd]. intros [Hp Ht] H.
  unfold Java.pom_dependency in H.
  step_in H as groupId Eg. step_in H as artifactId Ea.
  step_in H as version Ev. step_in H as scope Es.
  destruct (Val.truthy groupId && Val.truthy artifactId && Val.truthy version) eqn:E;
    [|injection H as <-; now split].
  apply andb_true_iff in E as [_ Etv].
  step_in H as v Eas. destruct version; try discriminate. injection Eas as ->.
  destruct (Js.startsWith v "${") eqn:Esw; [injection H as <-; now split|].
  assert (Hv : resolved_version (JStr v)).
  { exists v. split; [reflexivity|]. split; [now apply truthy_nonempty|exact Esw]. }
  repeat match type of H with
         | match ?x with _ => _ end = _ => destruct x
         | (if ?b then _ else _) = _ => destruct b
         end; injection H as <-; cbn [fst snd]; split;
    first [assumption | now apply all_values_set].
Qed.

Lemma pom_managed_resolved (st st' : JSMap jsval * JSMap jsval) (dep : jsval) :
  all_values resolved_version (fst st) /\ all_values resolved_version (snd st) ->
  Java.pom_managed st dep = Ok st' ->
  all_values resolved_version (fst st') /\ all_values resolved_version (snd st').
Proof.
  destruct st as [prodDeps testDeps]. cbn [fst snd]. intros [Hp Ht] H.
  unfold Java.pom_managed in H.
  step_in H as groupId Eg. step_in H as artifactId Ea.
  step_in H as version Ev.
  destruct (Val.truthy groupId && Val.truthy artifactId && Val.truthy version) eqn:E;
    [|injection H as <-; now split].
  apply andb_true_iff in E as [_ Etv].
  step_in H as v Eas. destruct version; try discriminate. injection Eas as ->.
  destruct (Js.startsWith v "${") eqn:Esw; [injection H as <-; now split|].
  assert (Hv : resolved_version (JStr v)).
  { exists v. split; [reflexivity|]. split; [now apply truthy_nonempty|exact Esw]. }
  destruct (negb _ && negb _); injection H as <-; cbn [fst snd]; split;
    first [assumption | now apply all_values_set].
Qed.

Lemma In_push_group (results : list ParsedDependencies) (deps : JSMap jsval)
      (t : DependencyType) (g : ParsedDependencies) :
  In g (push_group results deps t) -> In g results \/ g = mkParsed deps t.
Proof.
  unfold push_group. destruct (0 <? map_size deps)%nat; [|auto].
  intros H. apply in_app_or in H as [H|[<-|[]]]; auto.
Qed.

Lemma parsePomXml_resolved (content : string) (groups : list ParsedDependencies)
      (g : ParsedDependencies) :
  Java.parsePomXml parseString content = Ok groups -> In g groups ->
  all_values resolved_version (dependencies g).
Proof.
  unfold Java.parsePomXml. intros H Hg.
  apply try_catch_Ok in H as [H| ->]; [|destruct Hg].
  step_in H as call Ec.
  destruct (negb (Val.truthy (parsed_of call))); [injection H as <-; destruct Hg|].
  step_in H as project Ep.
  destruct (negb (Val.truthy project)); [injection H as <-; destruct Hg|].
  step_in H as d Ed. step_in H as deps Edeps. step_in H as st Est.
  step_in H as m Em. step_in H as mdeps Emd. step_in H as st2 Est2.
  destruct st2 as [prodDeps testDeps]. injection H as <-.
  assert (H1 : all_values resolved_version (fst st)
               /\ all_values resolved_version (snd st)).
  { refine (@foldM_inv _ _ (fun s => all_values resolved_version (fst s)
                                     /\ all_values resolved_version (snd s))
                       Java.pom_dependency deps _ ([], []) st _ Est).
    - intros s a s'. apply pom_dependency_resolved.
    - split; apply all_values_nil. }
  assert (H2 : all_values resolved_version prodDeps
               /\ all_values resolved_version testDeps).
  { refine (@foldM_inv _ _ (fun s => all_values resolved_version (fst s)
                                     /\ all_values resolved_version (snd s))
                       Java.pom_managed mdeps _ st (prodDeps, testDeps) H1 Est2).
    intros s a s'. apply pom_managed_resolved. }
  destruct H2 as [Hp Ht].
  apply In_push_group in Hg as [Hg| ->]; [|exact Ht].
  apply In_push_group in Hg as [[]| ->]. exact Hp.
Qed.
End Pom.

(** A pattern that ends in [$] leaves nothing after its match. *)
Lemma run_ends_at_eol (R : Type) (extra : nat) (r : re) :
  ends_at_eol r = true ->
  forall (k : cont R) (pos : nat) (s : string) (c : caps) (x : R),
    run extra r k pos s c = Some x ->
    exists pos' c', k pos' EmptyString c' = Some x.
Proof.
  induction r; cbn [ends_at_eol]; try discriminate; intros He k pos s c x H.
  - rewrite run_Seq in H. apply run_consumes in H as (n & c' & _ & _ & H).
    exact (IHr2 He _ _ _ _ _ H).
  - apply andb_true_iff in He as [H1 H2]. cbn [run] in H.
    destruct (run extra r1 k pos s c) eqn:E.
    + injection H as <-. exact (IHr1 H1 _ _ _ _ _ E).
    + exact (IHr2 H2 _ _ _ _ _ H).
  - cbn [run] in H. apply (IHr He) in H as (pos' & c' & H). eauto.
  - rewrite run_Eol in H. destruct s; [eauto|discriminate].
Qed.

Lemma exec_ends_at_eol (r : re) (s : string) (m : result) :
  ends_at_eol r = true -> exec r s = Some m -> rest m = EmptyString.
Proof.
  intros He. unfold exec. generalize 0.
  induction s as [|a s IH]; intros pos; cbn [search_from].
  - destruct (match_at r pos "") eqn:E; [|discriminate]. intros [= ->].
    unfold match_at in E. apply (run_ends_at_eol _ _ He) in E as (pos' & c' & E).
    now injection E as <-.
  - destruct (match_at r pos (String a s)) eqn:E.
    + intros [= ->]. unfold match_at in E.
      apply (run_ends_at_eol _ _ He) in E as (pos' & c' & E). now injection E as <-.
    + apply IH.
Qed.

Lemma prefix_substring (p s : string) (i : nat) :
  String.prefix p (String.substring 0 i s) = true -> String.prefix p s = true.
Proof.
  revert s i. induction p as [|a p IH]; intros s i; [now destruct s|].
  destruct s as [|b s]; destruct i as [|i]; cbn; try discriminate.
  destruct (Ascii.ascii_dec a b); [apply IH|discriminate].
Qed.

Lemma append_empty (s : string) : (s ++ "")%string = s.
Proof. induction s as [|c s IH]; cbn; [reflexivity|]. now rewrite IH. Qed.

Lemma replace_peer_suffix_link (v : string) :
  Js.startsWith v "link:" = false ->
  Js.startsWith (replace Node.re_peer_suffix "" v) "link:" = false.
Proof.
  intros H. unfold replace. destruct (exec Node.re_peer_suffix v) as [m|] eqn:E;
    [|exact H].
  assert (He : ends_at_eol Node.re_peer_suffix = true) by reflexivity.
  rewrite (exec_ends_at_eol _ _ He E). cbn [String.append].
  rewrite append_empty. unfold Js.startsWith in *.
  destruct (String.prefix "link:" (String.substring 0 (index m) v)) eqn:Ep;
    [|reflexivity].
  apply prefix_substring in Ep. congruence.
Qed.

Section Pnpm.
Variable yaml_load : string -> res jsval.

Lemma pnpm_importer_entry_registry (deps deps' : JSMap jsval)
      (entry : string * jsval) :
  all_values registry_version deps ->
  Node.pnpm_importer_entry deps entry = Ok deps' ->
  all_values registry_version deps'.
Proof.
  intros Hd H. unfold Node.pnpm_importer_entry in H. destruct entry as [name info].
  step_in H as version Ev.
  destruct (Val.truthy version); [|now injection H as <-].
  step_in H as v Eas.
  destruct (negb (Js.startsWith v "link:")) eqn:E; [|now injection H as <-].
  injection H as <-. apply negb_true_iff in E.
  apply all_values_set; [exact Hd|].
  eexists. split; [reflexivity|]. now apply replace_peer_suffix_link.
Qed.

Lemma pnpm_importer_registry (st st' : Node.two_maps) (importer : jsval) :
  all_values registry_version (fst st) /\ all_values registry_version (snd st) ->
  Node.pnpm_importer st importer = Ok st' ->
  all_values registry_version (fst st') /\ all_values registry_version (snd st').
Proof.
  destruct st as [prodDeps devDeps]. cbn [fst snd]. intros [Hp Hd] H.
  unfold Node.pnpm_importer in H.
  step_in H as d1 E1. step_in H as prodDeps' Ep. step_in H as d2 E2.
  step_in H as devDeps' Edv. injection H as <-. cbn [fst snd]. split.
  - destruct (Val.truthy d1); [|now injection Ep as <-].
    step_in Ep as es Ees.
    refine (@foldM_inv _ _ (all_values registry_version) Node.pnpm_importer_entry es
                       _ prodDeps prodDeps' Hp Ep).
    intros s a s' Hs. now apply pnpm_importer_entry_registry.
  - destruct (Val.truthy d2); [|now injection Edv as <-].
    step_in Edv as es Ees.
    refine (@foldM_inv _ _ (all_values registry_version) Node.pnpm_importer_entry es
                       _ devDeps devDeps' Hd Edv).
    intros s a s' Hs. now apply pnpm_importer_entry_registry.
Qed.

Lemma set_by_dev_values (P : jsval -> Prop) (st : Node.two_maps) (dev : jsval)
      (k : string) (x : jsval) :
  all_values P (fst st) /\ all_values P (snd st) -> P x ->
  all_values P (fst (Node.set_by_dev st dev k x))
  /\ all_values P (snd (Node.set_by_dev st dev k x)).
Proof.
  destruct st as [prodDeps devDeps]. cbn [fst snd]. intros [Hp Hd] Hx.
  unfold Node.set_by_dev. destruct (Val.truthy dev); cbn [fst snd]; split;
    first [assumption | now apply all_values_set].
Qed.

Lemma pnpm_package_registry (st st' : Node.two_maps) (entry : string * jsval) :
  all_values registry_version (fst st) /\ all_values registry_version (snd st) ->
  Node.pnpm_package st entry = Ok st' ->
  all_values registry_version (fst st') /\ all_values registry_version (snd st').
Proof.
  intros Hst H. unfold Node.pnpm_package in H. destruct entry as [path info].
  destruct (exec Node.re_pnpm_path path) as [m|]; [|now injection H as <-].
  destruct (group m 1) as [g1|]; [|now injection H as <-].
  destruct (group m 2) as [version|]; [|now injection H as <-].
  destruct (Js.truthy g1 && Js.truthy version); [|now injection H as <-].
  destruct (Js.startsWith version "link:") eqn:E; [now injection H as <-|].
  step_in H as dev Edev. injection H as <-.
  apply set_by_dev_values; [exact Hst|]. now exists version.
Qed.

Lemma parsePnpmLock_registry (content : string) (groups : list ParsedDependencies)
      (g : ParsedDependencies) :
  Node.parsePnpmLock yaml_load content = Ok groups -> In g groups ->
  all_values registry_version (dependencies g).
Proof.
  unfold Node.parsePnpmLock. intros H Hg.
  apply try_catch_Ok in H as [H| ->]; [|destruct Hg].
  step_in H as lock El. step_in H as importers Ei. step_in H as st Est.
  step_in H as st2 Est2. injection H as <-.
  assert (H1 : all_values registry_version (fst st)
               /\ all_values registry_version (snd st)).
  { destruct (Val.truthy importers).
    - step_in Est as vs Evs.
      refine (@foldM_inv _ _ (fun s => all_values registry_version (fst s)
                                       /\ all_values registry_version (snd s))
                         Node.pnpm_importer vs _ ([], []) st _ Est).
      + intros s a s'. apply pnpm_importer_registry.
      + split; apply all_values_nil.
    - injection Est as <-. split; apply all_values_nil. }
  assert (H2 : all_values registry_version (fst st2)
               /\ all_values registry_version (snd st2)).
  { destruct (_ && _); [|now injection Est2 as <-].
    step_in Est2 as packages Epk.
    destruct (Val.truthy packages); [|now injection Est2 as <-].
    step_in Est2 as es Ees.
    refine (@foldM_inv _ _ (fun s => all_values registry_version (fst s)
                                     /\ all_values registry_version (snd s))
                       Node.pnpm_package es _ st st2 H1 Est2).
    intros s a s'. apply pnpm_package_registry. }
  destruct st2 as [prodDeps devDeps]. destruct H2 as [Hp Hd].
  unfold Node.results_of in Hg.
  apply In_push_group in Hg as [Hg| ->]; [|exact Hd].
  apply In_push_group in Hg as [[]| ->]. exact Hp.
Qed.
End Pnpm.

(** ** String literals under the depth guards *)

Lemma plain_char_dquote (c : ascii) :
  plain_char c = true -> Ascii.eqb c dquote = false /\ Ascii.eqb c "\" = false.
Proof.
  unfold plain_char. intros H. apply andb_true_iff in H as [H1 H2].
  now apply negb_true_iff in H1, H2.
Qed.

Lemma prefix_String (a b : ascii) (p s : string) :
  String.prefix (String a p) (String b s) = Ascii.eqb b a && String.prefix p s.
Proof.
  cbn [String.prefix]. destruct (Ascii.ascii_dec a b) as [->|Hne].
  - now rewrite Ascii.eqb_refl.
  - replace (Ascii.eqb b a) with false; [reflexivity|].
    symmetry. apply Ascii.eqb_neq. congruence.
Qed.

Lemma prefix_nil (s : string) : String.prefix EmptyString s = true.
Proof. now destruct s. Qed.

Lemma json_literal_body (maxDepth depth : Z) (s tail : string) :
  all_chars plain_char s = true ->
  Node.checkJsonDepth_from maxDepth depth true false (s ++ String dquote tail)%string
  = Node.checkJsonDepth_from maxDepth depth false false tail.
Proof.
  induction s as [|c s IH]; cbn [String.append all_chars]; intros H.
  - cbn [Node.checkJsonDepth_from]. now rewrite Ascii.eqb_refl.
  - apply andb_true_iff in H as [Hc Hs]. apply plain_char_dquote in Hc as [H1 H2].
    cbn [Node.checkJsonDepth_from]. rewrite H1, H2. cbn [andb]. now apply IH.
Qed.

Lemma json_literal (maxDepth depth : Z) (s tail : string) :
  all_chars plain_char s = true ->
  Node.checkJsonDepth_from maxDepth depth false false (quoted s ++ tail)%string
  = Node.checkJsonDepth_from maxDepth depth false false tail.
Proof.
  intros H. unfold quoted. cbn [String.append]. rewrite append_assoc.
  cbn [String.append Node.checkJsonDepth_from]. rewrite Ascii.eqb_refl. cbn [andb negb].
  now apply json_literal_body.
Qed.

Lemma json_outside (maxDepth : Z) (pre x y : string) :
  all_chars (fun c => negb (Ascii.eqb c dquote)) pre = true ->
  (forall depth, Node.checkJsonDepth_from maxDepth depth false false x
                 = Node.checkJsonDepth_from maxDepth depth false false y) ->
  forall depth,
    Node.checkJsonDepth_from maxDepth depth false false (pre ++ x)%string
    = Node.checkJsonDepth_from maxDepth depth false false (pre ++ y)%string.
Proof.
  intros Hp Hxy. induction pre as [|c pre IH]; cbn [String.append]; [exact Hxy|].
  cbn [all_chars] in Hp. apply andb_true_iff in Hp as [Hc Hp].
  apply negb_true_iff in Hc. intros depth.
  cbn [Node.checkJsonDepth_from]. rewrite Hc, andb_false_r.
  repeat match goal with
         | |- (if ?b then _ else _) = (if ?b then _ else _) => destruct b
         end; auto.
Qed.

Lemma rust_literal_body (maxDepth depth : Z) (s tail : string) :
  all_chars plain_char s = true ->
  Rust.checkNestingDepth_from maxDepth depth true (String dquote EmptyString) false 0
                              (s ++ String dquote tail)%string
  = Rust.checkNestingDepth_from maxDepth depth false EmptyString false 0 tail.
Proof.
  induction s as [|c s IH]; cbn [String.append all_chars]; intros H.
  - cbn [Rust.checkNestingDepth_from]. cbn [Ascii.eqb andb negb].
    replace (Ascii.eqb dquote "\") with false by reflexivity. cbn [andb].
    rewrite prefix_String, Ascii.eqb_refl, prefix_nil. reflexivity.
  - apply andb_true_iff in H as [Hc Hs]. apply plain_char_dquote in Hc as [H1 H2].
    cbn [Rust.checkNestingDepth_from]. rewrite H2. cbn [andb negb].
    rewrite prefix_String, H1. cbn [andb]. now apply IH.
Qed.

Lemma rust_literal (maxDepth depth : Z) (s tail : string) :
  all_chars plain_char s = true -> s <> EmptyString ->
  Rust.checkNestingDepth_from maxDepth depth false EmptyString false 0
                              (quoted s ++ tail)%string
  = Rust.checkNestingDepth_from maxDepth depth false EmptyString false 0 tail.
Proof.
  intros H Hne. unfold quoted. cbn [String.append]. rewrite append_assoc.
  cbn [String.append]. destruct s as [|c s]; [congruence|].
  pose proof H as H'. cbn [all_chars] in H'. apply andb_true_iff in H' as [Hc _].
  apply plain_char_dquote in Hc as [H1 _].
  cbn [Rust.checkNestingDepth_from]. cbn [andb negb].
  replace (Ascii.eqb dquote "\") with false by reflexivity.
  replace (is_quote dquote) with true by reflexivity. cbn [andb].
  unfold Rust.repeat3. cbn [String.append].
  rewrite !prefix_String, H1, Ascii.eqb_refl. cbn [andb].
  exact (rust_literal_body maxDepth depth (String c s) tail H).
Qed.

Lemma rust_outside (maxDepth : Z) (pre x y : string) :
  all_chars (fun c => negb (is_quote c)) pre = true ->
  (forall depth, Rust.checkNestingDepth_from maxDepth depth false EmptyString false 0 x
                 = Rust.checkNestingDepth_from maxDepth depth false EmptyString false 0 y) ->
  forall depth,
    Rust.checkNestingDepth_from maxDepth depth false EmptyString false 0 (pre ++ x)%string
    = Rust.checkNestingDepth_from maxDepth depth false EmptyString false 0
                                  (pre ++ y)%string.
Proof.
  intros Hp Hxy. induction pre as [|c pre IH]; cbn [String.append]; [exact Hxy|].
  cbn [all_chars] in Hp. apply andb_true_iff in Hp as [Hc Hp].
  apply negb_true_iff in Hc. intros depth.
  cbn [Rust.checkNestingDepth_from]. rewrite Hc, andb_false_r. cbn [negb andb].
  repeat match goal with
         | |- (if ?b then _ else _) = (if ?b then _ else _) => destruct b
         end; auto.
Qed.

(** X26. The depth guards of [node.ts] and [rust.ts] do not count what
    stands in a string literal: taking a literal without quotes and
    backslashes in it out of a text, where it stands outside any other
    literal, does not change their answer. *)
Theorem depth_guards_skip_literal (pre s post : string) (maxDepth : Z) :
  all_chars (fun c => negb (is_quote c)) pre = true ->
  all_chars plain_char s = true -> s <> EmptyString ->
  Node.checkJsonDepth (pre ++ quoted s ++ post) maxDepth
  = Node.checkJsonDepth (pre ++ post) maxDepth
  /\ Rust.checkNestingDepth (pre ++ quoted s ++ post) maxDepth
     = Rust.checkNestingDepth (pre ++ post) maxDepth.
Proof.
  intros Hp Hs Hne. split.
  - unfold Node.checkJsonDepth. apply json_outside.
    + revert Hp. apply all_chars_impl. intros c Hc. unfold is_quote in Hc.
      apply negb_true_iff in Hc. apply orb_false_iff in Hc as [Hc _].
      now rewrite Hc.
    + intros depth. now apply json_literal.
  - unfold Rust.checkNestingDepth. apply rust_outside; [exact Hp|].
    intros depth. now apply rust_literal.
Qed.

Lemma depth_guards_skip_literal_witness :
  let pre := "{ key: [" in
  let s := "]]] {{{ [[[" in
  let post := "] }" in
  all_chars (fun c => negb (is_quote c)) pre = true
  /\ all_chars plain_char s = true
  /\ Node.checkJsonDepth (pre ++ quoted s ++ post) 2
     = Node.checkJsonDepth (pre ++ post) 2
  /\ Rust.checkNestingDepth (pre ++ quoted s ++ post) 2
     = Rust.checkNestingDepth (pre ++ post) 2.
Proof.
  intros pre s post. split; [reflexivity|]. split; [reflexivity|].
  apply (@depth_guards_skip_literal pre s post 2 eq_refl eq_refl). discriminate.
Defined.

(** ** Escaped separators *)

Lemma escaped_from_weaken (p : ascii -> bool) (b : bool) (s : string) :
  escaped_from p false s = true -> escaped_from p b s = true.
Proof.
  destruct s as [|c s]; [reflexivity|]. cbn. intros H.
  apply andb_true_iff in H as [H1 H2]. rewrite H2.
  rewrite orb_false_r in H1. now rewrite H1.
Qed.

Lemma escaped_from_ext (p q : ascii -> bool) (s : string) :
  (forall c, p c = q c) -> forall b, escaped_from p b s = escaped_from q b s.
Proof.
  intros H. induction s as [|c s IH]; intros b; cbn; [reflexivity|].
  now rewrite H, IH.
Qed.

(** The flag after [x], when it was [b] before. *)
Lemma escaped_from_app (p : ascii -> bool) (x y : string) :
  forall b, escaped_from p b (x ++ y)%string = true ->
            escaped_from p b x = true
            /\ exists b', escaped_from p b' y = true
                          /\ (forall c x', x = (x' ++ String c "")%string ->
                                           b' = Ascii.eqb c "\").
Proof.
  induction x as [|c x IH]; intros b; cbn [String.append].
  - intros H. split; [reflexivity|]. exists b. split; [exact H|].
    intros c x' E. destruct x'; discriminate.
  - cbn [escaped_from]. intros H. apply andb_true_iff in H as [H1 H2].
    destruct (IH _ H2) as [Hx [b' [Hy Hb]]]. rewrite H1, Hx. split; [reflexivity|].
    destruct x as [|c' x].
    + exists (Ascii.eqb c "\"). split; [exact H2|].
      intros c0 x' E. destruct x' as [|a [|a' x'']]; cbn in E; try discriminate.
      now injection E as ->.
    + exists b'. split; [exact Hy|]. intros c0 x' E.
      destruct x' as [|a x']; [discriminate|]. cbn in E. injection E as -> E.
      exact (Hb _ _ E).
Qed.

Lemma escaped_from_join (p : ascii -> bool) (x y : string) :
  forall b, escaped_from p b x = true -> escaped_from p false y = true ->
            escaped_from p b (x ++ y)%string = true.
Proof.
  induction x as [|c x IH]; intros b Hx Hy; cbn [String.append].
  - now apply escaped_from_weaken.
  - cbn [escaped_from] in *. apply andb_true_iff in Hx as [H1 H2].
    rewrite H1. now apply IH.
Qed.

(** One escaping step: the class grows by the escaped character. *)
Lemma escape_step (q : ascii -> bool) (d : ascii) (s : string) :
  q "\"%char = false -> Ascii.eqb d "\" = false ->
  forall b, escaped_from q b s = true ->
            escaped_from (fun c => q c || Ascii.eqb d c) b
                         (replace_all_chr (Ascii.eqb d) (String "\" (String d "")) s)
            = true.
Proof.
  intros Hq Hd. induction s as [|c s IH]; intros b H; [reflexivity|].
  cbn [escaped_from] in H. apply andb_true_iff in H as [H1 H2].
  cbn [replace_all_chr]. destruct (Ascii.eqb d c) eqn:E.
  - apply Ascii.eqb_eq in E. subst c. cbn [String.append escaped_from].
    rewrite Hq, Hd, !Ascii.eqb_refl.
    cbn [orb negb andb]. rewrite orb_true_r. cbn [andb].
    apply IH. now rewrite Hd in H2.
  - cbn [escaped_from]. rewrite E, orb_false_r, H1. cbn [andb]. now apply IH.
Qed.

(** A replacement by text that holds none of the class and does not
    end in a backslash. *)
Lemma entity_step (p : ascii -> bool) (d : ascii) (by_ : string) (s : string) :
  Ascii.eqb d "\" = false ->
  (forall b y, escaped_from p false y = true ->
               escaped_from p b (by_ ++ y)%string = true) ->
  forall b, escaped_from p b s = true ->
            escaped_from p b (replace_all_chr (Ascii.eqb d) by_ s) = true.
Proof.
  intros Hd Hby. induction s as [|c s IH]; intros b H; [reflexivity|].
  cbn [escaped_from] in H. apply andb_true_iff in H as [H1 H2].
  cbn [replace_all_chr]. destruct (Ascii.eqb d c) eqn:E.
  - apply Ascii.eqb_eq in E. subst c. apply Hby. apply IH. now rewrite Hd in H2.
  - cbn [escaped_from]. rewrite H1. cbn [andb]. now apply IH.
Qed.

(** Where a tag ends. *)
Lemma match_tag_end (pos : nat) (s : string) (m : result) :
  match_at Comment.re_tag pos s = Some m ->
  exists n, s = (String.substring 0 n s ++ String ">" (rest m))%string
            /\ index m = pos.
Proof.
  unfold match_at, Comment.re_tag. cbn [Seqs]. rewrite run_Seq. intros H.
  apply run_consumes in H as (n1 & c1 & Hn1 & _ & H). rewrite run_Seq in H.
  apply run_consumes in H as (n2 & c2 & Hn2 & _ & H).
  rewrite slice_slice in H. cbn [Lit run] in H.
  destruct (Js.slice (n1 + n2) s) as [|a s'] eqn:Es; [discriminate|].
  destruct (Ascii.eqb ">" a) eqn:Ea; [|discriminate].
  apply Ascii.eqb_eq in Ea. subst a. injection H as <-. cbn [rest index].
  exists (n1 + n2). split; [|reflexivity].
  rewrite <- Es. apply substring_slice.
Qed.

Lemma search_tag_end (s : string) :
  forall (pos : nat) (m : result),
    search_from Comment.re_tag pos s = Some m ->
    exists i n, s = (String.substring 0 i s ++ Js.slice i s)%string
                /\ Js.slice i s
                   = (String.substring 0 n (Js.slice i s) ++ String ">" (rest m))%string
                /\ index m = pos + i.
Proof.
  induction s as [|a s IH]; intros pos m; cbn [search_from].
  - destruct (match_at Comment.re_tag pos "") eqn:E; [|discriminate].
    intros [= ->]. apply match_tag_end in E as (n & Hs & Hi).
    exists 0, n. rewrite Nat.add_0_r. auto.
  - destruct (match_at Comment.re_tag pos (String a s)) eqn:E.
    + intros [= ->]. apply match_tag_end in E as (n & Hs & Hi).
      exists 0, n. rewrite Nat.add_0_r. cbn [Js.slice String.substring String.append].
      auto.
    + intros H. apply IH in H as (i & n & H1 & H2 & H3).
      exists (S i), n. cbn [Js.slice]. split; [|split; [exact H2|lia]].
      cbn [String.substring String.append]. now rewrite <- H1.
Qed.

Lemma replace_tags_escaped (p : ascii -> bool) :
  forall (fuel pos : nat) (s : string) (b : bool),
    escaped_from p b s = true ->
    escaped_from p b (replace_all_from fuel Comment.re_tag "" pos s) = true.
Proof.
  induction fuel as [|fuel IH]; intros pos s b H; cbn [replace_all_from];
    [exact H|].
  destruct (search_from Comment.re_tag pos s) as [m|] eqn:E; [|exact H].
  apply search_tag_end in E as (i & n & H1 & H2 & H3).
  rewrite H3. replace (pos + i - pos) with i by lia. cbn [String.append].
  rewrite H1 in H. apply escaped_from_app in H as [Hpre [b1 [Hmid _]]].
  rewrite H2 in Hmid. apply escaped_from_app in Hmid as [_ [b2 [Hend _]]].
  cbn [escaped_from] in Hend. apply andb_true_iff in Hend as [_ Hrest].
  change (Ascii.eqb ">" "\") with false in Hrest.
  apply escaped_from_join; [exact Hpre|]. apply IH. exact Hrest.
Qed.

Lemma escaped_none (s : string) :
  forall b, escaped_from (fun _ => false) b s = true.
Proof. induction s as [|c s IH]; intros b; cbn; [reflexivity|apply IH]. Qed.

(** X21. In what [sanitizeForMarkdown] returns, every backtick, pipe
    and square bracket comes right after a backslash. *)
Theorem sanitizeForMarkdown_escapes (input : string) (maxLength : nat) :
  escaped (one_of "`|[]") (Comment.sanitizeForMarkdown input maxLength) = true.
Proof.
  rewrite sanitizeForMarkdown_steps. destruct (negb (Js.truthy input)); [reflexivity|].
  unfold escaped.
  set (s := replace_all_chr Comment.is_control "" (String.substring 0 maxLength input)).
  pose proof (escaped_none s false) as H0.
  apply (escape_step (fun _ => false) "`" s eq_refl eq_refl) in H0.
  apply (escape_step _ "|" _ eq_refl eq_refl) in H0.
  apply (escape_step _ "[" _ eq_refl eq_refl) in H0.
  apply (escape_step _ "]" _ eq_refl eq_refl) in H0.
  rewrite (escaped_from_ext _ (one_of "`|[]")) in H0.
  2:{ intros c. cbn [one_of]. now rewrite orb_false_r, !orb_assoc. }
  apply (entity_step _ ">" "&gt;"); [reflexivity|intros b y Hy; exact Hy|].
  apply (entity_step _ "<" "&lt;"); [reflexivity|intros b y Hy; exact Hy|].
  apply (entity_step _ "&" "&amp;"); [reflexivity|intros b y Hy; exact Hy|].
  unfold replace_all. apply replace_tags_escaped. exact H0.
Qed.

(** ** [src/version.ts] *)

(** X1. [cleanVersion] removes the whole leading run of range operators
    and then the white space around what is left: for a version made of
    operators followed by a body that does not begin with one, the
    result is the trimmed body. *)
Theorem cleanVersion_operator_run :
  forall ops body : string,
    all_chars is_range_op ops = true ->
    match body with String c _ => is_range_op c = false | EmptyString => True end ->
    cleanVersion (ops ++ body) = Js.trim body.
Proof.
  intros ops body Ho Hb. rewrite cleanVersion_strip.
  now rewrite strip_range_ops_app.
Qed.

Lemma cleanVersion_operator_run_witness :
  all_chars is_range_op ">=" = true
  /\ cleanVersion (">=" ++ " 1.2.3 ") = "1.2.3".
Proof.
  split; [reflexivity|].
  exact (cleanVersion_operator_run ">=" " 1.2.3 " eq_refl eq_refl).
Defined.

(** X2. Between two maps without repeated keys, where no new version is
    the empty string, [compareVersions] emits for every name exactly
    this: one removal when only the old map has it, one addition when
    only the new map has it, one classified change when both have it
    with different cleaned versions, and nothing otherwise. *)
Theorem compareVersions_per_name :
  forall (SemVer : Type) (sv_coerce : string -> option SemVer)
         (sv_prerelease : string -> option (list string))
         (sv_diff : SemVer -> SemVer -> option string)
         (oldDeps newDeps : JSMap string)
         (eco : Ecosystem) (path : string) (depType : DependencyType) (n : string),
    wf_map oldDeps -> wf_map newDeps ->
    (forall k v, In (k, v) newDeps -> v <> EmptyString) ->
    filter (fun c => String.eqb (name c) n)
           (compareVersions sv_coerce sv_prerelease sv_diff
                            oldDeps newDeps eco path depType)
    = match map_get oldDeps n, map_get newDeps n with
      | Some o, None => [mkChange n eco path (Some o) None removed depType]
      | Some o, Some v =>
          if String.eqb (cleanVersion o) (cleanVersion v) then []
          else [mkChange n eco path (Some o) (Some v)
                         (determineChangeType sv_coerce sv_prerelease sv_diff o v)
                         depType]
      | None, Some v => [mkChange n eco path None (Some v) added depType]
      | None, None => []
      end.
Proof.
  intros SemVer sc sp sd oldDeps newDeps eco path depType n Ho Hn Hv.
  apply compareVersions_by_name; [exact Ho|exact Hn|].
  intros k v Hin. specialize (Hv k v Hin). now destruct v.
Qed.

Lemma compareVersions_per_name_witness :
  let oldDeps := [("lodash", "^4.17.21"); ("left-pad", "1.0.0")] in
  let newDeps := [("lodash", "~4.17.21"); ("chalk", "5.0.0")] in
  let changes := compareVersions Semver.coerce Semver.prerelease Semver.diff
                                 oldDeps newDeps node "package.json" production in
  filter (fun c => String.eqb (name c) "lodash") changes = []
  /\ filter (fun c => String.eqb (name c) "left-pad") changes
     = [mkChange "left-pad" node "package.json" (Some "1.0.0") None removed production].
Proof.
  intros oldDeps newDeps changes.
  assert (Ho : wf_map oldDeps).
  { repeat constructor; cbn; intuition discriminate. }
  assert (Hn : wf_map newDeps).
  { repeat constructor; cbn; intuition discriminate. }
  assert (Hv : forall k v, In (k, v) newDeps -> v <> EmptyString).
  { intros k v [[= <- <-]|[[= <- <-]|[]]]; discriminate. }
  split.
  - exact (compareVersions_per_name Semver.coerce Semver.prerelease Semver.diff
                                    node "package.json" production "lodash" Ho Hn Hv).
  - exact (compareVersions_per_name Semver.coerce Semver.prerelease Semver.diff
                                    node "package.json" production "left-pad" Ho Hn Hv).
Defined.

(** X3. Against an empty map [compareVersions] reports every entry of
    the other one, in its order: all of them added when the old map is
    empty, all of them removed when the new map is empty. *)
Theorem compareVersions_against_empty :
  forall (SemVer : Type) (sv_coerce : string -> option SemVer)
         (sv_prerelease : string -> option (list string))
         (sv_diff : SemVer -> SemVer -> option string)
         (deps : JSMap string)
         (eco : Ecosystem) (path : string) (depType : DependencyType),
    compareVersions sv_coerce sv_prerelease sv_diff [] deps eco path depType
    = map (fun e => mkChange (fst e) eco path None (Some (snd e)) added depType) deps
    /\ compareVersions sv_coerce sv_prerelease sv_diff deps [] eco path depType
       = map (fun e => mkChange (fst e) eco path (Some (snd e)) None removed depType)
             deps.
Proof.
  intros. split; [apply compareVersions_all_added|apply compareVersions_all_removed].
Qed.

(** X4. A map without repeated keys and without empty versions,
    compared with itself, gives no change. *)
Theorem compareVersions_same_map :
  forall (SemVer : Type) (sv_coerce : string -> option SemVer)
         (sv_prerelease : string -> option (list string))
         (sv_diff : SemVer -> SemVer -> option string)
         (deps : JSMap string)
         (eco : Ecosystem) (path : string) (depType : DependencyType),
    wf_map deps ->
    (forall k v, In (k, v) deps -> v <> EmptyString) ->
    compareVersions sv_coerce sv_prerelease sv_diff deps deps eco path depType = [].
Proof.
  intros SemVer sc sp sd deps eco path depType Hwf Hv.
  apply compareVersions_same; [exact Hwf|].
  intros k v Hin. specialize (Hv k v Hin). now destruct v.
Qed.

Lemma compareVersions_same_map_witness :
  let deps := [("serde", "1.0"); ("tokio", "1.35")] in
  wf_map deps
  /\ compareVersions Semver.coerce Semver.prerelease Semver.diff
                     deps deps rust "Cargo.toml" production = [].
Proof.
  intros deps.
  assert (Hwf : wf_map deps).
  { repeat constructor; cbn; intuition discriminate. }
  split; [exact Hwf|].
  apply (compareVersions_same_map Semver.coerce Semver.prerelease Semver.diff
                                  rust "Cargo.toml" production Hwf).
  intros k v [[= <- <-]|[[= <- <-]|[]]]; discriminate.
Defined.

(** ** [src/main.ts] *)

(** X5. [isValidFilePath] accepts a path exactly when it does not begin
    with a slash and holds neither [..] nor a NUL character; its second
    test, for [/etc], [/proc] and [/sys], never turns a path down. *)
Theorem isValidFilePath_relative :
  forall filePath : string,
    isValidFilePath filePath
    = negb (Js.includes filePath ".." || Js.startsWith filePath "/"
            || Js.includes filePath NUL).
Proof.
  intros filePath. unfold isValidFilePath.
  destruct (Js.includes filePath ".." || Js.startsWith filePath "/"
            || Js.includes filePath NUL) eqn:E; [reflexivity|].
  apply orb_false_iff in E as [E _]. apply orb_false_iff in E as [_ E].
  unfold Js.startsWith in *.
  assert (H : forall p, String.prefix (String "/" p) filePath = false).
  { intros p. destruct (String.prefix (String "/" p) filePath) eqn:Ep; [|reflexivity].
    apply prefix_cons in Ep. congruence. }
  now rewrite !H.
Qed.

(** X7. The filter that [run] applies to the changed files and the
    lookup that [analyzeFile] starts with agree: [isDependencyFile]
    holds of a path exactly when [getParserForFile] finds a parser for
    it. *)
Theorem isDependencyFile_getParserForFile :
  forall (L : Loaders) (filePath : string),
    isDependencyFile L filePath = true <-> getParserForFile L filePath <> None.
Proof.
  intros L filePath. rewrite isDependencyFile_find.
  destruct (getParserForFile L filePath); split; congruence.
Qed.

(** X8. The registry looks at the last component of a path only: a
    file in a directory gets the parser that its bare name gets. *)
Theorem getParserForFile_basename :
  forall (L : Loaders) (dir fileName : string),
    Js.includes fileName "/" = false ->
    getParserForFile L (dir ++ "/" ++ fileName)%string = getParserForFile L fileName
    /\ isDependencyFile L (dir ++ "/" ++ fileName)%string = isDependencyFile L fileName.
Proof.
  intros L dir fileName H. destruct (@basename_path dir fileName H) as [H1 H2].
  unfold getParserForFile, isDependencyFile. now rewrite H1, H2.
Qed.

Lemma getParserForFile_basename_witness :
  let L := mkLoaders (fun _ => Throw SyntaxError) (fun _ => Throw SyntaxError)
                     (fun _ => Throw SyntaxError) (fun _ => Ok NoCallback) in
  Js.includes "Cargo.toml" "/" = false
  /\ getParserForFile L "crates/core/Cargo.toml" = getParserForFile L "Cargo.toml"
  /\ isDependencyFile L "crates/core/Cargo.toml" = isDependencyFile L "Cargo.toml".
Proof.
  intros L. split; [reflexivity|].
  exact (getParserForFile_basename L "crates/core" "Cargo.toml" eq_refl).
Defined.

(** X9. Whatever the [ecosystems] input holds, the action works on a
    set of ecosystems that is not empty and holds valid identifiers
    only, and among them every valid one that was asked for, white
    space and letter case apart. *)
Theorem getInputs_ecosystems :
  forall (env : ActionEnv) (log : list event) (inputs : ActionInputs),
    getInputs env = (log, Ok inputs) ->
    let active := filterEcosystems (ecosystems inputs) in
    active <> []
    /\ (forall e, In e active -> exists eco, e = ecosystem_id eco)
    /\ (forall e, In e (Js.split (or_string (getInput env "ecosystems") "all") ",") ->
                  In (Js.toLowerCase (Js.trim e)) VALID_ECOSYSTEMS ->
                  In (Js.toLowerCase (Js.trim e)) active).
Proof.
  intros env log inputs H. unfold getInputs in H.
  destruct (getBooleanInput env "comment-on-pr") as [b1|]; [|discriminate].
  destruct (getBooleanInput env "include-dev-dependencies") as [b2|]; [|discriminate].
  pose proof (ecosystems_of_active (or_string (getInput env "ecosystems") "all"))
    as Ha.
  destruct (ecosystems_of (or_string (getInput env "ecosystems") "all")) as [es ws].
  injection H as _ <-. cbn [ecosystems fst] in *.
  destruct Ha as [H1 [H2 H3]]. split; [exact H1|]. split.
  - intros e He. apply validateEcosystem_id. now apply H2.
  - intros e He Hv. apply H3; [exact He|]. now apply validateEcosystem_In.
Qed.

Lemma getInputs_ecosystems_witness :
  let env := mkEnv (fun n => if String.eqb n "ecosystems" then "Node, PYTHON ,npm"
                             else EmptyString)
                   (fun _ => Ok true) None in
  let inputs := mkInputs EmptyString (Only ["node"; "python"]) true true in
  getInputs env = ([Warning "Ignoring invalid ecosystems: npm"], Ok inputs)
  /\ filterEcosystems (ecosystems inputs) <> [].
Proof.
  intros env inputs.
  assert (H : getInputs env = ([Warning "Ignoring invalid ecosystems: npm"], Ok inputs))
    by (vm_compute; reflexivity).
  split; [exact H|].
  exact (proj1 (getInputs_ecosystems env H)).
Defined.

(** X10. Every change that [analyzeFile] returns bears the path it was
    asked about and the ecosystem of the parser registered for it; an
    addition has no old version, a removal no new one, and every other
    change has two strings as its versions; and it is a production
    dependency when development dependencies are left out. *)
Theorem analyzeFile_change_shape :
  forall (SemVer : Type) (sv_coerce : string -> option SemVer)
         (sv_prerelease : string -> option (list string))
         (sv_diff : SemVer -> SemVer -> option string)
         (exec : string -> list string -> res (Z * string)) (L : Loaders)
         (filePath baseSha headSha : string) (includeDevDependencies : bool)
         (changes : list Runtime.DependencyChange) (c : Runtime.DependencyChange),
    fst (analyzeFile sv_coerce sv_prerelease sv_diff exec L
                     filePath baseSha headSha includeDevDependencies) = Ok changes ->
    In c changes ->
    Runtime.file c = filePath
    /\ (exists found, getParserForFile L filePath = Some found
                      /\ Runtime.ecosystem c = pattern_ecosystem found)
    /\ change_shape c
    /\ (includeDevDependencies = false -> Runtime.dependencyType c = production).
Proof.
  intros SemVer sc sp sd exec L filePath baseSha headSha dev changes c H0 H.
  exact (@analyzeFile_shape _ sc sp sd exec L _ _ _ _ _ _ H0 H).
Qed.

Lemma analyzeFile_change_shape_witness :
  let old_text := ("{" ++ quoted "dependencies" ++ ":{" ++ quoted "lodash" ++ ":"
                   ++ quoted "^4.17.20" ++ "}}")%string in
  let new_text := ("{" ++ quoted "dependencies" ++ ":{" ++ quoted "lodash" ++ ":"
                   ++ quoted "^4.18.0" ++ "," ++ quoted "foo" ++ ":null},"
                   ++ quoted "devDependencies" ++ ":{" ++ quoted "jest" ++ ":"
                   ++ quoted "^29.0.0" ++ "}}")%string in
  let L := mkLoaders
             (fun content =>
                if String.eqb content old_text
                then Ok (JObj [("dependencies", JObj [("lodash", JStr "^4.17.20")])])
                else Ok (JObj [("dependencies",
                                JObj [("lodash", JStr "^4.18.0"); ("foo", JNull)]);
                               ("devDependencies", JObj [("jest", JStr "^29.0.0")])]))
             (fun _ => Throw SyntaxError) (fun _ => Throw SyntaxError)
             (fun _ => Ok NoCallback) in
  let exec := fun (_ : string) (args : list string) =>
                match args with
                | [_; object] =>
                    if String.prefix "0" object then Ok (0%Z, old_text)
                    else Ok (0%Z, new_text)
                | _ => Throw Error
                end in
  let c1 := Runtime.mkChange "lodash" node "package.json" (JStr "^4.17.20")
                             (JStr "^4.18.0") minor production in
  let c2 := Runtime.mkChange "foo" node "package.json" JNull JNull added production in
  fst (analyzeFile Semver.coerce Semver.prerelease Semver.diff exec L
                   "package.json" "0123456789abcdef0123456789abcdef01234567"
                   "fedcba9876543210fedcba9876543210fedcba98" false)
  = Ok [c1; c2]
  /\ change_shape c1 /\ change_shape c2.
Proof.
  intros old_text new_text L exec c1 c2.
  assert (H : fst (analyzeFile Semver.coerce Semver.prerelease Semver.diff exec L
                               "package.json"
                               "0123456789abcdef0123456789abcdef01234567"
                               "fedcba9876543210fedcba9876543210fedcba98" false)
              = Ok [c1; c2]) by (vm_compute; reflexivity).
  split; [exact H|]. split.
  - exact (proj1 (proj2 (proj2 (@analyzeFile_change_shape
                                  _ _ _ _ _ _ _ _ _ _ _ c1 H (or_introl eq_refl))))).
  - exact (proj1 (proj2 (proj2 (@analyzeFile_change_shape
                                  _ _ _ _ _ _ _ _ _ _ _ c2 H
                                  (or_intror (or_introl eq_refl)))))).
Defined.

(** X11. For a file that is missing or empty at the base revision
    [analyzeFile] returns additions only, each without an old version;
    for one that is missing or empty at the head revision it returns
    removals only, each without a new version.  In both cases it
    returns: no version is looked into. *)
Theorem analyzeFile_missing_side :
  forall (SemVer : Type) (sv_coerce : string -> option SemVer)
         (sv_prerelease : string -> option (list string))
         (sv_diff : SemVer -> SemVer -> option string)
         (exec : string -> list string -> res (Z * string)) (L : Loaders)
         (filePath baseSha headSha : string) (includeDevDependencies : bool),
    (content_missing (fst (getFileAtRef exec filePath baseSha)) = true ->
     exists changes,
       fst (analyzeFile sv_coerce sv_prerelease sv_diff exec L
                        filePath baseSha headSha includeDevDependencies) = Ok changes
       /\ forall c, In c changes ->
                    Runtime.changeType c = added /\ Runtime.oldVersion c = JNull)
    /\ (content_missing (fst (getFileAtRef exec filePath headSha)) = true ->
        exists changes,
          fst (analyzeFile sv_coerce sv_prerelease sv_diff exec L
                           filePath baseSha headSha includeDevDependencies) = Ok changes
          /\ forall c, In c changes ->
                       Runtime.changeType c = removed /\ Runtime.newVersion c = JNull).
Proof.
  intros SemVer sc sp sd exec L filePath baseSha headSha dev. split.
  - intros Hm. exact (@analyzeFile_added _ sc sp sd exec L _ _ _ dev Hm).
  - intros Hm. exact (@analyzeFile_removed _ sc sp sd exec L _ _ _ dev Hm).
Qed.

Lemma analyzeFile_missing_side_witness :
  let L := mkLoaders
             (fun _ => Ok (JObj [("dependencies",
                                  JObj [("lodash", JStr "^4.18.0"); ("foo", JNull)])]))
             (fun _ => Throw SyntaxError) (fun _ => Throw SyntaxError)
             (fun _ => Ok NoCallback) in
  let exec := fun (_ : string) (args : list string) =>
                match args with
                | [_; object] =>
                    if String.prefix "0" object then Ok (128%Z, EmptyString)
                    else Ok (0%Z, "{ }")
                | _ => Throw Error
                end in
  content_missing
    (fst (getFileAtRef exec "package.json"
                       "0123456789abcdef0123456789abcdef01234567")) = true
  /\ exists changes,
       fst (analyzeFile Semver.coerce Semver.prerelease Semver.diff exec L
                        "package.json" "0123456789abcdef0123456789abcdef01234567"
                        "fedcba9876543210fedcba9876543210fedcba98" true)
       = Ok changes
       /\ forall c, In c changes ->
                    Runtime.changeType c = added /\ Runtime.oldVersion c = JNull.
Proof.
  intros L exec.
  assert (Hm : content_missing
                 (fst (getFileAtRef exec "package.json"
                                    "0123456789abcdef0123456789abcdef01234567")) = true)
    by (vm_compute; reflexivity).
  split; [exact Hm|].
  exact (proj1 (@analyzeFile_missing_side
                  _ Semver.coerce Semver.prerelease Semver.diff exec L "package.json"
                  "0123456789abcdef0123456789abcdef01234567"
                  "fedcba9876543210fedcba9876543210fedcba98" true) Hm).
Defined.

(** X12. When the parser registered for a file reads the same groups
    at both revisions, and every version among them is a string that is
    not empty, [analyzeFile] returns no change. *)
Theorem analyzeFile_same_dependencies :
  forall (SemVer : Type) (sv_coerce : string -> option SemVer)
         (sv_prerelease : string -> option (list string))
         (sv_diff : SemVer -> SemVer -> option string)
         (exec : string -> list string -> res (Z * string)) (L : Loaders)
         (filePath baseSha headSha : string) (includeDevDependencies : bool)
         (found : DependencyFilePattern) (groups : list ParsedDependencies),
    getParserForFile L filePath = Some found ->
    parse_content found (fst (getFileAtRef exec filePath baseSha)) = Ok groups ->
    parse_content found (fst (getFileAtRef exec filePath headSha)) = Ok groups ->
    (forall g k v, In g groups -> In (k, v) (dependencies g) ->
                   exists s, v = JStr s /\ s <> EmptyString) ->
    fst (analyzeFile sv_coerce sv_prerelease sv_diff exec L
                     filePath baseSha headSha includeDevDependencies) = Ok [].
Proof.
  intros SemVer sc sp sd exec L filePath baseSha headSha dev found groups
         Hp Eo En Hv.
  exact (@analyzeFile_same _ sc sp sd exec L filePath baseSha headSha dev
                           found groups Hp Eo En Hv).
Qed.

Lemma analyzeFile_same_dependencies_witness :
  let L := mkLoaders
             (fun _ => Ok (JObj [("dependencies", JObj [("lodash", JStr "^4.18.0")])]))
             (fun _ => Throw SyntaxError) (fun _ => Throw SyntaxError)
             (fun _ => Ok NoCallback) in
  let exec := fun (_ : string) (args : list string) =>
                match args with
                | [_; object] =>
                    if String.prefix "0" object then Ok (0%Z, "{ }")
                    else Ok (0%Z, "{  }")
                | _ => Throw Error
                end in
  fst (analyzeFile Semver.coerce Semver.prerelease Semver.diff exec L
                   "package.json" "0123456789abcdef0123456789abcdef01234567"
                   "fedcba9876543210fedcba9876543210fedcba98" true)
  = Ok [].
Proof.
  intros L exec.
  apply (@analyzeFile_same_dependencies
           _ Semver.coerce Semver.prerelease Semver.diff exec L
           "package.json" "0123456789abcdef0123456789abcdef01234567"
           "fedcba9876543210fedcba9876543210fedcba98" true
           (mkPattern node ["package.json"] [] (Node.parsePackageJson (JSON_parse L)))
           [mkParsed [("lodash", JStr "^4.18.0")] production]);
    [vm_compute; reflexivity|vm_compute; reflexivity|vm_compute; reflexivity|].
  intros g k v [<-|[]] [[= <- <-]|[]]. exists "^4.18.0". split; [reflexivity|discriminate].
Defined.

(** X28. On the maps the parsers hand over, [compareVersions] throws a
    [TypeError] as soon as a name of the old map has a truthy value in
    the new map and one of its two values is not a string. *)
Theorem compareVersions_non_string_throws :
  forall (SemVer : Type) (sv_coerce : string -> option SemVer)
         (sv_prerelease : string -> option (list string))
         (sv_diff : SemVer -> SemVer -> option string)
         (oldDeps newDeps : JSMap jsval)
         (eco : Ecosystem) (path : string) (depType : DependencyType)
         (n : string) (oldVersion newVersion : jsval),
    In (n, oldVersion) oldDeps -> map_get newDeps n = Some newVersion ->
    Val.truthy newVersion = true ->
    is_string oldVersion && is_string newVersion = false ->
    Runtime.compareVersions sv_coerce sv_prerelease sv_diff
                            oldDeps newDeps eco path depType = Throw TypeError.
Proof.
  intros SemVer sc sp sd oldDeps newDeps eco path depType n o v Hin Hn Ht Hs.
  exact (@runtime_compareVersions_throws _ sc sp sd oldDeps newDeps eco path depType
                                         n o v Hin Hn Ht Hs).
Qed.

Lemma compareVersions_non_string_throws_witness :
  Runtime.compareVersions Semver.coerce Semver.prerelease Semver.diff
                          [("lodash", JStr "4.17.20"); ("left-pad", JNum 1)]
                          [("lodash", JStr "4.17.20"); ("left-pad", JNum 2)]
                          node "package.json" production
  = Throw TypeError.
Proof.
  apply (@compareVersions_non_string_throws
           _ Semver.coerce Semver.prerelease Semver.diff _ _ node "package.json"
           production "left-pad" (JNum 1) (JNum 2));
    [right; left; reflexivity|reflexivity|reflexivity|reflexivity].
Defined.

(** X13. Reconciliation invents nothing and loses no package: every
    change it returns is one of its input, and every package of the
    input is still there. *)
Theorem deduplicateChanges_same_packages :
  forall changes : list DependencyChange,
    (forall c, In c (deduplicateChanges changes) -> In c changes)
    /\ (forall c, In c changes ->
                  exists c', In c' (deduplicateChanges changes)
                             /\ ecosystem c' = ecosystem c /\ name c' = name c).
Proof.
  intros changes. split.
  - intros c H. apply deduplicateChanges_In in H. now apply survivor_In in H.
  - intros c H. destruct (survivor_exists _ _ H) as [c' Hs].
    pose proof (survivor_In _ _ Hs) as [_ Hk]. exists c'. split.
    + apply deduplicateChanges_In. now rewrite Hk.
    + now apply change_key_inj.
Qed.

(** X14. A list in which no package comes twice passes through
    reconciliation unchanged, in its order. *)
Theorem deduplicateChanges_distinct_packages :
  forall changes : list DependencyChange,
    NoDup (map (fun c => (ecosystem c, name c)) changes) ->
    deduplicateChanges changes = changes.
Proof.
  intros changes H. apply deduplicateChanges_distinct.
  revert H. apply NoDup_map_coarser.
  intros a b Hk. apply change_key_inj in Hk as [-> ->]. reflexivity.
Qed.

Lemma deduplicateChanges_distinct_packages_witness :
  let changes :=
    [mkChange "lodash" node "package-lock.json" (Some "4.17.20") (Some "4.17.21")
              patch production;
     mkChange "requests" python "requirements.txt" (Some "2.30.0") (Some "2.31.0")
              minor production] in
  deduplicateChanges changes = changes.
Proof.
  intros changes. apply deduplicateChanges_distinct_packages.
  repeat constructor; cbn; intuition discriminate.
Defined.

(** X15. Reconciling twice is reconciling once. *)
Theorem deduplicateChanges_idempotent :
  forall changes : list DependencyChange,
    deduplicateChanges (deduplicateChanges changes) = deduplicateChanges changes.
Proof.
  intros changes. apply deduplicateChanges_distinct, deduplicateChanges_keys_NoDup.
Qed.

(** X16. [groupByEcosystem] keeps, for every ecosystem, exactly the
    changes of that ecosystem, in the order of the input; it has no
    empty group, no key twice and no key that is not the ecosystem of a
    change. *)
Theorem groupByEcosystem_groups :
  forall (changes : list DependencyChange),
    (forall e : Ecosystem,
        map_get (groupByEcosystem changes) (ecosystem_id e)
        = match filter (fun c => Ecosystem_eqb (ecosystem c) e) changes with
          | [] => None
          | g => Some g
          end)
    /\ NoDup (keys (groupByEcosystem changes))
    /\ (forall k, In k (keys (groupByEcosystem changes)) ->
                  exists c, In c changes /\ k = ecosystem_id (ecosystem c)).
Proof.
  intros changes. split; [intros e; apply groupByEcosystem_get|]. split.
  - apply groupByEcosystem_wf.
  - apply groupByEcosystem_keys.
Qed.

(** ** [src/parsers] *)

(** X22. No parser returns an empty group: every group of every parse
    result holds at least one dependency. *)
Theorem parsers_groups_nonempty :
  forall (L : Loaders) (p : Parser) (content : string)
         (groups : list ParsedDependencies) (g : ParsedDependencies),
    In p (all_parsers L) -> p content = Ok groups -> In g groups ->
    1 <= map_size (dependencies g).
Proof.
  intros L p content groups g Hp Hrun Hg.
  pose proof (@all_parsers_filled L p content groups Hp Hrun g Hg) as H.
  unfold map_size. destruct (dependencies g); [congruence|cbn; lia].
Qed.

Lemma parsers_groups_nonempty_witness :
  let L := mkLoaders (fun _ => Ok (JObj [("dependencies", JObj []);
                                         ("devDependencies",
                                          JObj [("jest", JStr "^29.0.0")])]))
                     (fun _ => Throw SyntaxError) (fun _ => Throw SyntaxError)
                     (fun _ => Ok NoCallback) in
  let g := mkParsed [("jest", JStr "^29.0.0")] development in
  In (Node.parsePackageJson (JSON_parse L)) (all_parsers L)
  /\ Node.parsePackageJson (JSON_parse L) "{}" = Ok [g]
  /\ 1 <= map_size (dependencies g).
Proof.
  intros L g.
  assert (Hp : In (Node.parsePackageJson (JSON_parse L)) (all_parsers L))
    by (left; reflexivity).
  assert (Hrun : Node.parsePackageJson (JSON_parse L) "{}" = Ok [g])
    by (vm_compute; reflexivity).
  split; [exact Hp|]. split; [exact Hrun|].
  exact (@parsers_groups_nonempty L _ "{}" [g] g Hp Hrun (or_introl eq_refl)).
Defined.

(** X23. [parseGoSum] and [parseYarnLock] keep the first version they
    find for a name: whatever lines follow in the file, the versions
    read so far stay as they are. *)
Theorem lock_files_first_version_wins :
  forall (a b : string) (m : JSMap jsval),
    (Go.parseGoSum a = Ok [mkParsed m production] ->
     exists m', Go.parseGoSum (a ++ Js.LF ++ b)%string = Ok [mkParsed m' production]
                /\ forall k v, map_get m k = Some v -> map_get m' k = Some v)
    /\ (Node.parseYarnLock a = Ok [mkParsed m production] ->
        exists m', Node.parseYarnLock (a ++ Js.LF ++ b)%string
                   = Ok [mkParsed m' production]
                   /\ forall k v, map_get m k = Some v -> map_get m' k = Some v).
Proof.
  intros a b m. split; [apply parseGoSum_first_wins|apply parseYarnLock_first_wins].
Qed.

Lemma lock_files_first_version_wins_witness :
  let a := "example.com/m v1.9.1 h1:aaa=" in
  let b := "example.com/m v1.9.0 h1:bbb=" in
  Go.parseGoSum a = Ok [mkParsed [("example.com/m", JStr "v1.9.1")] production]
  /\ exists m', Go.parseGoSum (a ++ Js.LF ++ b)%string = Ok [mkParsed m' production]
                /\ map_get m' "example.com/m" = Some (JStr "v1.9.1").
Proof.
  intros a b.
  assert (H : Go.parseGoSum a
              = Ok [mkParsed [("example.com/m", JStr "v1.9.1")] production])
    by (vm_compute; reflexivity).
  split; [exact H|].
  destruct (proj1 (@lock_files_first_version_wins a b _) H) as [m' [H1 H2]].
  exists m'. split; [exact H1|]. apply H2. reflexivity.
Defined.

(** X24. Every version that [parsePomXml] reports is a string that is
    not empty and is no property placeholder: it does not begin with
    [${]. *)
Theorem parsePomXml_versions_resolved :
  forall (parseString : string -> res xml_call) (content : string)
         (groups : list ParsedDependencies) (g : ParsedDependencies)
         (k : string) (x : jsval),
    Java.parsePomXml parseString content = Ok groups ->
    In g groups -> In (k, x) (dependencies g) ->
    exists v, x = JStr v /\ v <> EmptyString /\ Js.startsWith v "${" = false.
Proof.
  intros parseString content groups g k x H Hg Hk.
  exact (@parsePomXml_resolved parseString content groups g H Hg k x Hk).
Qed.

Lemma parsePomXml_versions_resolved_witness :
  let dependency (a v : string) :=
    JObj [("groupId", JArr [JStr "org.example"]); ("artifactId", JArr [JStr a]);
          ("version", JArr [JStr v])] in
  let parseString := fun _ : string =>
    Ok (Callback None
          (JObj [("project",
                  JObj [("dependencies",
                         JArr [JObj [("dependency",
                                      JArr [dependency "core" "${core.version}";
                                            dependency "util" "1.2.0"])]])])])) in
  let g := mkParsed [("org.example:util", JStr "1.2.0")] production in
  Java.parsePomXml parseString "<project/>" = Ok [g]
  /\ exists v, JStr "1.2.0" = JStr v /\ v <> EmptyString
               /\ Js.startsWith v "${" = false.
Proof.
  intros dependency parseString g.
  assert (H : Java.parsePomXml parseString "<project/>" = Ok [g])
    by (vm_compute; reflexivity).
  split; [exact H|].
  exact (@parsePomXml_versions_resolved parseString "<project/>" [g] g
                                        "org.example:util" (JStr "1.2.0") H
                                        (or_introl eq_refl) (or_introl eq_refl)).
Defined.

(** X25. Every version that [parsePnpmLock] reports is a string that
    does not begin with [link:]: packages of the workspace are never
    reported. *)
Theorem parsePnpmLock_versions_registry :
  forall (yaml_load : string -> res jsval) (content : string)
         (groups : list ParsedDependencies) (g : ParsedDependencies)
         (k : string) (x : jsval),
    Node.parsePnpmLock yaml_load content = Ok groups ->
    In g groups -> In (k, x) (dependencies g) ->
    exists v, x = JStr v /\ Js.startsWith v "link:" = false.
Proof.
  intros yaml_load content groups g k x H Hg Hk.
  exact (@parsePnpmLock_registry yaml_load content groups g H Hg k x Hk).
Qed.

Lemma parsePnpmLock_versions_registry_witness :
  let yaml_load := fun _ : string =>
    Ok (JObj [("importers",
               JObj [(".",
                      JObj [("dependencies",
                             JObj [("ui", JObj [("version", JStr "link:../ui")]);
                                   ("react",
                                    JObj [("version",
                                           JStr "18.2.0(react-dom@18.2.0)")])])])])]) in
  let g := mkParsed [("react", JStr "18.2.0")] production in
  Node.parsePnpmLock yaml_load "importers:" = Ok [g]
  /\ exists v, JStr "18.2.0" = JStr v /\ Js.startsWith v "link:" = false.
Proof.
  intros yaml_load g.
  assert (H : Node.parsePnpmLock yaml_load "importers:" = Ok [g])
    by (vm_compute; reflexivity).
  split; [exact H|].
  exact (@parsePnpmLock_versions_registry yaml_load "importers:" [g] g "react"
                                          (JStr "18.2.0") H
                                          (or_introl eq_refl) (or_introl eq_refl)).
Defined.

(** X27. Where a [pyproject.toml] has no [tool.poetry] table,
    [parsePyprojectToml] returns no more than 5,000 entries. *)
Theorem parsePyprojectToml_pep621_ceiling :
  forall (toml_parse : string -> res jsval) (content : string)
         (groups : list ParsedDependencies),
    (forall pyproject tool,
        Python.safeTomlParse toml_parse content = Ok pyproject ->
        Val.get pyproject "tool" = Ok tool ->
        Val.truthy (Val.get_opt tool "poetry") = false) ->
    Python.parsePyprojectToml toml_parse content = Ok groups ->
    total_entries groups <= Python.MAX_DEPENDENCIES.
Proof. exact parsePyprojectToml_pep621_capped. Qed.

Lemma parsePyprojectToml_pep621_ceiling_witness :
  let toml_parse := fun _ : string =>
    Ok (JObj [("project",
               JObj [("dependencies",
                      JArr [JStr "requests>=2.31.0"; JStr "flask~=2.0.0"])])]) in
  let groups := [mkParsed [("requests", JStr "2.31.0"); ("flask", JStr "2.0.0")]
                          production] in
  Python.parsePyprojectToml toml_parse "[project]" = Ok groups
  /\ total_entries groups <= Python.MAX_DEPENDENCIES.
Proof.
  intros toml_parse groups.
  assert (H : Python.parsePyprojectToml toml_parse "[project]" = Ok groups)
    by (vm_compute; reflexivity).
  split; [exact H|].
  apply (@parsePyprojectToml_pep621_ceiling toml_parse "[project]" groups); [|exact H].
  intros pyproject tool Hp Ht. vm_compute in Hp. injection Hp as <-.
  vm_compute in Ht. injection Ht as <-. reflexivity.
Defined.
